(** * TAO TensorFlow2 backend: a shallow embedding of its pure helpers

    The development follows the Python sources of the repository:

    - [cv/classification/scripts/evaluate.py]   (module [Classmap])
    - [cv/makenet/utils/helper.py]               (module [Hue])
    - [cv/efficientdet/dataloader/datasource.py] (module [DataSource])
    - [cv/efficientdet/scripts/inference.py]     (module [Inference])
    - [cv/efficientdet/utils/hparams_config.py]  (module [HParams])

    Python integers are [Z], immutable lists are [list], Python [str] is
    [string], dictionaries are association lists in insertion order, and a
    raised exception is the [Raise] case of [result].  Objects that the
    code mutates live in a store (a heap) and are passed by reference. *)

From Stdlib Require Import ZArith QArith String Ascii List Lia Lqa Bool.
From stdpp Require Import base option list strings sorting.
Import ListNotations.

#[local] Set Warnings "-register-all".

Local Open Scope string_scope.

(** ** Python exceptions and results *)

Inductive exn : Type :=
  | AssertionError (msg : string)
  | RuntimeError (msg : string)
  | ValueError (msg : string)
  | KeyError (msg : string)
  | TypeError
  | IndexError
  | AttributeError
  | RecursionError
  | FileNotFoundError
  | StopIteration.

Inductive result (A : Type) : Type :=
  | Ok (a : A)
  | Raise (e : exn).
Arguments Ok {A} a.
Arguments Raise {A} e.

Definition rbind {A B} (r : result A) (k : A -> result B) : result B :=
  match r with
  | Ok a => k a
  | Raise e => Raise e
  end.

(** A list comprehension whose element expression may raise: elements are
    evaluated left to right and the first exception aborts the whole
    comprehension. *)
Fixpoint comprehension {A B} (f : A -> result B) (l : list A) : result (list B) :=
  match l with
  | [] => Ok []
  | x :: l' =>
      rbind (f x) (fun y => rbind (comprehension f l') (fun ys => Ok (y :: ys)))
  end.

(** ** Classmap loading in [run_evaluate] *)

Module Classmap.

(** A Python [float]: a finite value (its exact rational value) or one of
    the three special values the JSON decoder accepts. *)
Inductive pyfloat : Type :=
  | FFinite (q : Q)
  | FNaN
  | FInf (negative : bool).

(** What [json.load] can return. *)
Inductive json : Type :=
  | JNull
  | JBool (b : bool)
  | JInt (z : Z)
  | JFloat (f : pyfloat)
  | JStr (s : string)
  | JList (l : list json)
  | JDict (d : list (string * json)).

(** [x < n] for a Python value [x] and an [int] [n]: numbers compare by
    value ([bool] is a subclass of [int]); every other type raises
    [TypeError]. *)
Definition py_lt_int (x : json) (n : Z) : result bool :=
  match x with
  | JInt z => Ok (z <? n)%Z
  | JBool b => Ok (Z.b2z b <? n)%Z
  | JFloat (FFinite q) => Ok (if Qlt_le_dec q (inject_Z n) then true else false)
  | JFloat FNaN => Ok false
  | JFloat (FInf negative) => Ok negative
  | JNull | JStr _ | JList _ | JDict _ => Raise TypeError
  end.

(** [isinstance(x, int)] *)
Definition isinstance_int (x : json) : bool :=
  match x with
  | JInt _ | JBool _ => true
  | _ => false
  end.

(** [class_index < len(class_names) and isinstance(class_index, int)] *)
Definition index_ok (len : nat) (class_index : json) : result bool :=
  rbind (py_lt_int class_index (Z.of_nat len))
        (fun b => if b then Ok (isinstance_int class_index) else Ok false).

(** [l[i] = x] on a Python list: negative indices count from the end. *)
Definition list_setitem {A} (l : list A) (i : Z) (x : A) : result (list A) :=
  let n := Z.of_nat (length l) in
  if ((0 <=? i) && (i <? n))%Z then Ok (<[Z.to_nat i := x]> l)
  else if ((- n <=? i) && (i <? 0))%Z then Ok (<[Z.to_nat (n + i) := x]> l)
  else Raise IndexError.

(** [class_names[class_index] = class_name] with the index as loaded. *)
Definition assign_name (class_names : list string) (item : string * json)
  : result (list string) :=
  match item.2 with
  | JInt z => list_setitem class_names z item.1
  | JBool b => list_setitem class_names (Z.b2z b) item.1
  | _ => Raise TypeError
  end.

(** [for class_name, class_index in data.items(): ...] *)
Fixpoint assign_names (class_names : list string) (items : list (string * json))
  : result (list string) :=
  match items with
  | [] => Ok class_names
  | item :: items' =>
      rbind (assign_name class_names item) (fun cn => assign_names cn items')
  end.

Definition invalid_data_msg : string :=
  "Invalid data in the json file. The class index must be < number of classes and an integer value.".

(** Lines 101-111 of [run_evaluate]: [data] is the loaded JSON object, its
    items in insertion order.  [None] is Python's [None]. *)
Definition load_class_names (data : list (string * json))
  : result (option (list string)) :=
  match data with
  | [] => Ok None
  | _ =>
      let class_names := replicate (length (data.*1)) "" in
      rbind (comprehension (index_ok (length class_names)) (data.*2))
        (fun checks =>
           if negb (forallb id checks) then Raise (RuntimeError invalid_data_msg)
           else rbind (assign_names class_names data) (fun cn => Ok (Some cn)))
  end.

(** A classmap whose indices are the integers given. *)
Definition integer_classmap (items : list (string * Z)) : list (string * json) :=
  (fun nz => (nz.1, JInt nz.2)) <$> items.

End Classmap.

(** ** Hue rotation in [random_hue] *)

Module Hue.

Local Open Scope Q_scope.

(** One channel of an image: rows of pixel values.  Pixel values and the
    rotation angle are exact rationals; rounding of [float32] arithmetic
    is outside the model. *)
Definition channel : Type := list (list Q).

(** An elementwise array expression. *)
Definition elementwise (f : Q -> Q) (a : channel) : channel := map (map f) a.

(** [randu(low, high)], for the draw [u] of [np.random.random()]. *)
Definition randu (u low high : Q) : Q := u * (high - low) + low.

(** [idx = np.where(a > 360); a[idx] = a[idx] - 360] *)
Definition wrap_above (x : Q) : Q := if Qlt_le_dec 360 x then x - 360 else x.

(** [idx = np.where(a < 0); a[idx] = a[idx] + 360] *)
Definition wrap_below (x : Q) : Q := if Qlt_le_dec x 0 then x + 360 else x.

(** The body of [random_hue] on the hue channel, once [delta] is drawn. *)
Definition rotate_hue (delta : Q) (hchannel : channel) : channel :=
  let hchannel := elementwise (fun h => delta + h) hchannel in
  let hchannel := elementwise wrap_above hchannel in
  let hchannel := elementwise wrap_below hchannel in
  hchannel.

(** [random_hue] on the hue channel of the HSV image; the colour-space
    conversions before and after belong to OpenCV. *)
Definition random_hue (u : Q) (max_delta : Q) (hchannel : channel) : channel :=
  let delta := randu u (- max_delta) max_delta in
  rotate_hue delta hchannel.

(** What one pixel [h] of the hue channel becomes. *)
Definition rotate_pixel (delta h : Q) : Q := wrap_below (wrap_above (delta + h)).

(** The relation between a pixel and its rotation: a wrap by a multiple
    of 360 into the closed interval. *)
Definition wrapped (delta h y : Q) : Prop :=
  0 <= y <= 360
  /\ (y == delta + h \/ y == delta + h - 360 \/ y == delta + h + 360)
  /\ (y == 360 -> delta + h == 360 \/ delta + h == 720)
  /\ (360 < delta + h -> y == delta + h - 360)
  /\ (delta + h < 0 -> y == delta + h + 360).

(** Every pixel of a channel satisfies [P]. *)
Definition all_pixels (P : Q -> Prop) (a : channel) : Prop :=
  Forall (Forall P) a.

End Hue.

(** ** A state-and-exception monad for code that mutates objects *)

Definition M (S A : Type) : Type := S -> result A * S.

Definition ret {S A} (a : A) : M S A := fun s => (Ok a, s).
Definition raise {S A} (e : exn) : M S A := fun s => (Raise e, s).
Definition bind {S A B} (m : M S A) (k : A -> M S B) : M S B :=
  fun s => match m s with
           | (Ok a, s') => k a s'
           | (Raise e, s') => (Raise e, s')
           end.
Definition get_state {S} : M S S := fun s => (Ok s, s).
Definition put_state {S} (s : S) : M S unit := fun _ => (Ok tt, s).

Notation "x <- c1 ;; c2" := (bind c1 (fun x => c2))
  (at level 62, c1 at next level, right associativity).
Notation "c1 ;;; c2" := (bind c1 (fun _ => c2))
  (at level 62, right associativity).

(** ** [DataSource] *)

Module DataSource.

(** The attributes of a [DataSource] object; [n] is absent until
    [__iter__] has run. *)
Record instance : Type := {
  tfrecord_patterns : list string;
  image_dirs : list string;
  n : option nat
}.

Definition set_n (k : nat) (o : instance) : instance :=
  {| tfrecord_patterns := tfrecord_patterns o;
     image_dirs := image_dirs o;
     n := Some k |}.

(** Objects live in a store and are passed around by reference. *)
Abbreviation ref := nat (only parsing).
Abbreviation store := (list instance).

Definition load (self : ref) : M store instance :=
  fun st => match st !! self with
            | Some o => (Ok o, st)
            | None => (Raise AttributeError, st)
            end.

Definition mismatch_msg : string :=
  "The number of image directories doesnot match the number of TFRecords paths.".

(** The directories a constructed [DataSource] holds. *)
Definition effective_dirs (patterns dirs : list string) : list string :=
  match dirs with
  | [] => replicate (length patterns) "/"
  | _ => dirs
  end.

(** [DataSource(tfrecord_patterns, image_dirs)]: the object is entered in
    the store once [__init__] has returned. *)
Definition init (patterns dirs : list string) : M store ref :=
  if negb (0 <? length patterns)%nat then raise (AssertionError "Error!")
  else
    dirs' <- (if (0 <? length dirs)%nat then
                if negb (length dirs =? length patterns)%nat
                then raise (AssertionError mismatch_msg)
                else ret dirs
              else ret (replicate (length patterns) "/")) ;;
    st <- get_state ;;
    put_state (st ++ [ {| tfrecord_patterns := patterns;
                          image_dirs := dirs';
                          n := None |} ])%list ;;;
    ret (length st).

(** [__len__] *)
Definition dunder_len (self : ref) : M store nat :=
  o <- load self ;; ret (length (tfrecord_patterns o)).

(** [__iter__] *)
Definition dunder_iter (self : ref) : M store ref :=
  o <- load self ;;
  st <- get_state ;;
  put_state (<[self := set_n 0 o]> st) ;;;
  ret self.

(** [l[i]] for a non-negative index. *)
Definition getitem {A} (l : list A) (i : nat) : M store A :=
  match l !! i with
  | Some x => ret x
  | None => raise IndexError
  end.

(** [__next__] *)
Definition dunder_next (self : ref) : M store (string * string) :=
  o <- load self ;;
  match n o with
  | None => raise AttributeError
  | Some k =>
      if (k <? length (tfrecord_patterns o))%nat then
        tfr <- getitem (tfrecord_patterns o) k ;;
        img_dir <- getitem (image_dirs o) k ;;
        st <- get_state ;;
        put_state (<[self := set_n (k + 1) o]> st) ;;;
        ret (tfr, img_dir)
      else raise StopIteration
  end.

(** The loop [for x in it: out.append(x)] over an iterator [it]: [__next__]
    is called until it raises [StopIteration].  [None] when the budget of
    iterations is used up before that. *)
Fixpoint drain (budget : nat) (it : ref) (st : store)
  : option (result (list (string * string)) * store) :=
  match budget with
  | O => None
  | S budget' =>
      match dunder_next it st with
      | (Ok x, st') =>
          match drain budget' it st' with
          | Some (Ok xs, st'') => Some (Ok (x :: xs), st'')
          | other => other
          end
      | (Raise StopIteration, st') => Some (Ok [], st')
      | (Raise e, st') => Some (Raise e, st')
      end
  end.

(** [list(ds)]: obtain an iterator, then drain it. *)
Definition to_list (budget : nat) (ds : ref) (st : store)
  : option (result (list (string * string)) * store) :=
  match dunder_iter ds st with
  | (Ok it, st') => drain budget it st'
  | (Raise e, st') => Some (Raise e, st')
  end.

End DataSource.

(** ** String helpers of the Python runtime *)

Module PyStr.

Definition newline : ascii := "010"%char.

(** [c.lower()] for one character: only A-Z change. *)
Definition lower_char (c : ascii) : ascii :=
  let k := nat_of_ascii c in
  if ((65 <=? k) && (k <=? 90))%nat then ascii_of_nat (k + 32) else c.

(** [s.lower()] *)
Fixpoint lower (s : string) : string :=
  match s with
  | EmptyString => EmptyString
  | String c s' => String (lower_char c) (lower s')
  end.

(** [x in l] for a list of strings. *)
Definition str_in (x : string) (l : list string) : bool :=
  existsb (String.eqb x) l.

(** [c in s] for a character. *)
Fixpoint contains_char (c : ascii) (s : string) : bool :=
  match s with
  | EmptyString => false
  | String c' s' => Ascii.eqb c c' || contains_char c s'
  end.

(** [s.rfind(c)]: the last position of [c], or -1. *)
Fixpoint rfind_from (c : ascii) (s : string) (pos : Z) (found : Z) : Z :=
  match s with
  | EmptyString => found
  | String c' s' =>
      rfind_from c s' (pos + 1) (if Ascii.eqb c c' then pos else found)
  end.
Definition rfind (c : ascii) (s : string) : Z := rfind_from c s 0 (-1).

(** [s[:-1]]: all but the last character; the empty string stays empty. *)
Definition drop_last (s : string) : string :=
  substring 0 (String.length s - 1) s.

(** [s.split(c)]: the pieces between the occurrences of [c]. *)
Fixpoint split_from (c : ascii) (cur : string) (s : string) : list string :=
  match s with
  | EmptyString => [cur]
  | String c' s' =>
      if Ascii.eqb c c' then cur :: split_from c EmptyString s'
      else split_from c (cur ++ String c' EmptyString) s'
  end.
Definition split (c : ascii) (s : string) : list string :=
  split_from c EmptyString s.

(** [f.readlines()] on the text of a file: every line keeps its newline;
    a last line without one is returned as it is. *)
Fixpoint readlines_from (cur : string) (text : string) : list string :=
  match text with
  | EmptyString => if String.eqb cur EmptyString then [] else [cur]
  | String c text' =>
      if Ascii.eqb c newline
      then (cur ++ String c EmptyString) :: readlines_from EmptyString text'
      else readlines_from (cur ++ String c EmptyString) text'
  end.
Definition readlines (text : string) : list string :=
  readlines_from EmptyString text.

(** [sorted(l)] for strings, by code point. *)
Fixpoint insert_sorted (x : string) (l : list string) : list string :=
  match l with
  | [] => [x]
  | y :: l' => if String.leb x y then x :: l else y :: insert_sorted x l'
  end.
Definition sorted (l : list string) : list string :=
  fold_right insert_sorted [] l.

(** [c.isspace()] for one character. *)
Definition is_space (c : ascii) : bool :=
  let k := nat_of_ascii c in
  (((9 <=? k) && (k <=? 13)) || ((28 <=? k) && (k <=? 32)))%nat.

(** [s.strip()] *)
Fixpoint lstrip (s : string) : string :=
  match s with
  | EmptyString => EmptyString
  | String c s' => if is_space c then lstrip s' else s
  end.
Fixpoint rstrip (s : string) : string :=
  match s with
  | EmptyString => EmptyString
  | String c s' =>
      let r := rstrip s' in
      if is_space c && String.eqb r EmptyString then EmptyString else String c r
  end.
Definition strip (s : string) : string := rstrip (lstrip s).

(** [s.find(c)]: the first position of [c], if any. *)
Fixpoint find_char (c : ascii) (s : string) : option nat :=
  match s with
  | EmptyString => None
  | String c' s' => if Ascii.eqb c c' then Some O else S <$> find_char c s'
  end.

(** [s.endswith(suffix)] *)
Definition endswith (s suffix : string) : bool :=
  let n := String.length s in
  let m := String.length suffix in
  (m <=? n)%nat && String.eqb (substring (n - m) m s) suffix.

(** A decimal integer literal: digits without a leading zero, with an
    optional minus sign. *)
Definition digit_of (c : ascii) : option Z :=
  let k := nat_of_ascii c in
  if ((48 <=? k) && (k <=? 57))%nat then Some (Z.of_nat (k - 48)) else None.
Fixpoint parse_digits (acc : Z) (s : string) : option Z :=
  match s with
  | EmptyString => Some acc
  | String c s' =>
      match digit_of c with
      | Some d => parse_digits (10 * acc + d) s'
      | None => None
      end
  end.
Definition parse_natural (s : string) : option Z :=
  match s with
  | EmptyString => None
  | String "0"%char (String _ _) => None
  | _ => parse_digits 0 s
  end.
Definition parse_int (s : string) : option Z :=
  match s with
  | String "-"%char s' => Z.opp <$> parse_natural s'
  | _ => parse_natural s
  end.

End PyStr.

(** ** [os.path] on POSIX *)

Module OsPath.

(** [os.path.splitext(p)]: the extension starts at the last dot of the
    last path component, unless that component has only leading dots
    before it. *)
Fixpoint only_dots (p : string) (from count : nat) : bool :=
  match count with
  | O => true
  | S count' =>
      match String.get from p with
      | Some "."%char => only_dots p (S from) count'
      | _ => false
      end
  end.

Definition splitext (p : string) : string * string :=
  let sepIndex := PyStr.rfind "/"%char p in
  let dotIndex := PyStr.rfind "."%char p in
  if (sepIndex <? dotIndex)%Z then
    let filenameIndex := Z.to_nat (sepIndex + 1) in
    let d := Z.to_nat dotIndex in
    if only_dots p filenameIndex (d - filenameIndex) then (p, EmptyString)
    else (substring 0 d p, substring d (String.length p - d) p)
  else (p, EmptyString).

(** [os.path.join(a, b)] *)
Definition join (a b : string) : string :=
  if String.prefix "/" b then b
  else if String.eqb a EmptyString || (PyStr.rfind "/"%char a =? Z.of_nat (String.length a) - 1)%Z
       then a ++ b
       else a ++ "/" ++ b.

End OsPath.

(** ** Dictionaries: items in insertion order, keys pairwise distinct *)

Module PyDict.

Section Dict.
Context {K V : Type} `{EqDecision K}.

(** [d.get(k)]; [k in d] is [is_Some (dict_get k d)]. *)
Fixpoint dict_get (k : K) (d : list (K * V)) : option V :=
  match d with
  | [] => None
  | (k', v) :: d' => if decide (k = k') then Some v else dict_get k d'
  end.

(** [d[k] = v]: an existing key keeps its position, a new key goes
    last. *)
Fixpoint dict_set (k : K) (v : V) (d : list (K * V)) : list (K * V) :=
  match d with
  | [] => [(k, v)]
  | (k', v') :: d' =>
      if decide (k = k') then (k, v) :: d' else (k', v') :: dict_set k v d'
  end.
End Dict.

End PyDict.

(** ** [inference.py] *)

Module Inference.

Definition supported_img_format : list string :=
  [".jpg"; ".jpeg"; ".JPG"; ".JPEG"; ".png"; ".PNG"].

(** [get_label_dict], on the text of the label file as [open] in text mode
    delivers it (line ends already translated to the newline character). *)
Definition get_label_dict (text : string) : list (Z * string) :=
  let labels := PyStr.readlines text in
  imap (fun i label => ((Z.of_nat i + 1)%Z, PyStr.drop_last label)) labels.

(** The values of [range(start, stop, step)] for a positive step. *)
Fixpoint range_up (budget : nat) (ndx stop step : Z) : list Z :=
  match budget with
  | O => []
  | S budget' =>
      if (ndx <? stop)%Z then ndx :: range_up budget' (ndx + step) stop step
      else []
  end.

(** The values of [range(start, stop, step)] for a negative step. *)
Fixpoint range_down (budget : nat) (ndx stop step : Z) : list Z :=
  match budget with
  | O => []
  | S budget' =>
      if (stop <? ndx)%Z then ndx :: range_down budget' (ndx + step) stop step
      else []
  end.

(** [range(start, stop, step)]; at most [|stop - start|] values exist. *)
Definition py_range (start stop step : Z) : result (list Z) :=
  if (step =? 0)%Z then Raise (ValueError "range() arg 3 must not be zero")
  else if (0 <? step)%Z then Ok (range_up (Z.to_nat (stop - start)) start stop step)
  else Ok (range_down (Z.to_nat (start - stop)) start stop step).

(** A slice bound is clamped to the list; negative bounds count from the
    end. *)
Definition slice_bound (len i : Z) : nat :=
  Z.to_nat (if (i <? 0)%Z then Z.max 0 (len + i) else Z.min i len).

(** [l[a:b]] *)
Definition py_slice {A} (l : list A) (a b : Z) : list A :=
  let len := Z.of_nat (length l) in
  let a' := slice_bound len a in
  let b' := slice_bound len b in
  take (b' - a') (drop a' l).

(** [batch_generator]: the sequence of the values it yields. *)
Definition batch_generator {A} (iterable : list A) (batch_size : Z)
  : result (list (list A)) :=
  let total_len := Z.of_nat (length iterable) in
  rbind (py_range 0 total_len batch_size)
    (fun ndxs =>
       Ok ((fun ndx => py_slice iterable ndx (Z.min (ndx + batch_size) total_len))
             <$> ndxs)).

(** The extension the filter looks at. *)
Definition lowered_ext (imgname : string) : string :=
  PyStr.lower (OsPath.splitext imgname).2.

(** The filter of the comprehension in [infer_tlt]. *)
Definition selected (imgname : string) : bool :=
  PyStr.str_in (lowered_ext imgname) supported_img_format.

(** The entries of [supported_img_format] in lower and in upper case. *)
Definition lowercase_formats : list string := [".jpg"; ".jpeg"; ".png"].
Definition uppercase_formats : list string := [".JPG"; ".JPEG"; ".PNG"].

(** [imgpath_list] of [infer_tlt], for the listing of the image
    directory. *)
Definition imgpath_list (image_dir : string) (listing : list string) : list string :=
  OsPath.join image_dir
  <$> filter (fun imgname => Is_true (selected imgname)) (PyStr.sorted listing).

End Inference.

(** Loops in the monad. *)
Fixpoint mmap {S A B} (f : A -> M S B) (l : list A) : M S (list B) :=
  match l with
  | [] => ret []
  | x :: l' => y <- f x ;; ys <- mmap f l' ;; ret (y :: ys)
  end.

Fixpoint mfor {S A} (f : A -> M S unit) (l : list A) : M S unit :=
  match l with
  | [] => ret tt
  | x :: l' => f x ;;; mfor f l'
  end.

(** [try: m  except ValueError: raise ValueError(msg)] *)
Definition reraise_value_error {S A} (m : M S A) (msg : string) : M S A :=
  fun s => match m s with
           | (Raise (ValueError _), s') => (Raise (ValueError msg), s')
           | other => other
           end.

(** ** [hparams_config.py] *)

Module HParams.

Import PyDict.

(** *** Values and objects *)

Abbreviation addr := nat (only parsing).

(** A Python value is a scalar or a reference to a mutable object.  A
    [float] is the rational value of its literal. *)
Inductive pyval : Type :=
  | VNone
  | VBool (b : bool)
  | VInt (z : Z)
  | VFloat (q : Q)
  | VStr (s : string)
  | VRef (a : addr).

(** Heap objects.  [OConfig d] is a [Config] instance with [__dict__]
    equal to [d]. *)
Inductive obj : Type :=
  | OList (items : list pyval)
  | OTuple (items : list pyval)
  | ODict (d : list (string * pyval))
  | OConfig (d : list (string * pyval)).

Abbreviation heap := (list obj).

(** Plain data, as written by a literal or read back from the heap. *)
Inductive tree : Type :=
  | TNone
  | TBool (b : bool)
  | TInt (z : Z)
  | TFloat (q : Q)
  | TStr (s : string)
  | TList (items : list tree)
  | TTuple (items : list tree)
  | TDict (d : list (string * tree)).

Definition alloc (o : obj) : M heap addr :=
  fun h => (Ok (length h), (h ++ [o])%list).

Definition load (a : addr) : M heap obj :=
  fun h => match h !! a with
           | Some o => (Ok o, h)
           | None => (Raise AttributeError, h)
           end.

Definition store (a : addr) (o : obj) : M heap unit :=
  fun h => (Ok tt, <[a := o]> h).

(** Evaluating a literal: every list, tuple and dictionary display makes a
    new object, after its elements. *)
Fixpoint build (t : tree) : M heap pyval :=
  match t with
  | TNone => ret VNone
  | TBool b => ret (VBool b)
  | TInt z => ret (VInt z)
  | TFloat q => ret (VFloat q)
  | TStr s => ret (VStr s)
  | TList items =>
      vs <- mmap build items ;; a <- alloc (OList vs) ;; ret (VRef a)
  | TTuple items =>
      vs <- mmap build items ;; a <- alloc (OTuple vs) ;; ret (VRef a)
  | TDict d =>
      kvs <- mmap (fun kt => v <- build kt.2 ;; ret (kt.1, v)) d ;;
      a <- alloc (ODict kvs) ;; ret (VRef a)
  end.

(** Reading plain data back: [reify lo depth h v] follows references at
    most [depth] deep and only through objects at addresses [>= lo];
    a [Config] is not plain data. *)
Fixpoint reify (lo : addr) (depth : nat) (h : heap) (v : pyval) : option tree :=
  match v with
  | VNone => Some TNone
  | VBool b => Some (TBool b)
  | VInt z => Some (TInt z)
  | VFloat q => Some (TFloat q)
  | VStr s => Some (TStr s)
  | VRef a =>
      if (a <? lo)%nat then None else
      match depth with
      | O => None
      | S depth' =>
          match h !! a with
          | Some (OList items) => TList <$> mapM (reify lo depth' h) items
          | Some (OTuple items) => TTuple <$> mapM (reify lo depth' h) items
          | Some (ODict d) =>
              TDict <$> mapM (fun kv => pair kv.1 <$> reify lo depth' h kv.2) d
          | Some (OConfig _) | None => None
          end
      end
  end.

(** The contents of a [Config]: nested [Config] members read as
    dictionaries, every other member as plain data. *)
Fixpoint creify (lo : addr) (depth : nat) (h : heap) (v : pyval) : option tree :=
  match v with
  | VRef a =>
      match h !! a with
      | Some (OConfig d) =>
          if (a <? lo)%nat then None else
          match depth with
          | O => None
          | S depth' =>
              TDict <$> mapM (fun kv => pair kv.1 <$> creify lo depth' h kv.2) d
          end
      | _ => reify lo depth h v
      end
  | _ => reify lo depth h v
  end.

(** Every dictionary of the tree has pairwise distinct keys. *)
Fixpoint wf_tree (t : tree) : bool :=
  match t with
  | TList items | TTuple items => forallb wf_tree items
  | TDict d =>
      bool_decide (NoDup (d.*1)) && forallb (fun kt => wf_tree kt.2) d
  | _ => true
  end.

(** The dictionary [{"a": {"b": 1, "c": 2}}]. *)
Definition ab_example : tree :=
  TDict [("a", TDict [("b", TInt 1); ("c", TInt 2)])].

(** A relation on the values of two dictionaries with the same keys in the
    same order. *)
Definition keyed (P : pyval -> tree -> Prop)
    (kv : string * pyval) (kt : string * tree) : Prop :=
  kt.1 = kv.1 /\ P kv.2 kt.2.

(** What an object holds, given how its members read: [t] is the list, the
    tuple or the dictionary of the members' readings. *)
Definition reads_object (P : pyval -> tree -> Prop) (o : obj) (t : tree) : Prop :=
  match o with
  | OList items => exists ts, Forall2 P items ts /\ t = TList ts
  | OTuple items => exists ts, Forall2 P items ts /\ t = TTuple ts
  | ODict d => exists ts, Forall2 (keyed P) d ts /\ t = TDict ts
  | OConfig _ => False
  end.

(** *** Type tests and truth values *)

(** [isinstance(v, dict)] *)
Definition is_dict (v : pyval) : M heap bool :=
  match v with
  | VRef a => o <- load a ;; ret (match o with ODict _ => true | _ => false end)
  | _ => ret false
  end.

(** [isinstance(v, Config)], with the object's address when it holds. *)
Definition as_config (v : pyval) : M heap (option addr) :=
  match v with
  | VRef a => o <- load a ;; ret (match o with OConfig _ => Some a | _ => None end)
  | _ => ret None
  end.

(** [bool(v)] *)
Definition truthy (v : pyval) : M heap bool :=
  match v with
  | VNone => ret false
  | VBool b => ret b
  | VInt z => ret (negb (z =? 0)%Z)
  | VFloat q => ret (negb (Qeq_bool q 0))
  | VStr s => ret (negb (String.eqb s EmptyString))
  | VRef a =>
      o <- load a ;;
      ret (match o with
           | OList items | OTuple items => negb (Nat.eqb (length items) 0)
           | ODict d => negb (Nat.eqb (length d) 0)
           | OConfig _ => true
           end)
  end.

(** [self.__dict__] *)
Definition load_config (self : addr) : M heap (list (string * pyval)) :=
  o <- load self ;;
  match o with
  | OConfig d => ret d
  | _ => raise AttributeError
  end.

(** The items of a dictionary object. *)
Definition load_dict (v : pyval) : M heap (list (string * pyval)) :=
  match v with
  | VRef a =>
      o <- load a ;;
      match o with
      | ODict d => ret d
      | OConfig _ => raise (KeyError "items")
      | _ => raise AttributeError
      end
  | _ => raise AttributeError
  end.

(** [d[k] = v] on the dictionary object at [a]. *)
Definition dict_setitem (a : addr) (k : string) (v : pyval) : M heap unit :=
  o <- load a ;;
  match o with
  | ODict d => store a (ODict (dict_set k v d))
  | _ => raise TypeError
  end.

(** [self.__dict__[k] = v] *)
Definition config_setitem (self : addr) (k : string) (v : pyval) : M heap unit :=
  d <- load_config self ;; store self (OConfig (dict_set k v d)).

(** [Config.__getattr__] and [Config.__getitem__] *)
Definition getattr (self : addr) (k : string) : M heap pyval :=
  d <- load_config self ;;
  match dict_get k d with
  | Some v => ret v
  | None => raise (KeyError k)
  end.

(** *** [copy.deepcopy]

    [depth] bounds the nesting of calls, as the interpreter's recursion
    limit does.  The memo table of [deepcopy] is not modelled: the copy of
    a value without cycles has the same contents, and a cyclic value
    exhausts the depth.  A [Config] cannot be copied: looking up
    [__deepcopy__] goes through [Config.__getattr__], which raises
    [KeyError]. *)
Fixpoint deepcopy (depth : nat) (v : pyval) : M heap pyval :=
  match v with
  | VRef a =>
      match depth with
      | O => raise RecursionError
      | S depth' =>
          o <- load a ;;
          match o with
          | OList items =>
              vs <- mmap (deepcopy depth') items ;;
              a' <- alloc (OList vs) ;; ret (VRef a')
          | OTuple items =>
              vs <- mmap (deepcopy depth') items ;;
              a' <- alloc (OTuple vs) ;; ret (VRef a')
          | ODict d =>
              kvs <- mmap (fun kv => v' <- deepcopy depth' kv.2 ;; ret (kv.1, v')) d ;;
              a' <- alloc (ODict kvs) ;; ret (VRef a')
          | OConfig _ => raise (KeyError "__deepcopy__")
          end
      end
  | _ => ret v
  end.

(** *** The [Config] class *)

(** [Config.as_dict] *)
Fixpoint as_dict (depth : nat) (self : addr) : M heap pyval :=
  match depth with
  | O => raise RecursionError
  | S depth' =>
      config_dict <- alloc (ODict []) ;;
      members <- load_config self ;;
      mfor (fun kv =>
              c <- as_config kv.2 ;;
              v' <- match c with
                    | Some sub => as_dict depth' sub
                    | None => deepcopy depth' kv.2
                    end ;;
              dict_setitem config_dict kv.1 v') members ;;;
      ret (VRef config_dict)
  end.

(** [Config(v)], given the [update] method of the new object. *)
Definition new_config_with (update : addr -> pyval -> M heap unit) (v : pyval)
  : M heap addr :=
  self <- alloc (OConfig []) ;; update self v ;;; ret self.

(** [Config.__setattr__], given [Config.update] and [copy.deepcopy] as
    they run one call deeper. *)
Definition setattr_with (update : addr -> pyval -> M heap unit)
    (copy : pyval -> M heap pyval) (self : addr) (k : string) (v : pyval)
  : M heap unit :=
  b <- is_dict v ;;
  v' <- (if b : bool then c <- new_config_with update v ;; ret (VRef c) else copy v) ;;
  config_setitem self k v'.

Definition key_error_msg (k : string) : string :=
  "Key `" ++ k ++ "` does not exist for overriding.".

(** [Config._update] *)
Fixpoint _update (depth : nat) (self : addr) (config_dict : pyval)
    (allow_new_keys : bool) : M heap unit :=
  match depth with
  | O => raise RecursionError
  | S depth' =>
      let setattr :=
        setattr_with (fun c v => _update depth' c v true) (deepcopy depth') in
      nonempty <- truthy config_dict ;;
      if negb nonempty then ret tt else
      items <- load_dict config_dict ;;
      mfor (fun kv =>
              let k := kv.1 in
              let v := kv.2 in
              members <- load_config self ;;
              match dict_get k members with
              | None =>
                  if allow_new_keys then setattr self k v
                  else raise (KeyError (key_error_msg k))
              | Some cur =>
                  cur_config <- as_config cur ;;
                  v_dict <- is_dict v ;;
                  v_config <- as_config v ;;
                  match cur_config, v_dict, v_config with
                  | Some sub, true, _ => _update depth' sub v allow_new_keys
                  | Some sub, false, Some vc =>
                      d <- as_dict depth' vc ;;
                      _update depth' sub d allow_new_keys
                  | _, _, _ => setattr self k v
                  end
              end) items
  end.

(** [Config.update] *)
Definition update (depth : nat) (self : addr) (config_dict : pyval) : M heap unit :=
  _update depth self config_dict true.

(** [Config(config_dict)] *)
Definition new_config (depth : nat) (config_dict : pyval) : M heap addr :=
  new_config_with (update depth) config_dict.

(** [Config.__setattr__] *)
Definition setattr (depth : nat) (self : addr) (k : string) (v : pyval) : M heap unit :=
  setattr_with (update depth) (deepcopy depth) self k v.

(** *** Overrides from strings

    Two services of the runtime are used but not defined by the
    repository: [ast.literal_eval] ([None] when it raises [ValueError] or
    [SyntaxError]) and the reading of a YAML file. *)
Class Runtime : Type := {
  literal_eval : string -> option tree;
  yaml_load : string -> M heap pyval
}.

(** A runtime that knows decimal integer literals and has no files. *)
Definition decimal_runtime : Runtime := {|
  literal_eval := fun s => TInt <$> PyStr.parse_int s;
  yaml_load := fun _ => raise FileNotFoundError
|}.

Section Overrides.
Context `{Runtime}.

(** [eval_str_fn] *)
Definition eval_str_fn (val : string) : M heap pyval :=
  if PyStr.str_in val ["true"; "false"] then ret (VBool (String.eqb val "true"))
  else match literal_eval val with
       | Some t => build t
       | None => ret (VStr val)
       end.

(** [add_kv_recursive], local to [parse_from_str] *)
Fixpoint add_kv_recursive (depth : nat) (k v : string) : M heap pyval :=
  match PyStr.find_char "."%char k with
  | None =>
      if PyStr.contains_char "*"%char v then
        items <- mmap eval_str_fn (PyStr.split "*"%char v) ;;
        l <- alloc (OList items) ;;
        d <- alloc (ODict [(k, VRef l)]) ;;
        ret (VRef d)
      else
        x <- eval_str_fn v ;;
        d <- alloc (ODict [(k, x)]) ;;
        ret (VRef d)
  | Some pos =>
      match depth with
      | O => raise RecursionError
      | S depth' =>
          inner <- add_kv_recursive depth'
                     (substring (pos + 1) (String.length k - (pos + 1)) k) v ;;
          d <- alloc (ODict [(substring 0 pos k, inner)]) ;;
          ret (VRef d)
      end
  end.

(** [merge_dict_recursive], local to [parse_from_str] *)
Fixpoint merge_dict_recursive (depth : nat) (target src : pyval) : M heap unit :=
  match depth with
  | O => raise RecursionError
  | S depth' =>
      keys <- load_dict src ;;
      mfor (fun kv =>
              let k := kv.1 in
              tgt <- load_dict target ;;
              src_now <- load_dict src ;;
              match dict_get k src_now with
              | None => raise (KeyError k)
              | Some src_k =>
                  match dict_get k tgt with
                  | Some tgt_k =>
                      b1 <- is_dict tgt_k ;;
                      b2 <- is_dict src_k ;;
                      if b1 && b2 then merge_dict_recursive depth' tgt_k src_k
                      else match target with
                           | VRef t => dict_setitem t k src_k
                           | _ => raise TypeError
                           end
                  | None =>
                      match target with
                      | VRef t => dict_setitem t k src_k
                      | _ => raise TypeError
                      end
                  end
              end) keys
  end.

(** [Config.parse_from_str] *)
Definition parse_from_str (depth : nat) (config_str : string) : M heap pyval :=
  if String.eqb config_str EmptyString then
    d <- alloc (ODict []) ;; ret (VRef d)
  else
    config_dict <- alloc (ODict []) ;;
    reraise_value_error
      (mfor (fun kv_pair =>
               if String.eqb kv_pair EmptyString then ret tt
               else match PyStr.split "="%char kv_pair with
                    | [key_str; value_str] =>
                        let key_str := PyStr.strip key_str in
                        src <- add_kv_recursive depth key_str value_str ;;
                        merge_dict_recursive depth (VRef config_dict) src
                    | _ => raise (ValueError "wrong number of values to unpack")
                    end)
            (PyStr.split ","%char config_str) ;;;
       ret (VRef config_dict))
      ("Invalid config_str: " ++ config_str).

(** [Config.parse_from_yaml] *)
Definition parse_from_yaml (yaml_file_path : string) : M heap pyval :=
  yaml_load yaml_file_path.

Definition invalid_string_msg (s : string) : string :=
  "Invalid string " ++ s ++ ", must end with .yaml or contains "
    ++ String "034"%char ("=" ++ String "034"%char ".").

(** [Config.override]; the text of the value is left out of the last
    message. *)
Definition override (depth : nat) (self : addr) (config_dict_or_str : pyval)
    (allow_new_keys : bool) : M heap unit :=
  match config_dict_or_str with
  | VStr s =>
      if String.eqb s EmptyString then ret tt
      else
        config_dict <-
          (if PyStr.contains_char "="%char s then parse_from_str depth s
           else if PyStr.endswith s ".yaml" then parse_from_yaml s
           else raise (ValueError (invalid_string_msg s))) ;;
        _update depth self config_dict allow_new_keys
  | _ =>
      b <- is_dict config_dict_or_str ;;
      if b : bool then _update depth self config_dict_or_str allow_new_keys
      else raise (ValueError "Unknown value type")
  end.

(** *** Detection defaults and presets *)

(** The attribute assignments of [default_detection_configs], in order:
    [h.<name> = <literal>]. *)
Definition default_assignments : list (string * tree) :=
  [ ("name", TStr "efficientdet-d0");
    ("model_name", TStr "efficientdet-d0");
    ("act_type", TStr "swish");
    ("image_size", TInt 640);
    ("target_size", TNone);
    ("input_rand_hflip", TBool true);
    ("jitter_min", TFloat 0.1);
    ("jitter_max", TFloat 2.0);
    ("auto_augment", TBool false);
    ("auto_color", TBool false);
    ("auto_translate_xy", TBool false);
    ("grid_mask", TBool false);
    ("use_augmix", TBool false);
    ("augmix_params", TList [TInt 3; TInt (-1); TInt 1]);
    ("sample_image", TNone);
    ("shuffle_buffer", TInt 10000);
    ("num_classes", TInt 91);
    ("seg_num_classes", TInt 3);
    ("heads", TList [TStr "object_detection"]);
    ("skip_crowd_during_training", TBool true);
    ("label_map", TNone);
    ("max_instances_per_image", TInt 100);
    ("regenerate_source_id", TBool false);
    ("min_level", TInt 3);
    ("max_level", TInt 7);
    ("num_scales", TInt 3);
    ("aspect_ratios", TList [TTuple [TFloat 1.0; TFloat 1.0];
                             TTuple [TFloat 1.4; TFloat 0.7];
                             TTuple [TFloat 0.7; TFloat 1.4]]);
    ("anchor_scale", TFloat 4.0);
    ("is_training_bn", TBool true);
    ("momentum", TFloat 0.9);
    ("optimizer", TStr "sgd");
    ("learning_rate", TFloat 0.08);
    ("lr_warmup_init", TFloat 0.008);
    ("lr_warmup_epoch", TFloat 1.0);
    ("clip_gradients_norm", TFloat 10.0);
    ("num_epochs", TInt 300);
    ("data_format", TStr "channels_last");
    ("label_smoothing", TFloat 0.0);
    ("alpha", TFloat 0.25);
    ("gamma", TFloat 1.5);
    ("delta", TFloat 0.1);
    ("box_loss_weight", TFloat 50.0);
    ("iou_loss_type", TNone);
    ("iou_loss_weight", TFloat 1.0);
    ("l2_weight_decay", TFloat 4e-5);
    ("l1_weight_decay", TFloat 0.0);
    ("mixed_precision", TBool false);
    ("mixed_precision_on_inputs", TBool false);
    ("loss_scale", TInt (2 ^ 15));
    ("box_class_repeats", TInt 3);
    ("fpn_cell_repeats", TInt 3);
    ("fpn_num_filters", TInt 88);
    ("separable_conv", TBool true);
    ("apply_bn_for_resampling", TBool true);
    ("conv_after_downsample", TBool false);
    ("conv_bn_act_pattern", TBool false);
    ("drop_remainder", TBool true);
    ("nms_configs", TDict [ ("method", TStr "gaussian");
                            ("iou_thresh", TNone);
                            ("score_thresh", TFloat 0.0);
                            ("sigma", TNone);
                            ("pyfunc", TBool true);
                            ("max_nms_inputs", TInt 5000);
                            ("max_output_size", TInt 100) ]);
    ("fpn_name", TNone);
    ("fpn_weight_method", TNone);
    ("fpn_config", TNone);
    ("survival_prob", TNone);
    ("img_summary_steps", TNone);
    ("lr_decay_method", TStr "cosine");
    ("moving_average_decay", TFloat 0.9998);
    ("ckpt_var_scope", TNone);
    ("skip_mismatch", TBool true);
    ("backbone_name", TStr "efficientnet-b1");
    ("backbone_config", TNone);
    ("backbone_init", TNone);
    ("var_freeze_expr", TNone);
    ("use_keras_model", TBool true);
    ("dataset_type", TNone);
    ("positives_momentum", TNone);
    ("grad_checkpoint", TBool false);
    ("set_num_threads", TInt 1);
    ("use_xla", TBool false);
    ("seed", TInt 42);
    ("results_dir", TNone);
    ("freeze_blocks", TNone);
    ("freeze_bn", TBool false);
    ("encryption_key", TNone);
    ("qat", TBool false) ].

(** [default_detection_configs] *)
Definition default_detection_configs (depth : nat) : M heap addr :=
  h <- new_config depth VNone ;;
  mfor (fun kt => v <- build kt.2 ;; setattr depth h kt.1 v) default_assignments ;;;
  ret h.

(** One preset: the keyword arguments of its [dict(...)] call. *)
Definition preset (name backbone_name : string)
    (image_size fpn_num_filters fpn_cell_repeats box_class_repeats : Z)
    (extra : list (string * tree)) : list (string * tree) :=
  ([ ("name", TStr name);
     ("backbone_name", TStr backbone_name);
     ("image_size", TInt image_size);
     ("fpn_num_filters", TInt fpn_num_filters);
     ("fpn_cell_repeats", TInt fpn_cell_repeats);
     ("box_class_repeats", TInt box_class_repeats) ] ++ extra)%list.

Definition efficientdet_model_param_dict : list (string * list (string * tree)) :=
  [ ("resdet18", preset "resdet18" "resnet18" 512 64 3 3 []);
    ("resdet34", preset "resdet34" "resnet34" 512 88 4 3 []);
    ("efficientdet-d0", preset "efficientdet-d0" "efficientnet-b0" 512 64 3 3 []);
    ("efficientdet-d1", preset "efficientdet-d1" "efficientnet-b1" 640 88 4 3 []);
    ("efficientdet-d2", preset "efficientdet-d2" "efficientnet-b2" 768 112 5 3 []);
    ("efficientdet-d3", preset "efficientdet-d3" "efficientnet-b3" 896 160 6 4 []);
    ("efficientdet-d4", preset "efficientdet-d4" "efficientnet-b4" 1024 224 7 4 []);
    ("efficientdet-d5", preset "efficientdet-d5" "efficientnet-b5" 1280 288 7 4 []);
    ("efficientdet-d6", preset "efficientdet-d6" "efficientnet-b6" 1280 384 8 5
                          [("fpn_weight_method", TStr "sum")]);
    ("efficientdet-d7", preset "efficientdet-d7" "efficientnet-b6" 1536 384 8 5
                          [("anchor_scale", TFloat 5.0);
                           ("fpn_weight_method", TStr "sum")]);
    ("efficientdet-d7x", preset "efficientdet-d7x" "efficientnet-b7" 1536 384 8 5
                           [("anchor_scale", TFloat 4.0);
                            ("max_level", TInt 8);
                            ("fpn_weight_method", TStr "sum")]) ].

(** [get_efficientdet_config]; the preset, a module-level dictionary,
    is laid out on the heap when it is looked up. *)
Definition get_efficientdet_config (depth : nat) (model_name : string) : M heap addr :=
  h <- default_detection_configs depth ;;
  match dict_get model_name efficientdet_model_param_dict with
  | Some kwargs =>
      p <- build (TDict kwargs) ;;
      override depth h p false ;;;
      ret h
  | None => raise (ValueError ("Unknown model name: " ++ model_name))
  end.

(** [get_detection_config] *)
Definition get_detection_config (depth : nat) (model_name : string) : M heap addr :=
  if String.prefix "efficientdet" model_name || String.prefix "resdet" model_name
  then get_efficientdet_config depth model_name
  else raise (ValueError "model name must start with efficientdet or resdet.").

End Overrides.

(** The nesting depth of plain data: the depth that reading it takes. *)
Fixpoint tree_depth (t : tree) : nat :=
  match t with
  | TList items | TTuple items =>
      S (foldr (fun t acc => Nat.max (tree_depth t) acc) O items)
  | TDict d =>
      S (foldr (fun kt acc => Nat.max (tree_depth kt.2) acc) O d)
  | _ => O
  end.

(** A literal fit for an attribute of a [Config] at a given depth. *)
Definition literal_ok (depth : nat) (t : tree) : bool :=
  (tree_depth t <=? depth)%nat && wf_tree t.

(** Plain data other than a dictionary. *)
Definition not_dict (t : tree) : bool :=
  match t with
  | TDict _ => false
  | _ => true
  end.

(** The contents of a [Config] after [override] with the items given. *)
Definition overridden (dt kwargs : list (string * tree)) : list (string * tree) :=
  foldl (fun acc kt => dict_set kt.1 kt.2 acc) dt kwargs.

(** *** Statements about copies

    [copies depth]: [deepcopy] of a value that reads as [t] returns a value
    that reads as [t] through objects made by the call alone, and leaves the
    objects that existed as they were. *)
Definition copies (depth : nat) : Prop :=
  forall v (h : list obj) t lo,
    reify lo depth h v = Some t ->
    exists v' h',
      deepcopy depth v h = (Ok v', h')
      /\ h `prefix_of` h'
      /\ reify (length h) depth h' v' = Some t.

(** [exports depth]: [as_dict] on a [Config] whose contents read as [t]
    returns a dictionary that reads as [t] through objects made by the call
    alone, and leaves the objects that existed as they were. *)
Definition exports (depth : nat) : Prop :=
  forall c (h : list obj) d t lo,
    h !! c = Some (OConfig d) ->
    creify lo depth h (VRef c) = Some t ->
    wf_tree t = true ->
    exists h',
      as_dict depth c h = (Ok (VRef (length h)), h')
      /\ h `prefix_of` h'
      /\ reify (length h) depth h' (VRef (length h)) = Some t.

(** [constructs depth]: [Config(d)] for a dictionary that reads as [dt]
    returns a new [Config] whose contents read as [dt] through objects made
    by the call alone, and leaves the objects that existed as they were. *)
Definition constructs (depth : nat) : Prop :=
  forall d (h : list obj) dt lo,
    reify lo depth h d = Some (TDict dt) ->
    wf_tree (TDict dt) = true ->
    exists h' members,
      new_config depth d h = (Ok (length h), h')
      /\ h `prefix_of` h'
      /\ h' !! length h = Some (OConfig members)
      /\ creify (length h) depth h' (VRef (length h)) = Some (TDict dt).

(** [h'] holds the objects of [h] at the addresses from [lo] up to [hi];
    everything else may have been mutated or added. *)
Definition untouched_between (lo hi : nat) (h h' : list obj) : Prop :=
  forall a, (lo <= a < hi)%nat -> h' !! a = h !! a.

(** The heap after evaluating the literal [{"a": {"b": 1, "c": 2}}], and
    the reference to the outer dictionary. *)
Definition ab_heap : list obj :=
  [ODict [("b", VInt 1); ("c", VInt 2)]; ODict [("a", VRef 0)]].
Definition ab_ref : pyval := VRef 1.

(** *** Reading a [Config] *)

(** [Config.get] *)
Definition get (self : addr) (k : string) (default_value : pyval) : M heap pyval :=
  d <- load_config self ;;
  ret (match dict_get k d with
       | Some v => v
       | None => default_value
       end).

(** [Config.keys]: the keys at the time of the call, in insertion order. *)
Definition keys (self : addr) : M heap (list string) :=
  d <- load_config self ;; ret (d.*1).

(** [c = Config(); c.k1 = v1; ...; c.kn = vn] for literals [v1 .. vn], as
    [default_detection_configs] does. *)
Definition config_of_literals (depth : nat) (assignments : list (string * tree))
  : M heap addr :=
  c <- new_config depth VNone ;;
  mfor (fun kt => v <- build kt.2 ;; setattr depth c kt.1 v) assignments ;;;
  ret c.

(** *** Statements about [parse_from_str] *)

Section EvalTree.
Context `{Runtime}.

(** The value that [eval_str_fn] returns, as plain data. *)
Definition eval_str_tree (val : string) : tree :=
  if PyStr.str_in val ["true"; "false"] then TBool (String.eqb val "true")
  else match literal_eval val with
       | Some t => t
       | None => TStr val
       end.

(** What [add_kv_recursive] makes of a value: a list of the pieces between
    "*" when there is one, the value itself otherwise. *)
Definition value_tree (v : string) : tree :=
  if PyStr.contains_char "*"%char v
  then TList (eval_str_tree <$> PyStr.split "*"%char v)
  else eval_str_tree v.

End EvalTree.

(** The text [k1.k2. ... .kn] and the dictionary [{k1: {k2: ... {kn: t}}}]. *)
Fixpoint dotted (k : string) (ks : list string) : string :=
  match ks with
  | [] => k
  | k' :: ks' => k ++ "." ++ dotted k' ks'
  end.

Definition nested (ks : list string) (t : tree) : tree :=
  foldr (fun k t => TDict [(k, t)]) t ks.

(** The text [k1=v1,k2=v2,...] of a list of pairs. *)
Fixpoint assignments_text (kv : string * string) (kvs : list (string * string)) : string :=
  match kvs with
  | [] => kv.1 ++ "=" ++ kv.2
  | kv' :: kvs' => kv.1 ++ "=" ++ kv.2 ++ "," ++ assignments_text kv' kvs'
  end.

End HParams.

(** ** The other colour augmentations of [helper.py] *)

Module Augment.

Import Hue.
Local Open Scope Q_scope.

(** An image: its channels.  The expressions below act on every entry of
    the array alike. *)
Definition image : Type := list channel.

Definition pointwise (f : Q -> Q) (img : image) : image := map (elementwise f) img.

(** [np.clip(x, a_min, a_max)] on one entry:
    [minimum(a_max, maximum(x, a_min))]. *)
Definition clip (x a_min a_max : Q) : Q :=
  let y := if Qlt_le_dec x a_min then a_min else x in
  if Qlt_le_dec a_max y then a_max else y.

(** [random_saturation] on the saturation channel of the HSV image, for
    the draw [u] of [np.random.random()]. *)
Definition random_saturation (u : Q) (max_shift : Q) (schannel : channel) : channel :=
  let shift := randu u (- max_shift) max_shift in
  elementwise (fun s => clip (s + shift) 0 1) schannel.

(** [random_contrast], for the draw [u] of [np.random.random()]. *)
Definition random_contrast (u : Q) (img : image) (center max_contrast_scale : Q)
  : image :=
  let new_img :=
    pointwise (fun x => (x - center)
                        * (1 + randu u (- max_contrast_scale) max_contrast_scale)
                        + center) img in
  let new_img := pointwise (fun x => clip x 0 1) new_img in
  new_img.

(** [random_shift], for the draw [g] of [np.random.randn()]. *)
Definition random_shift (g : Q) (x_img : image) (shift_stddev : Q) : image :=
  let shift := g * shift_stddev in
  let new_img := pointwise (fun x => clip (x + shift) 0 1) x_img in
  new_img.

(** Every entry of an image satisfies [P]; two images of the same shape
    are related entry by entry. *)
Definition all_entries (P : Q -> Prop) (img : image) : Prop :=
  Forall (all_pixels P) img.

Definition entrywise (R : Q -> Q -> Prop) (a b : image) : Prop :=
  Forall2 (Forall2 (Forall2 R)) a b.

End Augment.

(** ** The report labels of [run_evaluate] *)

Module Evaluate.

(** [sorted(items, key=lambda x: x[1])]: ascending by class index, items
    with equal indices in their original order. *)
Fixpoint insert_by_index (x : string * Z) (l : list (string * Z))
  : list (string * Z) :=
  match l with
  | [] => [x]
  | y :: l' => if (x.2 <=? y.2)%Z then x :: l else y :: insert_by_index x l'
  end.

Definition sorted_by_index (items : list (string * Z)) : list (string * Z) :=
  fold_right insert_by_index [] items.

(** Lines 159-162 of [run_evaluate]: [target_keys_names] after
    [list(zip( *sorted(...)))], as the pair of [target_keys_names[0]] (the
    target names) and [target_keys_names[1]] (the labels).  The transpose
    of no item is the empty list, whose element 1 does not exist. *)
Definition target_keys_names (class_dict : list (string * Z))
  : result (list string * list Z) :=
  match sorted_by_index class_dict with
  | [] => Raise IndexError
  | pairs => Ok (pairs.*1, pairs.*2)
  end.

End Evaluate.

(** ** [release/python/utils/utils.py] *)

Module Packaging.

(** [s == "/" * len(s)] *)
Fixpoint all_slashes (s : string) : bool :=
  match s with
  | EmptyString => true
  | String c s' => Ascii.eqb c "/"%char && all_slashes s'
  end.

(** [s.rstrip("/")] *)
Fixpoint rstrip_slashes (s : string) : string :=
  match s with
  | EmptyString => EmptyString
  | String c s' =>
      let r := rstrip_slashes s' in
      if Ascii.eqb c "/"%char && String.eqb r EmptyString then EmptyString
      else String c r
  end.

(** [os.path.split(p)] on POSIX: the head loses its trailing slashes
    unless it consists of slashes only. *)
Definition split (p : string) : string * string :=
  let i := Z.to_nat (PyStr.rfind "/"%char p + 1) in
  let head := substring 0 i p in
  let tail := substring i (String.length p - i) p in
  let head :=
    if negb (String.eqb head EmptyString) && negb (all_slashes head)
    then rstrip_slashes head else head in
  (head, tail).

(** [up_directory]: [range(n)] is empty for [n <= 0]. *)
Definition up_directory (dir_path : string) (n : Z) : string :=
  Nat.iter (Z.to_nat n) (fun dir_up => (split dir_up).1) dir_path.

(** The loop of [remove_prefix], with [max_path] iterations left. *)
Fixpoint remove_prefix_loop (max_path : nat) (dir_path prefix : string) : string :=
  match max_path with
  | O => dir_path
  | S max_path' =>
      let prefix := (split prefix).1 in
      if PyStr.endswith prefix "ai_infra"
      then substring (String.length prefix + 1)
             (String.length dir_path - (String.length prefix + 1)) dir_path
      else remove_prefix_loop max_path' dir_path prefix
  end.

(** [remove_prefix] *)
Definition remove_prefix (dir_path : string) : string :=
  remove_prefix_loop 8 dir_path dir_path.

(** A path made of a directory and the names below it, joined one by
    one. *)
Definition join_all (dir : string) (names : list string) : string :=
  foldl OsPath.join dir names.

(** A directory path as [os.path.split] returns it: without trailing
    slash, unless it consists of slashes only. *)
Definition normal (d : string) : Prop :=
  all_slashes d = true \/ rstrip_slashes d = d.

(** A file or directory name: not empty, without slash. *)
Definition is_name (c : string) : Prop :=
  c <> "" /\ PyStr.contains_char "/"%char c = false.

End Packaging.

(** ** Integer arithmetic that can fail *)

(** The result of an integer expression: a value, or [ZeroDivisionError]. *)
Inductive arith (A : Type) : Type :=
  | Value (a : A)
  | ZeroDivisionError.
Arguments Value {A} a.
Arguments ZeroDivisionError {A}.

Definition arith_bind {A B} (r : arith A) (k : A -> arith B) : arith B :=
  match r with
  | Value a => k a
  | ZeroDivisionError => ZeroDivisionError
  end.

(** [a // b] and [a % b] on Python integers: the quotient is rounded
    towards minus infinity and the remainder has the sign of [b], as [Z.div]
    and [Z.modulo] have it. *)
Definition floordiv (a b : Z) : arith Z :=
  if (b =? 0)%Z then ZeroDivisionError else Value (a / b)%Z.

Definition pymod (a b : Z) : arith Z :=
  if (b =? 0)%Z then ZeroDivisionError else Value (a mod b)%Z.

(** ** [COCOEvalCallback.on_epoch_end] *)

Module EvalCallback.

(** Whether [on_epoch_end] calls [evaluate]: the condition
    [(epoch + 1) >= self.start_eval_epoch and (epoch + 1) % self.eval_freq == 0],
    whose second part is evaluated only when the first holds. *)
Definition evaluates (start_eval_epoch eval_freq epoch : Z) : arith bool :=
  if (start_eval_epoch <=? epoch + 1)%Z then
    arith_bind (pymod (epoch + 1) eval_freq) (fun r => Value (r =? 0)%Z)
  else Value false.

End EvalCallback.

(** ** The step counts of [run_experiment] in [train.py] *)

Module Train.

(** [steps_per_epoch], lines 51-54 *)
Definition steps_per_epoch (num_examples_per_epoch batch_size world_size : Z)
  : arith Z :=
  floordiv (num_examples_per_epoch + (batch_size * world_size) - 1)
           (batch_size * world_size).

(** [cfg.evaluate.num_samples] after lines 194-196 *)
Definition eval_num_samples (num_samples world_size batch_size : Z) : arith Z :=
  arith_bind (floordiv (num_samples + world_size - 1) world_size)
    (fun num_samples => floordiv (num_samples + batch_size - 1) batch_size).

(** [validation_steps] as given to [trainer.fit], line 212 *)
Definition validation_steps (num_samples world_size batch_size : Z) : arith Z :=
  arith_bind (eval_num_samples num_samples world_size batch_size)
    (fun num_samples => floordiv num_samples batch_size).

End Train.

(** ** File names of [EffCheckpoint.on_epoch_end] *)

Module EffCheckpoint.

(** The decimal digits of a non-negative integer, in front of [acc];
    [fuel] bounds the number of digits. *)
Definition digit_char (d : Z) : ascii := ascii_of_nat (48 + Z.to_nat d).

Fixpoint decimal_from (fuel : nat) (n : Z) (acc : string) : string :=
  match fuel with
  | O => acc
  | S fuel' =>
      let acc' := String (digit_char (n mod 10)) acc in
      if (n / 10 =? 0)%Z then acc' else decimal_from fuel' (n / 10) acc'
  end.

(** [str(n)] for [n >= 0] *)
Definition decimal (n : Z) : string := decimal_from (S (Z.to_nat n)) n EmptyString.

(** [s.zfill(width)] for a string of digits *)
Fixpoint zeros (k : nat) : string :=
  match k with
  | O => EmptyString
  | S k' => String "0"%char (zeros k')
  end.

Definition zfill (width : nat) (s : string) : string :=
  zeros (width - String.length s) ++ s.

(** [f"{z:03d}"]: at least three characters, the sign included, filled
    with zeros after the sign. *)
Definition format_03d (z : Z) : string :=
  if (z <? 0)%Z then "-" ++ zfill 2 (decimal (- z)) else zfill 3 (decimal z).

(** The name of the temporary checkpoint: [f'ckpt-{epoch:03d}'] after
    [epoch += 1]. *)
Definition ckpt_name (epoch : Z) : string :=
  let epoch := (epoch + 1)%Z in
  "ckpt-" ++ format_03d epoch.

(** [eff_filename] and [eff_model_path] for the epoch that Keras passes
    to [on_epoch_end]. *)
Definition eff_filename (model_name : string) (graph_only : bool) (epoch : Z) : string :=
  let epoch := (epoch + 1)%Z in
  if graph_only then model_name ++ ".resume"
  else model_name ++ "_" ++ format_03d epoch ++ ".eff".

Definition eff_model_path (eff_dir model_name : string) (graph_only : bool)
    (epoch : Z) : string :=
  OsPath.join eff_dir (eff_filename model_name graph_only epoch).

End EffCheckpoint.

(** ** [get_model] in [model_builder.py] *)

Module ModelBuilder.

Import PyDict.

Definition SUPPORTED_ARCHS : list string :=
  [ "resnet"; "efficientnet_b0"; "efficientnet_b1";
    "efficientnet_b2"; "efficientnet_b3";
    "efficientnet_b4"; "efficientnet_b5";
    "efficientnet_b6"; "efficientnet_b7" ].

(** [sub in s] for strings *)
Fixpoint str_contains (sub s : string) : bool :=
  String.prefix sub s
  || match s with
     | EmptyString => false
     | String _ s' => str_contains sub s'
     end.

(** [model_choose]: the wrapper function of every architecture, by its
    name. *)
Definition model_choose : list (string * string) :=
  [ ("resnet", "get_resnet");
    ("efficientnet_b0", "get_efficientnet_b0");
    ("efficientnet_b1", "get_efficientnet_b1");
    ("efficientnet_b2", "get_efficientnet_b2");
    ("efficientnet_b3", "get_efficientnet_b3");
    ("efficientnet_b4", "get_efficientnet_b4");
    ("efficientnet_b5", "get_efficientnet_b5");
    ("efficientnet_b6", "get_efficientnet_b6");
    ("efficientnet_b7", "get_efficientnet_b7") ].

Section GetModel.

(** The values of keyword arguments, and the attribute [activation_type]
    of one, where it has it. *)
Context {V : Type}.
Variable activation_type : V -> option V.

(** [kwargs[k]] *)
Definition kwarg (kwargs : list (string * V)) (k : string) : result V :=
  match dict_get k kwargs with
  | Some v => Ok v
  | None => Raise (KeyError k)
  end.

(** [kwa[k] = kwargs[k]] for the keys given, in order. *)
Fixpoint copy_kwargs (kwargs : list (string * V)) (ks : list string)
    (kwa : list (string * V)) : result (list (string * V)) :=
  match ks with
  | [] => Ok kwa
  | k :: ks' =>
      rbind (kwarg kwargs k) (fun v => copy_kwargs kwargs ks' (dict_set k v kwa))
  end.

(** [get_model], up to the call of the wrapper: the wrapper that is
    called and the keyword arguments [kwa] it gets besides those passed
    through. *)
Definition get_model (arch : string) (kwargs : list (string * V))
  : result (string * list (string * V)) :=
  rbind
    (if String.eqb arch "resnet" then
       copy_kwargs kwargs
         ["nlayers"; "use_batch_norm"; "use_pooling"; "freeze_bn"; "use_bias";
          "all_projections"] []
     else if str_contains "efficientnet_b" arch then
       rbind (copy_kwargs kwargs ["use_bias"; "freeze_bn"] [])
         (fun kwa =>
            rbind (kwarg kwargs "activation")
              (fun activation =>
                 match activation_type activation with
                 | Some a => Ok (dict_set "activation_type" a kwa)
                 | None => Raise AttributeError
                 end))
     else Raise (ValueError ("Unsupported architecture: " ++ arch)))
    (fun kwa =>
       match dict_get arch model_choose with
       | Some wrapper => Ok (wrapper, kwa)
       | None => Raise (KeyError arch)
       end).

End GetModel.

End ModelBuilder.

(** * Properties *)

(** Unfolding the monad's operations in a goal. *)
Ltac munfold :=
  unfold bind, ret, raise, get_state, put_state in *.

(** Running the first command of a sequence. *)
Lemma bind_ok {S A B} (m : M S A) (k : A -> M S B) s a s' :
  m s = (Ok a, s') -> bind m k s = k a s'.
Proof. intros E. unfold bind. rewrite E. reflexivity. Qed.

(** ** Classmap validation *)

Module ClassmapFacts.
Import Classmap.

(** The validation of [run_evaluate] on a well-formed classmap. *)
Example classmap_cat_dog :
  load_class_names [("cat", JInt 0); ("dog", JInt 1)] = Ok (Some ["cat"; "dog"]).
Proof. reflexivity. Qed.

(** An index [>= len(class_names)] is rejected with the invalid-data
    error. *)
Example classmap_index_too_large :
  load_class_names [("cat", JInt 5)] = Raise (RuntimeError invalid_data_msg).
Proof. reflexivity. Qed.

(** A [float] index is rejected with the invalid-data error, whatever its
    value. *)
Lemma classmap_float_rejected name f :
  load_class_names [(name, JFloat f)] = Raise (RuntimeError invalid_data_msg).
Proof.
  unfold load_class_names; simpl.
  destruct f as [q| |[]]; try reflexivity.
  unfold index_ok, py_lt_int. destruct Qlt_le_dec; reflexivity.
Qed.

(** A string index makes the comparison itself fail, before
    [isinstance] is consulted. *)
Example classmap_string_index :
  load_class_names [("cat", JStr "0")] = Raise TypeError.
Proof. reflexivity. Qed.

(** A negative index below [-len(class_names)] passes the validation and
    fails in the assignment. *)
Example classmap_index_far_negative :
  load_class_names [("cat", JInt (-3)); ("dog", JInt 0)] = Raise IndexError.
Proof. reflexivity. Qed.

(** The check accepts every integer below the number of classes. *)
Lemma index_ok_int len z :
  index_ok len (JInt z) = Ok (z <? Z.of_nat len)%Z.
Proof. unfold index_ok; simpl. destruct (z <? _)%Z; reflexivity. Qed.

(** A classmap whose indices are all integers. *)
Lemma checks_of_integers (n : nat) (items : list (string * Z)) :
  comprehension (index_ok n) ((integer_classmap items).*2)
  = Ok ((fun nz => (nz.2 <? Z.of_nat n)%Z) <$> items).
Proof.
  induction items as [|[name z] items IH]; [reflexivity|].
  unfold integer_classmap in *. rewrite !fmap_cons. cbn [comprehension snd].
  rewrite index_ok_int. cbn [rbind]. rewrite IH. reflexivity.
Qed.

Lemma all_checks (n : nat) (items : list (string * Z)) :
  forallb id ((fun nz => (nz.2 <? Z.of_nat n)%Z) <$> items) = true
  <-> Forall (fun nz => (nz.2 < Z.of_nat n)%Z) items.
Proof.
  induction items as [|[name z] items IH]; simpl.
  - split; [constructor|reflexivity].
  - rewrite andb_true_iff, Forall_cons, IH. unfold id. simpl. rewrite Z.ltb_lt. tauto.
Qed.

(** The assignments only fail with [IndexError]. *)
Lemma assign_names_integers (items : list (string * Z)) : forall class_names,
  (exists l, assign_names class_names (integer_classmap items) = Ok l
             /\ length l = length class_names)
  \/ assign_names class_names (integer_classmap items) = Raise IndexError.
Proof.
  induction items as [|[name z] items IH]; intros cn; [left; eauto|].
  unfold integer_classmap in *. rewrite fmap_cons. cbn [assign_names assign_name fst snd].
  unfold list_setitem.
  destruct ((0 <=? z) && (z <? Z.of_nat (length cn)))%Z; cbn [rbind].
  - destruct (IH (<[Z.to_nat z := name]> cn)) as [(l & Hl & Hlen)|Herr]; [left|right; exact Herr].
    exists l. rewrite length_insert in Hlen. auto.
  - destruct ((- Z.of_nat (length cn) <=? z) && (z <? 0))%Z; cbn [rbind]; [|right; reflexivity].
    destruct (IH (<[Z.to_nat (Z.of_nat (length cn) + z) := name]> cn))
      as [(l & Hl & Hlen)|Herr]; [left|right; exact Herr].
    exists l. rewrite length_insert in Hlen. auto.
Qed.

(** On integer indices the invalid-data error is raised exactly when some
    index is [>= len(class_names)]: a negative index never raises it. *)
Lemma invalid_data_iff_too_large (items : list (string * Z)) :
  items <> [] ->
  load_class_names (integer_classmap items) = Raise (RuntimeError invalid_data_msg)
  <-> Exists (fun nz => (Z.of_nat (length items) <= nz.2)%Z) items.
Proof.
  intros Hne. unfold load_class_names.
  destruct (integer_classmap items) as [|kv data] eqn:Hdata.
  { destruct items; [congruence|discriminate]. }
  rewrite <- Hdata. clear kv data Hdata.
  rewrite length_replicate, length_fmap.
  assert (Hlen : length (integer_classmap items) = length items)
    by apply length_fmap.
  rewrite Hlen, checks_of_integers. cbn [rbind].
  destruct (forallb id _) eqn:Hall; cbn [negb].
  - apply all_checks in Hall. split.
    + destruct (assign_names_integers items (replicate (length items) ""))
        as [(l & -> & _)| ->]; discriminate.
    + intros Hex. exfalso. apply Exists_exists in Hex as (nz & Hin & Hge).
      rewrite Forall_forall in Hall. specialize (Hall nz Hin). simpl in *. lia.
  - split; [intros _|reflexivity].
    destruct (Forall_Exists_dec
                (fun nz : string * Z => (nz.2 < Z.of_nat (length items))%Z)
                (fun nz : string * Z => (Z.of_nat (length items) <= nz.2)%Z)
                (fun nz => Z_lt_le_dec nz.2 (Z.of_nat (length items))) items)
      as [Hall'|Hex]; [|exact Hex].
    apply all_checks in Hall'. congruence.
Qed.

(** Indices within range: every assignment succeeds, slots that are not
    assigned keep their value, and with distinct indices each name ends up
    at its index. *)
Lemma assign_names_in_range (items : list (string * Z)) : forall class_names,
  Forall (fun nz => (0 <= nz.2 < Z.of_nat (length class_names))%Z) items ->
  exists l,
    assign_names class_names (integer_classmap items) = Ok l
    /\ length l = length class_names
    /\ (forall i, Z.of_nat i ∉ items.*2 -> l !! i = class_names !! i)
    /\ (NoDup (items.*2) ->
        forall name z, (name, z) ∈ items -> l !! Z.to_nat z = Some name).
Proof.
  induction items as [|[name z] items IH]; intros cn Hrange.
  - exists cn. split; [reflexivity|]. split; [reflexivity|]. split; [reflexivity|].
    intros _ name z Hin. apply elem_of_nil in Hin. contradiction.
  - apply Forall_cons in Hrange as [Hz Hrange]. simpl in Hz.
    unfold integer_classmap in *. rewrite fmap_cons.
    cbn [assign_names assign_name fst snd]. unfold list_setitem.
    replace ((0 <=? z) && (z <? Z.of_nat (length cn)))%Z with true
      by (symmetry; apply andb_true_iff; split; [apply Z.leb_le|apply Z.ltb_lt]; lia).
    cbn [rbind].
    destruct (IH (<[Z.to_nat z := name]> cn)) as (l & Hl & Hlen & Hkeep & Hplace).
    { rewrite length_insert. exact Hrange. }
    rewrite length_insert in Hlen.
    exists l. split; [exact Hl|]. split; [exact Hlen|]. split.
    + intros i Hi. rewrite fmap_cons, not_elem_of_cons in Hi. destruct Hi as [Hne Hi].
      rewrite (Hkeep i Hi). apply list_lookup_insert_ne. simpl in Hne. lia.
    + rewrite fmap_cons. intros Hnd name' z' Hin.
      apply NoDup_cons in Hnd as [Hfresh Hnd]. simpl in Hfresh.
      apply elem_of_cons in Hin as [[= -> ->]|Hin]; [|apply Hplace; assumption].
      rewrite Hkeep by (rewrite Z2Nat.id by lia; exact Hfresh).
      apply list_lookup_insert_eq. lia.
Qed.

(** A classmap of distinct integer indices within range builds the list
    with each name at its index. *)
Lemma classmap_valid (items : list (string * Z)) :
  items <> [] ->
  Forall (fun nz => (0 <= nz.2 < Z.of_nat (length items))%Z) items ->
  exists l,
    load_class_names (integer_classmap items) = Ok (Some l)
    /\ length l = length items
    /\ (NoDup (items.*2) ->
        forall name z, (name, z) ∈ items -> l !! Z.to_nat z = Some name).
Proof.
  intros Hne Hrange. unfold load_class_names.
  destruct (integer_classmap items) as [|kv data] eqn:Hdata.
  { destruct items; [congruence|discriminate]. }
  rewrite <- Hdata. clear kv data Hdata.
  rewrite length_replicate, length_fmap.
  assert (Hlen : length (integer_classmap items) = length items)
    by apply length_fmap.
  rewrite Hlen, checks_of_integers. cbn [rbind].
  replace (forallb id _) with true
    by (symmetry; apply all_checks; eapply Forall_impl; [exact Hrange|]; simpl; lia).
  cbn [negb].
  destruct (assign_names_in_range items (replicate (length items) ""))
    as (l & Hl & Hlenl & _ & Hplace).
  { rewrite length_replicate. exact Hrange. }
  rewrite Hl. cbn [rbind]. exists l. rewrite length_replicate in Hlenl. auto.
Qed.

(** C1: the classmap [{"cat": -1, "dog": 0}] has a negative index, and
    [run_evaluate] raises nothing: the validation only tests
    [class_index < len(class_names)], and the assignment
    [class_names[-1] = "cat"] writes the last slot. *)
Theorem classmap_negative_index_accepted :
  load_class_names [("cat", JInt (-1)); ("dog", JInt 0)]
  = Ok (Some ["dog"; "cat"]).
Proof. reflexivity. Qed.

End ClassmapFacts.

(** ** Hue rotation *)

Module HueFacts.
Import Hue.
Local Open Scope Q_scope.

Lemma rotate_hue_pixels delta a :
  rotate_hue delta a = elementwise (rotate_pixel delta) a.
Proof.
  unfold rotate_hue, elementwise, rotate_pixel.
  rewrite !map_map. apply map_ext; intros row.
  rewrite !map_map. reflexivity.
Qed.

Lemma rotate_pixel_wrapped delta h :
  -(360) <= delta <= 360 -> 0 <= h <= 360 ->
  wrapped delta h (rotate_pixel delta h).
Proof.
  intros Hd Hh. unfold wrapped, rotate_pixel, wrap_below, wrap_above.
  destruct (Qlt_le_dec 360 (delta + h)) as [Hgt|Hle].
  - destruct (Qlt_le_dec (delta + h - 360) 0) as [Hlt|Hge].
    + exfalso. lra.
    + repeat split; intros; lra.
  - destruct (Qlt_le_dec (delta + h) 0) as [Hlt|Hge]; repeat split; intros; lra.
Qed.

(** The draw of [randu(-max_delta, max_delta)] stays within the bounds. *)
Lemma randu_bounds u max_delta :
  0 <= u < 1 -> 0 <= max_delta ->
  - max_delta <= randu u (- max_delta) max_delta < max_delta \/ max_delta == 0.
Proof.
  intros Hu Hm. unfold randu.
  destruct (Qlt_le_dec 0 max_delta) as [Hpos|Hz]; [left|right; lra].
  assert (H0 : 0 <= u * max_delta) by (apply Qmult_le_0_compat; lra).
  assert (H1 : u * max_delta < 1 * max_delta)
    by (apply Qmult_lt_compat_r; lra).
  split; lra.
Qed.




(** The same at the level of [random_hue]: with the draw [u] of the
    generator in [0, 1) and [0 <= max_delta <= 360], the result stays in
    the closed interval. *)
Lemma random_hue_closed_range u max_delta (hchannel : channel) :
  0 <= u < 1 -> 0 <= max_delta <= 360 ->
  all_pixels (fun h => 0 <= h <= 360) hchannel ->
  all_pixels (fun y => 0 <= y <= 360) (random_hue u max_delta hchannel).
Proof.
  intros Hu Hm Hin. unfold random_hue.
  assert (Hd : - max_delta <= randu u (- max_delta) max_delta <= max_delta).
  { destruct (randu_bounds u max_delta Hu) as [Hb|Hz]; [lra| lra |].
    unfold randu.
    assert (H0 : u * max_delta == 0) by (rewrite Hz; ring).
    split; lra. }
  rewrite rotate_hue_pixels.
  unfold all_pixels, elementwise in *.
  induction Hin as [|row rows Hrow _ IH]; simpl; constructor; [|exact IH].
  induction Hrow as [|h hs Hh _ IHr]; simpl; constructor; [|exact IHr].
  destruct (rotate_pixel_wrapped (randu u (- max_delta) max_delta) h) as [Hr _];
    [lra | exact Hh | exact Hr].
Qed.

End HueFacts.

(** ** DataSource *)

Module DataSourceFacts.
Import DataSource.

Lemma set_n_same o k : n o = Some k -> set_n k o = o.
Proof. destruct o as [ps ds c]; simpl; intros ->; reflexivity. Qed.

Lemma set_n_set_n j k o : set_n j (set_n k o) = set_n j o.
Proof. reflexivity. Qed.

(** [__next__] on an object whose cursor is within range. *)
Lemma dunder_next_step st self o k p d :
  st !! self = Some o -> n o = Some k ->
  tfrecord_patterns o !! k = Some p -> image_dirs o !! k = Some d ->
  dunder_next self st = (Ok (p, d), <[self := set_n (k + 1) o]> st).
Proof.
  intros Hs Hn Hp Hd. unfold dunder_next, load, getitem. munfold.
  rewrite Hs, Hn.
  assert (Hk : (k < length (tfrecord_patterns o))%nat)
    by (apply lookup_lt_is_Some; eauto).
  apply Nat.ltb_lt in Hk. rewrite Hk, Hp, Hd. reflexivity.
Qed.

(** [__next__] on an object whose cursor is at the end. *)
Lemma dunder_next_stop st self o k :
  st !! self = Some o -> n o = Some k ->
  (length (tfrecord_patterns o) <= k)%nat ->
  dunder_next self st = (Raise StopIteration, st).
Proof.
  intros Hs Hn Hk. unfold dunder_next, load. munfold.
  rewrite Hs, Hn. apply Nat.ltb_ge in Hk. rewrite Hk. reflexivity.
Qed.

(** Draining an iterator whose cursor is at [k] yields the pairs from
    position [k] on and leaves the cursor at the end. *)
Lemma drain_from m : forall budget st self o k,
  st !! self = Some o -> n o = Some k ->
  length (image_dirs o) = length (tfrecord_patterns o) ->
  (k + m = length (tfrecord_patterns o))%nat ->
  (m < budget)%nat ->
  drain budget self st
  = Some (Ok (drop k (zip (tfrecord_patterns o) (image_dirs o))),
          <[self := set_n (length (tfrecord_patterns o)) o]> st).
Proof.
  induction m as [|m IH]; intros budget st self o k Hs Hn Hlen Hk Hb;
    destruct budget as [|budget]; try lia; simpl.
  - rewrite (dunder_next_stop st self o k) by (auto; lia).
    rewrite drop_ge by (rewrite length_zip; lia).
    replace (length (tfrecord_patterns o)) with k by lia.
    rewrite set_n_same by exact Hn. rewrite list_insert_id by exact Hs.
    reflexivity.
  - destruct (lookup_lt_is_Some_2 (tfrecord_patterns o) k) as [p Hp]; [lia|].
    destruct (lookup_lt_is_Some_2 (image_dirs o) k) as [d Hd]; [lia|].
    rewrite (dunder_next_step st self o k p d) by assumption.
    assert (Hself : (self < length st)%nat) by (apply lookup_lt_is_Some; eauto).
    rewrite (IH budget _ self (set_n (k + 1) o) (k + 1)%nat); simpl;
      try assumption; try lia; try reflexivity.
    + rewrite list_insert_insert_eq, Nat.add_1_r.
      rewrite (drop_S _ (p, d) k); [reflexivity|].
      rewrite lookup_zip_with, Hp; simpl. rewrite Hd. reflexivity.
    + rewrite list_lookup_insert_eq by exact Hself. reflexivity.
Qed.

(** [__iter__] on a live object. *)
Lemma dunder_iter_eq st self o :
  st !! self = Some o ->
  dunder_iter self st = (Ok self, <[self := set_n 0 o]> st).
Proof.
  intros Hs. unfold dunder_iter, load. munfold. rewrite Hs. reflexivity.
Qed.

(** [list(ds)] on an object with as many directories as patterns. *)
Lemma to_list_eq budget st self o :
  st !! self = Some o ->
  length (image_dirs o) = length (tfrecord_patterns o) ->
  (length (tfrecord_patterns o) < budget)%nat ->
  to_list budget self st
  = Some (Ok (zip (tfrecord_patterns o) (image_dirs o)),
          <[self := set_n (length (tfrecord_patterns o)) o]> st).
Proof.
  intros Hs Hlen Hb. unfold to_list. rewrite (dunder_iter_eq st self o Hs).
  assert (Hself : (self < length st)%nat) by (apply lookup_lt_is_Some; eauto).
  rewrite (drain_from (length (tfrecord_patterns o)) budget _ self (set_n 0 o) 0);
    simpl; try assumption; try lia; try reflexivity.
  - rewrite list_insert_insert_eq. reflexivity.
  - rewrite list_lookup_insert_eq by exact Hself. reflexivity.
Qed.

(** The constructor on valid arguments. *)
Lemma init_ok patterns dirs st :
  patterns <> [] ->
  dirs = [] \/ length dirs = length patterns ->
  init patterns dirs st
  = (Ok (length st),
     (st ++ [ {| tfrecord_patterns := patterns;
                 image_dirs := effective_dirs patterns dirs;
                 n := None |} ])%list).
Proof.
  intros Hp Hd. unfold init. munfold.
  destruct patterns as [|p ps]; [congruence|].
  destruct Hd as [->|Hd]; [reflexivity|].
  destruct dirs as [|d ds]; [discriminate|].
  simpl in Hd. injection Hd as Hd. simpl.
  rewrite Hd, Nat.eqb_refl. reflexivity.
Qed.

(** C4: a [DataSource] built from [n > 0] patterns and either no directory
    or exactly [n] directories has length [n], and iterating it yields the
    [n] (pattern, directory) pairs in input order, each directory being "/"
    when none was given; zero patterns, or a non-zero number of directories
    different from [n], fail with an assertion error. *)
Theorem datasource_cardinality (patterns dirs : list string) (st : store) :
  (patterns <> [] -> dirs = [] \/ length dirs = length patterns ->
   exists st',
     init patterns dirs st = (Ok (length st), st')
     /\ dunder_len (length st) st' = (Ok (length patterns), st')
     /\ length (zip patterns (effective_dirs patterns dirs)) = length patterns
     /\ (zip patterns (effective_dirs patterns dirs)).*1 = patterns
     /\ (dirs = [] ->
         Forall (fun pd => pd.2 = "/") (zip patterns (effective_dirs patterns dirs)))
     /\ (dirs <> [] -> (zip patterns (effective_dirs patterns dirs)).*2 = dirs)
     /\ forall budget, (length patterns < budget)%nat ->
          exists st'',
            to_list budget (length st) st'
            = Some (Ok (zip patterns (effective_dirs patterns dirs)), st''))
  /\ (patterns = [] ->
      init patterns dirs st = (Raise (AssertionError "Error!"), st))
  /\ (patterns <> [] -> dirs <> [] -> length dirs <> length patterns ->
      init patterns dirs st = (Raise (AssertionError mismatch_msg), st)).
Proof.
  split; [|split].
  - intros Hp Hd.
    set (o := {| tfrecord_patterns := patterns;
                 image_dirs := effective_dirs patterns dirs;
                 n := None |}).
    assert (Hlen : length (effective_dirs patterns dirs) = length patterns).
    { destruct Hd as [->|Hd]; simpl; [apply length_replicate|].
      destruct dirs; [destruct patterns; [congruence|discriminate]|exact Hd]. }
    assert (Hlook : (st ++ [o])%list !! length st = Some o).
    { apply list_lookup_middle. reflexivity. }
    exists (st ++ [o])%list. repeat split.
    + apply init_ok; assumption.
    + unfold dunder_len, load. munfold. rewrite Hlook. reflexivity.
    + rewrite length_zip. lia.
    + apply fst_zip. lia.
    + intros ->. simpl. apply Forall_forall. intros [p d] Hin.
      apply elem_of_zip_r in Hin. simpl in *.
      apply elem_of_replicate in Hin. tauto.
    + intros Hne. destruct dirs as [|d ds]; [congruence|]. simpl.
      apply snd_zip. destruct Hd as [Hd|Hd]; [discriminate|]. rewrite Hd. lia.
    + intros budget Hb. eexists.
      apply (to_list_eq budget _ (length st) o Hlook); simpl; [exact Hlen|exact Hb].
  - intros ->. reflexivity.
  - intros Hp Hne Hlen. unfold init. munfold.
    destruct patterns as [|p ps]; [congruence|].
    destruct dirs as [|d ds]; [congruence|].
    apply Nat.eqb_neq in Hlen. simpl in Hlen. simpl. rewrite Hlen. reflexivity.
Qed.

Lemma datasource_cardinality_witness :
  exists st',
    init ["a-*.tfrecord"; "b-*.tfrecord"] [] [] = (Ok 0%nat, st')
    /\ to_list 3 0 st' = Some (Ok [("a-*.tfrecord", "/"); ("b-*.tfrecord", "/")],
                               [ {| tfrecord_patterns := ["a-*.tfrecord"; "b-*.tfrecord"];
                                    image_dirs := ["/"; "/"];
                                    n := Some 2%nat |} ]).
Proof.
  destruct (datasource_cardinality ["a-*.tfrecord"; "b-*.tfrecord"] [] []) as [H _].
  destruct H as (st' & Hinit & _); [discriminate | left; reflexivity |].
  exists st'. split; [exact Hinit|].
  vm_compute in Hinit. injection Hinit as <-. reflexivity.
Defined.



End DataSourceFacts.

(** ** Inference helpers *)

Module InferenceFacts.
Import Inference.

(** *** [batch_generator] *)

Section Batches.
Context {A : Type}.
Implicit Types (l : list A) (bs ndx : Z).

(** The slice taken at a start inside the list. *)
Lemma batch_slice l bs ndx :
  (1 <= bs)%Z -> (0 <= ndx)%Z ->
  py_slice l ndx (Z.min (ndx + bs) (Z.of_nat (length l)))
  = take (Z.to_nat bs) (drop (Z.to_nat ndx) l).
Proof.
  intros Hbs Hndx. unfold py_slice, slice_bound.
  destruct (Z.ltb_spec ndx 0) as [?|_]; [lia|].
  destruct (Z.ltb_spec (Z.min (ndx + bs) (Z.of_nat (length l))) 0) as [?|_]; [lia|].
  destruct (Z.le_gt_cases (Z.of_nat (length l)) ndx) as [Hout|Hin].
  - rewrite !drop_ge by lia. rewrite !take_nil. reflexivity.
  - replace (Z.to_nat (Z.min ndx (Z.of_nat (length l)))) with (Z.to_nat ndx) by lia.
    destruct (Z.le_gt_cases (ndx + bs) (Z.of_nat (length l))) as [Hfull|Hlast].
    + f_equal. lia.
    + rewrite !take_ge; [reflexivity| |]; rewrite length_drop; lia.
Qed.

(** The values of the range are the multiples of the step below the
    bound. *)
Lemma range_up_lookup budget : forall ndx stop step i x,
  range_up budget ndx stop step !! i = Some x ->
  x = (ndx + Z.of_nat i * step)%Z /\ (x < stop)%Z.
Proof.
  induction budget as [|budget IH]; intros ndx stop step i x; simpl; [discriminate|].
  destruct (Z.ltb_spec ndx stop) as [Hlt|Hge]; [|discriminate].
  destruct i as [|i]; simpl.
  - intros [= <-]. lia.
  - intros Hx. apply IH in Hx. lia.
Qed.

(** The slices of a complete range cover the rest of the list. *)
Lemma concat_batches l bs budget : forall ndx,
  (1 <= bs)%Z -> (0 <= ndx)%Z ->
  (Z.to_nat (Z.of_nat (length l) - ndx) <= budget)%nat ->
  concat ((fun x => py_slice l x (Z.min (x + bs) (Z.of_nat (length l))))
            <$> range_up budget ndx (Z.of_nat (length l)) bs)
  = drop (Z.to_nat ndx) l.
Proof.
  induction budget as [|budget IH]; intros ndx Hbs Hndx Hb; simpl.
  - rewrite drop_ge by lia. reflexivity.
  - destruct (Z.ltb_spec ndx (Z.of_nat (length l))) as [Hlt|Hge]; simpl.
    + rewrite IH by lia. rewrite batch_slice by lia.
      replace (Z.to_nat (ndx + bs)) with (Z.to_nat ndx + Z.to_nat bs)%nat by lia.
      rewrite <- drop_drop. apply take_drop.
    + rewrite drop_ge by lia. reflexivity.
Qed.

(** The batches of a list, for a positive batch size. *)
Lemma batch_generator_spec l bs :
  (1 <= bs)%Z ->
  exists batches,
    batch_generator l bs = Ok batches
    /\ concat batches = l
    /\ forall i b, batches !! i = Some b ->
         b = take (Z.to_nat bs) (drop (i * Z.to_nat bs) l)
         /\ (0 < length b <= Z.to_nat bs)%nat
         /\ ((S i < length batches)%nat -> length b = Z.to_nat bs).
Proof.
  intros Hbs. unfold batch_generator, py_range.
  destruct (Z.eqb_spec bs 0) as [?|_]; [lia|].
  destruct (Z.ltb_spec 0 bs) as [_|?]; [|lia].
  simpl. eexists. split; [reflexivity|]. split.
  - rewrite concat_batches by lia. reflexivity.
  - intros i b Hb.
    assert (Hi : forall j c,
      ((fun x => py_slice l x (Z.min (x + bs) (Z.of_nat (length l))))
         <$> range_up (Z.to_nat (Z.of_nat (length l) - 0)) 0 (Z.of_nat (length l)) bs)
        !! j = Some c ->
      c = take (Z.to_nat bs) (drop (j * Z.to_nat bs) l)
      /\ (j * Z.to_nat bs < length l)%nat).
    { intros j c Hc. rewrite list_lookup_fmap in Hc.
      destruct (range_up _ _ _ _ !! j) as [x|] eqn:Hx; [|discriminate].
      injection Hc as <-. apply range_up_lookup in Hx. destruct Hx as [-> Hlt].
      rewrite batch_slice by lia. split; [f_equal; f_equal|]; nia. }
    destruct (Hi i b Hb) as [-> Hlt]. split; [reflexivity|].
    rewrite length_take, length_drop. split; [lia|].
    intros Hnext. apply lookup_lt_is_Some_2 in Hnext. destruct Hnext as [c Hc].
    apply Hi in Hc. destruct Hc as [_ Hc]. lia.
Qed.

End Batches.

(** C6: with [batch_size >= 1], [batch_generator] yields the consecutive
    slices of the list: the concatenation of the batches is the list, batch
    [i] is the [batch_size] elements from position [i * batch_size] (fewer
    when the list ends before), no batch is empty, and every batch but the
    last has exactly [batch_size] elements.  The list [1, 2, 3, 4, 5] in
    batches of 2 gives [1, 2], [3, 4], [5]. *)
Theorem batch_generator_slices (A : Type) (l : list A) (bs : Z) :
  (1 <= bs)%Z ->
  (exists batches,
     batch_generator l bs = Ok batches
     /\ concat batches = l
     /\ forall i b, batches !! i = Some b ->
          b = take (Z.to_nat bs) (drop (i * Z.to_nat bs) l)
          /\ (0 < length b <= Z.to_nat bs)%nat
          /\ ((S i < length batches)%nat -> length b = Z.to_nat bs))
  /\ batch_generator [1; 2; 3; 4; 5]%Z 2 = Ok [[1; 2]; [3; 4]; [5]]%Z.
Proof.
  intros Hbs. split; [apply batch_generator_spec; exact Hbs | reflexivity].
Qed.

Lemma batch_generator_slices_witness :
  (exists batches,
     batch_generator ["a.jpg"; "b.jpg"; "c.png"] 2 = Ok batches
     /\ concat batches = ["a.jpg"; "b.jpg"; "c.png"]
     /\ forall i b, batches !! i = Some b ->
          b = take (Z.to_nat 2) (drop (i * Z.to_nat 2) ["a.jpg"; "b.jpg"; "c.png"])
          /\ (0 < length b <= Z.to_nat 2)%nat
          /\ ((S i < length batches)%nat -> length b = Z.to_nat 2))
  /\ batch_generator [1; 2; 3; 4; 5]%Z 2 = Ok [[1; 2]; [3; 4]; [5]]%Z.
Proof. apply (batch_generator_slices string ["a.jpg"; "b.jpg"; "c.png"] 2). lia. Defined.

(** A zero batch size makes [range] fail. *)
Example batch_generator_zero :
  batch_generator [1; 2; 3]%Z 0 = Raise (ValueError "range() arg 3 must not be zero").
Proof. reflexivity. Qed.

(** *** [get_label_dict] *)

Lemma length_append_one s c :
  String.length (s ++ String c EmptyString) = S (String.length s).
Proof. induction s as [|a s IH]; simpl; [reflexivity|]. rewrite IH. reflexivity. Qed.

(** [s[:-1]] removes the last character, whatever it is. *)
Lemma drop_last_append s c : PyStr.drop_last (s ++ String c EmptyString) = s.
Proof.
  unfold PyStr.drop_last. rewrite length_append_one. simpl. rewrite Nat.sub_0_r.
  induction s as [|a s IH]; simpl; [reflexivity|]. rewrite IH. reflexivity.
Qed.

(** Looking up a key of an enumeration that starts at [k + 1]. *)
Lemma dict_get_enumerate (f : string -> string) (labels : list string) :
  forall k i,
    PyDict.dict_get (Z.of_nat (k + i) + 1)%Z
      (imap (fun j label => ((Z.of_nat (k + j) + 1)%Z, f label)) labels)
    = f <$> labels !! i.
Proof.
  induction labels as [|x labels IH]; intros k i; [reflexivity|].
  cbn [imap PyDict.dict_get]. destruct i as [|i].
  - rewrite decide_True by reflexivity. reflexivity.
  - rewrite decide_False by lia.
    rewrite (imap_ext _ (fun j label => ((Z.of_nat (S k + j) + 1)%Z, f label)))
      by (intros; simpl; do 2 f_equal; lia).
    replace (k + S i)%nat with (S k + i)%nat by lia. apply IH.
Qed.

(** C7: [get_label_dict] maps [i + 1] to line [i] of the file without its
    last character, in file order starting at 1; the character removed is
    the last one whatever it is, so a final line without a newline loses
    the last character of its label. *)
Theorem get_label_dict_strips_last (text : string) (i : nat) (line : string) :
  PyStr.readlines text !! i = Some line ->
  get_label_dict text !! i = Some ((Z.of_nat i + 1)%Z, PyStr.drop_last line)
  /\ PyDict.dict_get (Z.of_nat i + 1)%Z (get_label_dict text)
     = Some (PyStr.drop_last line)
  /\ length (get_label_dict text) = length (PyStr.readlines text)
  /\ (forall s c, line = s ++ String c EmptyString -> PyStr.drop_last line = s)
  /\ get_label_dict ("cat" ++ String PyStr.newline ("dog" ++ String PyStr.newline ""))
     = [(1%Z, "cat"); (2%Z, "dog")]
  /\ get_label_dict ("cat" ++ String PyStr.newline "dog")
     = [(1%Z, "cat"); (2%Z, "do")].
Proof.
  intros Hline. unfold get_label_dict. repeat split.
  - rewrite list_lookup_imap, Hline. reflexivity.
  - pose proof (dict_get_enumerate PyStr.drop_last (PyStr.readlines text) 0 i) as H.
    simpl in H. rewrite H, Hline. reflexivity.
  - apply length_imap.
  - intros s c ->. apply drop_last_append.
Qed.

Lemma get_label_dict_strips_last_witness :
  PyDict.dict_get 2%Z (get_label_dict ("cat" ++ String PyStr.newline "dog")) = Some "do".
Proof.
  destruct (get_label_dict_strips_last ("cat" ++ String PyStr.newline "dog") 1 "dog"
              eq_refl) as (_ & H & _).
  exact H.
Defined.

(** *** The image filter of [infer_tlt] *)

(** No character is an upper-case letter after [lower]. *)
Lemma lower_char_not_upper c :
  let k := nat_of_ascii (PyStr.lower_char c) in
  ((65 <=? k) && (k <=? 90))%nat = false.
Proof. destruct c as [[] [] [] [] [] [] [] []]; reflexivity. Qed.

(** Membership test and list membership agree. *)
Lemma str_in_spec x l : PyStr.str_in x l = true <-> x ∈ l.
Proof.
  unfold PyStr.str_in. rewrite existsb_exists. split.
  - intros (y & Hy & Heq). apply String.eqb_eq in Heq. subst.
    apply list_elem_of_In. exact Hy.
  - intros Hx. exists x. split; [apply list_elem_of_In; exact Hx|apply String.eqb_refl].
Qed.

(** A lowered string is none of the upper-case entries. *)
Lemma lower_not_uppercase s : PyStr.lower s ∉ uppercase_formats.
Proof.
  unfold uppercase_formats. intros Hin.
  assert (Hc : forall c, PyStr.lower_char c <> "J"%char /\ PyStr.lower_char c <> "P"%char).
  { intros c. pose proof (lower_char_not_upper c) as Hk.
    split; intros E; rewrite E in Hk; discriminate. }
  destruct s as [|c0 [|c1 s]]; simpl in Hin;
    repeat (apply elem_of_cons in Hin; destruct Hin as [Hin|Hin]; [try discriminate|]);
    try (apply elem_of_nil in Hin; contradiction);
    injection Hin as _ E _; destruct (Hc c1) as [HJ HP]; congruence.
Qed.

(** Sorting keeps the members. *)
Lemma elem_of_insert_sorted x y l : y ∈ PyStr.insert_sorted x l <-> y = x \/ y ∈ l.
Proof.
  induction l as [|z l IH]; simpl.
  - rewrite list_elem_of_singleton, elem_of_nil. tauto.
  - destruct (String.leb x z).
    + rewrite elem_of_cons. tauto.
    + rewrite !elem_of_cons, IH. tauto.
Qed.

Lemma elem_of_sorted y l : y ∈ PyStr.sorted l <-> y ∈ l.
Proof.
  unfold PyStr.sorted. induction l as [|x l IH]; simpl; [tauto|].
  rewrite elem_of_insert_sorted, elem_of_cons, IH. tauto.
Qed.

(** C9: a file is selected exactly when the lower-cased extension of its
    name is ".jpg", ".jpeg" or ".png"; the paths passed to the model are the
    selected names of the listing, joined to the directory.  The lower-cased
    extension is never one of the upper-case entries of the allow-list, and
    names that differ only in the case of the extension are treated
    alike. *)
Theorem image_filter_case_insensitive (image_dir : string) (listing : list string) :
  (forall imgname, selected imgname = true <-> lowered_ext imgname ∈ lowercase_formats)
  /\ (forall path,
        path ∈ imgpath_list image_dir listing <->
        exists imgname,
          imgname ∈ listing /\ path = OsPath.join image_dir imgname
          /\ lowered_ext imgname ∈ lowercase_formats)
  /\ (forall imgname, lowered_ext imgname ∉ uppercase_formats)
  /\ (forall a b, lowered_ext a = lowered_ext b -> selected a = selected b)
  /\ selected "photo.Jpg" = true /\ selected "photo.pNg" = true
  /\ selected "photo.JPEG" = true /\ selected "photo.gif" = false
  /\ selected ".png" = false.
Proof.
  assert (Hsel : forall imgname,
             selected imgname = true <-> lowered_ext imgname ∈ lowercase_formats).
  { intros imgname. unfold selected, supported_img_format. rewrite str_in_spec.
    fold (lowered_ext imgname). pose proof (lower_not_uppercase (OsPath.splitext imgname).2) as Hup.
    fold (lowered_ext imgname) in Hup.
    unfold lowercase_formats, uppercase_formats in *.
    rewrite !elem_of_cons, !elem_of_nil in *. tauto. }
  split; [exact Hsel|]. split; [|split; [|split]].
  - intros path. unfold imgpath_list. rewrite list_elem_of_fmap. split.
    + intros (imgname & -> & Hin). apply list_elem_of_filter in Hin.
      destruct Hin as [Hs Hin]. apply (proj1 (elem_of_sorted _ _)) in Hin.
      exists imgname. split; [exact Hin|]. split; [reflexivity|].
      apply Hsel. apply Is_true_true. exact Hs.
    + intros (imgname & Hin & -> & Hext). exists imgname. split; [reflexivity|].
      apply list_elem_of_filter. split.
      * apply Is_true_true, Hsel, Hext.
      * apply elem_of_sorted, Hin.
  - intros imgname. apply lower_not_uppercase.
  - intros a b Hab. unfold selected. fold (lowered_ext a) (lowered_ext b).
    rewrite Hab. reflexivity.
  - repeat split; reflexivity.
Qed.

End InferenceFacts.

(** ** Hyperparameter configuration *)

Module HParamsFacts.
Import HParams PyDict.

(** *** Overriding by a dotted string *)

(** Running [override] on a string with one assignment, whose value the
    runtime evaluates as [Hlit] says. *)
Ltac run_override Hlit :=
  unfold override;
  cbn [String.eqb Ascii.eqb Bool.eqb PyStr.contains_char orb];
  erewrite bind_ok by (vm_compute; rewrite Hlit; vm_compute; reflexivity);
  vm_compute; reflexivity.



(** *** Dictionaries after overrides *)

Lemma dict_get_dict_set {V} (k k' : string) (v : V) d :
  dict_get k (dict_set k' v d) = if decide (k = k') then Some v else dict_get k d.
Proof.
  induction d as [|[k0 v0] d IH]; simpl.
  - destruct (decide (k = k')); reflexivity.
  - destruct (decide (k' = k0)) as [->|Hne]; simpl.
    + destruct (decide (k = k0)); reflexivity.
    + rewrite IH. destruct (decide (k = k0)) as [->|?]; [|reflexivity].
      rewrite decide_False by congruence. reflexivity.
Qed.

(** Keys outside the overriding dictionary keep their value. *)
Lemma dict_get_overridden {V} (k : string) (kwargs : list (string * V)) : forall d,
  dict_get k kwargs = None ->
  dict_get k (foldl (fun acc kv => dict_set kv.1 kv.2 acc) d kwargs) = dict_get k d.
Proof.
  induction kwargs as [|[k' v] kwargs IH]; intros d Hk; simpl in *; [reflexivity|].
  destruct (decide (k = k')) as [->|Hne]; [discriminate|].
  rewrite IH by exact Hk. rewrite dict_get_dict_set, decide_False by exact Hne.
  reflexivity.
Qed.

End HParamsFacts.

(** ** Isolation of a [Config] from the data it was built from *)

Module ConfigIsolation.
Import HParams PyDict.

(** *** Reading through the heap *)

Lemma mapM_keyed (f : pyval -> option tree) items dt :
  mapM (fun kv : string * pyval => pair kv.1 <$> f kv.2) items = Some dt
  <-> Forall2 (keyed (fun v t => f v = Some t)) items dt.
Proof.
  rewrite mapM_Some.
  split; intros HF; (eapply Forall2_impl; [exact HF|]);
    intros [k v] [k' t]; unfold keyed; simpl.
  - rewrite fmap_Some. intros (t' & Ht & [= -> ->]). auto.
  - intros [-> ->]. reflexivity.
Qed.

Lemma keyed_keys P items dt : Forall2 (keyed P) items dt -> dt.*1 = items.*1.
Proof.
  induction 1 as [|[k v] [k' t] items dt [Hk _] _ IH]; [reflexivity|].
  rewrite !fmap_cons. simpl in Hk. f_equal; assumption.
Qed.

Lemma keyed_impl (P Q : pyval -> tree -> Prop) items dt :
  Forall2 (keyed P) items dt -> (forall v t, P v t -> Q v t) ->
  Forall2 (keyed Q) items dt.
Proof.
  intros HF HPQ. eapply Forall2_impl; [exact HF|].
  intros kv kt [Hk Hv]. split; auto.
Qed.

(** Reading a reference: the object is live, not below the bound, and its
    members read one level deeper. *)
Lemma reify_ref lo depth h a t :
  reify lo depth h (VRef a) = Some t <->
  exists depth' o,
    depth = S depth' /\ (lo <= a)%nat /\ h !! a = Some o
    /\ reads_object (fun v t => reify lo depth' h v = Some t) o t.
Proof.
  destruct depth as [|depth']; simpl.
  - split; [destruct (a <? lo)%nat; discriminate|].
    intros (d & o & [=] & _).
  - destruct (Nat.ltb_spec a lo) as [Hlt|Hle].
    { split; [discriminate|]. intros (d & o & _ & Hlo & _). lia. }
    split.
    + intros Hr. exists depth'. destruct (h !! a) as [o|]; [|discriminate].
      exists o. split; [reflexivity|]. split; [exact Hle|]. split; [reflexivity|].
      destruct o as [items|items|d|d]; simpl; try discriminate;
        apply fmap_Some in Hr; destruct Hr as (ts & Hts & ->); exists ts;
        (split; [|reflexivity]).
      * apply mapM_Some; exact Hts.
      * apply mapM_Some; exact Hts.
      * apply mapM_keyed; exact Hts.
    + intros (d & o & [= <-] & _ & -> & Ho).
      destruct o as [items|items|dd|dd]; simpl in Ho; try contradiction;
        destruct Ho as (ts & Hts & ->); apply fmap_Some; exists ts;
        (split; [|reflexivity]).
      * apply mapM_Some; exact Hts.
      * apply mapM_Some; exact Hts.
      * apply mapM_keyed; exact Hts.
Qed.

(** Reading a [Config]. *)
Lemma creify_config lo depth h a d t :
  h !! a = Some (OConfig d) ->
  creify lo depth h (VRef a) = Some t <->
  exists depth' dt,
    depth = S depth' /\ (lo <= a)%nat /\ t = TDict dt
    /\ Forall2 (keyed (fun v t => creify lo depth' h v = Some t)) d dt.
Proof.
  intros Ha. destruct depth as [|depth']; simpl; rewrite Ha.
  - split; [destruct (a <? lo)%nat; discriminate|].
    intros (dd & dt & [=] & _).
  - destruct (Nat.ltb_spec a lo) as [Hlt|Hle].
    { split; [discriminate|]. intros (dd & dt & _ & Hlo & _). lia. }
    rewrite fmap_Some. split.
    + intros (dt & Hdt & ->). exists depth', dt. repeat split; try assumption.
      apply mapM_keyed; exact Hdt.
    + intros (dd & dt & [= <-] & _ & -> & Hdt). exists dt. split; [|reflexivity].
      apply mapM_keyed; exact Hdt.
Qed.

(** Anything else reads as plain data. *)
Lemma creify_plain lo depth h v :
  (forall a d, v = VRef a -> h !! a <> Some (OConfig d)) ->
  creify lo depth h v = reify lo depth h v.
Proof.
  intros Hv. destruct v as [| | | | |a]; try (destruct depth; reflexivity).
  destruct depth; simpl; destruct (h !! a) as [[]|] eqn:Ha; try reflexivity;
    exfalso; eapply Hv; eauto.
Qed.

Lemma reify_creify lo depth h v t :
  reify lo depth h v = Some t -> creify lo depth h v = Some t.
Proof.
  intros Hr. rewrite creify_plain; [exact Hr|].
  intros a d -> Ha. apply reify_ref in Hr.
  destruct Hr as (depth' & o & _ & _ & Ho & Hread). rewrite Ha in Ho.
  injection Ho as <-. exact Hread.
Qed.

Lemma reads_object_impl (P Q : pyval -> tree -> Prop) o t :
  reads_object P o t -> (forall v t, P v t -> Q v t) -> reads_object Q o t.
Proof.
  intros Hr HPQ. destruct o as [items|items|d|d]; simpl in *; try contradiction;
    destruct Hr as (ts & Hts & ->); exists ts; (split; [|reflexivity]).
  - eapply Forall2_impl; [exact Hts|]. auto.
  - eapply Forall2_impl; [exact Hts|]. auto.
  - eapply keyed_impl; [exact Hts|]. auto.
Qed.

(** Heaps that agree on the live objects from [lo] on read alike, and the
    bound can be lowered. *)
Lemma reify_frame lo lo' h h' :
  (lo' <= lo)%nat ->
  (forall a o, (lo <= a)%nat -> h !! a = Some o -> h' !! a = Some o) ->
  forall depth v t, reify lo depth h v = Some t -> reify lo' depth h' v = Some t.
Proof.
  intros Hlo Hagree depth. induction depth as [|depth IH]; intros v t;
    (destruct v as [| | | | |a]; [exact (fun H => H)..|]); rewrite !reify_ref.
  - intros (d & o & [=] & _).
  - intros (d & o & [= <-] & Ha & Ho & Hread).
    exists depth, o. split; [reflexivity|]. split; [lia|].
    split; [apply Hagree; assumption|].
    eapply reads_object_impl; [exact Hread|]. exact IH.
Qed.

Lemma creify_frame lo lo' h h' :
  (lo' <= lo)%nat ->
  (forall a o, (lo <= a)%nat -> h !! a = Some o -> h' !! a = Some o) ->
  forall depth v t, creify lo depth h v = Some t -> creify lo' depth h' v = Some t.
Proof.
  intros Hlo Hagree depth.
  assert (Hplain : forall depth v t,
             reify lo depth h v = Some t -> creify lo' depth h' v = Some t).
  { intros d v t Hr. apply reify_creify. eapply reify_frame; eauto. }
  induction depth as [|depth IH]; intros v t Hc.
  - destruct v as [| | | | |a]; try exact Hc.
    destruct (h !! a) as [[]|] eqn:Ha;
      try (rewrite creify_plain in Hc by (intros ? ? [= <-]; congruence);
           apply Hplain; exact Hc).
    apply (creify_config _ _ _ _ _ _ Ha) in Hc.
    destruct Hc as (d' & dt & [=] & _).
  - destruct v as [| | | | |a]; try exact Hc.
    destruct (h !! a) as [[items|items|d|d]|] eqn:Ha;
      try (rewrite creify_plain in Hc by (intros ? ? [= <-]; congruence);
           apply Hplain; exact Hc).
    apply (creify_config _ _ _ _ _ _ Ha) in Hc.
    destruct Hc as (d' & dt & [= <-] & Hle & -> & Hdt).
    assert (Hle' : (lo <= a)%nat) by exact Hle.
    apply (creify_config lo' (S depth) h' a d); [apply Hagree; assumption|].
    exists depth, dt. repeat split; try lia.
    eapply keyed_impl; [exact Hdt|]. exact IH.
Qed.

(** A longer heap reads alike. *)
Lemma reify_prefix lo lo' depth h h' v t :
  (lo' <= lo)%nat -> h `prefix_of` h' ->
  reify lo depth h v = Some t -> reify lo' depth h' v = Some t.
Proof.
  intros Hlo Hp. apply reify_frame; [exact Hlo|].
  intros a o _ Ha. eapply prefix_lookup_Some; eauto.
Qed.

Lemma creify_prefix lo lo' depth h h' v t :
  (lo' <= lo)%nat -> h `prefix_of` h' ->
  creify lo depth h v = Some t -> creify lo' depth h' v = Some t.
Proof.
  intros Hlo Hp. apply creify_frame; [exact Hlo|].
  intros a o _ Ha. eapply prefix_lookup_Some; eauto.
Qed.

(** Writing below the bound is not seen. *)
Lemma reify_insert lo depth h c o v t :
  (c < lo)%nat -> reify lo depth h v = Some t -> reify lo depth (<[c := o]> h) v = Some t.
Proof.
  intros Hc. apply reify_frame; [lia|]. intros a o' Ha Hl.
  rewrite list_lookup_insert_ne by lia. exact Hl.
Qed.

Lemma creify_insert lo depth h c o v t :
  (c < lo)%nat -> creify lo depth h v = Some t -> creify lo depth (<[c := o]> h) v = Some t.
Proof.
  intros Hc. apply creify_frame; [lia|]. intros a o' Ha Hl.
  rewrite list_lookup_insert_ne by lia. exact Hl.
Qed.

(** A heap keeps its prefix when an object beyond the prefix is written. *)
Lemma prefix_insert_beyond (h0 h : list obj) c o :
  h0 `prefix_of` h -> (length h0 <= c)%nat -> h0 `prefix_of` <[c := o]> h.
Proof.
  intros [k ->] Hc. rewrite insert_app_r_alt by exact Hc. apply prefix_app_r. reflexivity.
Qed.

(** *** Running the commands *)

Lemma load_ok (h : list obj) a o : h !! a = Some o -> load a h = (Ok o, h).
Proof. intros Ha. unfold load. rewrite Ha. reflexivity. Qed.

Lemma load_config_ok (h : list obj) a d :
  h !! a = Some (OConfig d) -> load_config a h = (Ok d, h).
Proof.
  intros Ha. unfold load_config. rewrite (bind_ok _ _ _ _ _ (load_ok h a _ Ha)).
  reflexivity.
Qed.

Lemma lookup_alloc (h : list obj) o : (h ++ [o])%list !! length h = Some o.
Proof. apply list_lookup_middle. reflexivity. Qed.

Lemma prefix_alloc (h : list obj) o : h `prefix_of` (h ++ [o])%list.
Proof. apply prefix_app_r. reflexivity. Qed.

(** A scalar reads the same everywhere. *)
Lemma reify_scalar_any lo lo' depth depth' (h h' : list obj) v :
  (forall a, v <> VRef a) -> reify lo depth h v = reify lo' depth' h' v.
Proof. destruct depth, depth', v; intros Hv; try reflexivity; congruence. Qed.

(** *** [deepcopy] makes a fresh copy with the same contents *)

Lemma mmap_deepcopy depth : copies depth ->
  forall items ts (h : list obj) lo,
    Forall2 (fun v t => reify lo depth h v = Some t) items ts ->
    exists vs h',
      mmap (deepcopy depth) items h = (Ok vs, h')
      /\ h `prefix_of` h'
      /\ Forall2 (fun v t => reify (length h) depth h' v = Some t) vs ts.
Proof.
  intros Hcopy items. induction items as [|x items IH]; intros ts h lo HF.
  - apply Forall2_nil_inv_l in HF as ->. exists [], h. split; [reflexivity|]. split; [reflexivity|constructor].
  - apply Forall2_cons_inv_l in HF as (y & ts' & Hx & HF & ->).
    destruct (Hcopy x h y lo Hx) as (v' & h1 & Hrun & Hp1 & Hv').
    destruct (IH ts' h1 lo) as (vs & h2 & Hruns & Hp2 & Hvs).
    { eapply Forall2_impl; [exact HF|]. intros v t. apply reify_prefix; [lia|exact Hp1]. }
    exists (v' :: vs), h2. split; [|split].
    + cbn [mmap]. rewrite (bind_ok _ _ _ _ _ Hrun), (bind_ok _ _ _ _ _ Hruns).
      reflexivity.
    + etrans; eassumption.
    + constructor.
      * eapply reify_prefix; [|exact Hp2|exact Hv']. lia.
      * eapply Forall2_impl; [exact Hvs|]. intros v t.
        apply reify_prefix; [apply prefix_length; exact Hp1|reflexivity].
Qed.

Lemma mmap_deepcopy_items depth : copies depth ->
  forall items ts (h : list obj) lo,
    Forall2 (keyed (fun v t => reify lo depth h v = Some t)) items ts ->
    exists kvs h',
      mmap (fun kv : string * pyval => v' <- deepcopy depth kv.2 ;; ret (kv.1, v'))
        items h = (Ok kvs, h')
      /\ h `prefix_of` h'
      /\ Forall2 (keyed (fun v t => reify (length h) depth h' v = Some t)) kvs ts.
Proof.
  intros Hcopy items. induction items as [|[k x] items IH]; intros ts h lo HF.
  - apply Forall2_nil_inv_l in HF as ->. exists [], h. split; [reflexivity|]. split; [reflexivity|constructor].
  - apply Forall2_cons_inv_l in HF as ([k' y] & ts' & [Hk Hx] & HF & ->).
    simpl in Hk, Hx. subst k'.
    destruct (Hcopy x h y lo Hx) as (v' & h1 & Hrun & Hp1 & Hv').
    destruct (IH ts' h1 lo) as (kvs & h2 & Hruns & Hp2 & Hvs).
    { eapply keyed_impl; [exact HF|]. intros v t. apply reify_prefix; [lia|exact Hp1]. }
    exists ((k, v') :: kvs), h2. split; [|split].
    + cbn [mmap]. cbn [fst snd].
      rewrite (bind_ok _ _ _ _ _ (bind_ok _ _ _ _ _ Hrun)).
      unfold ret at 1. rewrite (bind_ok _ _ _ _ _ Hruns). reflexivity.
    + etrans; eassumption.
    + constructor.
      * split; [reflexivity|]. simpl.
        eapply reify_prefix; [|exact Hp2|exact Hv']. lia.
      * eapply keyed_impl; [exact Hvs|]. intros v t.
        apply reify_prefix; [apply prefix_length; exact Hp1|reflexivity].
Qed.

(** Entering a new object whose members read. *)
Lemma reify_alloc lo depth (h : list obj) o t :
  (lo <= length h)%nat ->
  reads_object (fun v t => reify lo depth h v = Some t) o t ->
  reify lo (S depth) (h ++ [o])%list (VRef (length h)) = Some t.
Proof.
  intros Hlo Hread. apply reify_ref. exists depth, o.
  split; [reflexivity|]. split; [exact Hlo|]. split; [apply lookup_alloc|].
  eapply reads_object_impl; [exact Hread|]. intros v t'.
  apply reify_prefix; [lia|apply prefix_alloc].
Qed.

Lemma deepcopy_copies depth : copies depth.
Proof.
  induction depth as [|depth IH]; intros v h t lo Hr.
  - destruct v as [| | | | |a];
      try (do 2 eexists; split; [reflexivity|]; split; [reflexivity|];
           rewrite <- Hr; apply reify_scalar_any; congruence).
    apply reify_ref in Hr. destruct Hr as (d & o & [=] & _).
  - destruct v as [| | | | |a];
      try (do 2 eexists; split; [reflexivity|]; split; [reflexivity|];
           rewrite <- Hr; apply reify_scalar_any; congruence).
    apply reify_ref in Hr. destruct Hr as (d & o & [= <-] & Hlo & Ha & Hread).
    cbn [deepcopy]. rewrite (bind_ok _ _ _ _ _ (load_ok h a o Ha)).
    destruct o as [items|items|dd|dd]; simpl in Hread; try contradiction;
      destruct Hread as (ts & Hts & ->).
    + destruct (mmap_deepcopy depth IH items ts h lo Hts) as (vs & h1 & Hrun & Hp & Hvs).
      exists (VRef (length h1)), (h1 ++ [OList vs])%list.
      split; [rewrite (bind_ok _ _ _ _ _ Hrun); reflexivity|].
      split; [etrans; [exact Hp|apply prefix_alloc]|].
      apply reify_alloc; [apply prefix_length; exact Hp|]. exists ts. split; auto.
    + destruct (mmap_deepcopy depth IH items ts h lo Hts) as (vs & h1 & Hrun & Hp & Hvs).
      exists (VRef (length h1)), (h1 ++ [OTuple vs])%list.
      split; [rewrite (bind_ok _ _ _ _ _ Hrun); reflexivity|].
      split; [etrans; [exact Hp|apply prefix_alloc]|].
      apply reify_alloc; [apply prefix_length; exact Hp|]. exists ts. split; auto.
    + destruct (mmap_deepcopy_items depth IH dd ts h lo Hts) as (vs & h1 & Hrun & Hp & Hvs).
      exists (VRef (length h1)), (h1 ++ [ODict vs])%list.
      split; [rewrite (bind_ok _ _ _ _ _ Hrun); reflexivity|].
      split; [etrans; [exact Hp|apply prefix_alloc]|].
      apply reify_alloc; [apply prefix_length; exact Hp|]. exists ts. split; auto.
Qed.

(** *** Dictionaries with distinct keys *)

Lemma dict_get_absent {V} (k : string) (d : list (string * V)) :
  k ∉ d.*1 -> dict_get k d = None.
Proof.
  induction d as [|[k' v] d IH]; [reflexivity|].
  rewrite fmap_cons, not_elem_of_cons. simpl. intros [Hne Hk].
  rewrite decide_False by exact Hne. apply IH. exact Hk.
Qed.

Lemma dict_set_absent {V} (k : string) (v : V) (d : list (string * V)) :
  k ∉ d.*1 -> dict_set k v d = (d ++ [(k, v)])%list.
Proof.
  induction d as [|[k' v'] d IH]; [reflexivity|].
  rewrite fmap_cons, not_elem_of_cons. simpl. intros [Hne Hk].
  rewrite decide_False by exact Hne. rewrite IH by exact Hk. reflexivity.
Qed.

Lemma wf_tree_dict dt :
  wf_tree (TDict dt) = true ->
  NoDup (dt.*1) /\ Forall (fun kt => wf_tree kt.2 = true) dt.
Proof.
  simpl. rewrite andb_true_iff, bool_decide_eq_true, forallb_forall.
  intros [Hnd Hall]. split; [exact Hnd|].
  apply Forall_forall. intros kt Hin. apply Hall. apply list_elem_of_In. exact Hin.
Qed.

(** *** Type tests *)

Lemma as_config_config (h : list obj) a d :
  h !! a = Some (OConfig d) -> as_config (VRef a) h = (Ok (Some a), h).
Proof.
  intros Ha. unfold as_config. rewrite (bind_ok _ _ _ _ _ (load_ok h a _ Ha)).
  reflexivity.
Qed.

(** A value that reads as plain data is no [Config]. *)
Lemma as_config_plain lo depth (h : list obj) v t :
  reify lo depth h v = Some t -> as_config v h = (Ok None, h).
Proof.
  destruct v as [| | | | |a]; try reflexivity.
  intros Hr. apply reify_ref in Hr. destruct Hr as (d & o & _ & _ & Ha & Hread).
  unfold as_config. rewrite (bind_ok _ _ _ _ _ (load_ok h a o Ha)).
  destruct o; simpl in Hread; try contradiction; reflexivity.
Qed.

(** A member of a [Config] is a nested [Config] or plain data. *)
Lemma creify_cases lo depth (h : list obj) v t :
  creify lo depth h v = Some t ->
  (exists a d, v = VRef a /\ h !! a = Some (OConfig d))
  \/ reify lo depth h v = Some t.
Proof.
  intros Hc. destruct v as [| | | | |a];
    try (right; rewrite <- Hc; symmetry; apply creify_plain; discriminate).
  destruct (h !! a) as [[items|items|d|d]|] eqn:Ha;
    try (right; rewrite <- Hc; symmetry; apply creify_plain;
         intros ? ? [= <-]; congruence).
  left. eauto.
Qed.

(** *** [as_dict] makes a fresh dictionary with the contents of the
    [Config] *)

Lemma dict_setitem_new (h : list obj) r k v done :
  h !! r = Some (ODict done) -> k ∉ done.*1 ->
  dict_setitem r k v h = (Ok tt, <[r := ODict (done ++ [(k, v)])]> h).
Proof.
  intros Hr Hk. unfold dict_setitem.
  rewrite (bind_ok _ _ _ _ _ (load_ok h r _ Hr)), dict_set_absent by exact Hk.
  reflexivity.
Qed.

Section AsDictLoop.
Variables (n : nat) (h : list obj) (lo : nat).
Hypothesis IH : exports n.

(** One member: its value is exported or copied into fresh objects. *)
Lemma as_dict_member hcur v t :
  h `prefix_of` hcur ->
  creify lo n h v = Some t -> wf_tree t = true ->
  exists c v' h2,
    as_config v hcur = (Ok c, hcur)
    /\ match c with
       | Some sub => as_dict n sub
       | None => deepcopy n v
       end hcur = (Ok v', h2)
    /\ hcur `prefix_of` h2
    /\ reify (length hcur) n h2 v' = Some t.
Proof.
  intros Hp Hc Hwf. apply (creify_prefix lo lo n h hcur) in Hc; [|lia|exact Hp].
  destruct (creify_cases _ _ _ _ _ Hc) as [(a & d & -> & Ha)|Hr].
  - destruct (IH a hcur d t lo Ha Hc Hwf) as (h2 & Hrun & Hp2 & Hread).
    exists (Some a), (VRef (length hcur)), h2.
    split; [exact (as_config_config hcur a d Ha)|auto].
  - destruct (deepcopy_copies n v hcur t lo Hr) as (v' & h2 & Hrun & Hp2 & Hread).
    exists None, v', h2.
    split; [exact (as_config_plain lo n hcur v t Hr)|auto].
Qed.

Lemma as_dict_loop (r : nat) : r = length h ->
  forall rest dt_rest done done_t hcur,
    h `prefix_of` hcur ->
    hcur !! r = Some (ODict done) ->
    Forall2 (keyed (fun v t => reify (S r) n hcur v = Some t)) done done_t ->
    Forall2 (keyed (fun v t => creify lo n h v = Some t)) rest dt_rest ->
    NoDup (done.*1 ++ rest.*1) ->
    Forall (fun kt => wf_tree kt.2 = true) dt_rest ->
    exists h' final,
      mfor (fun kv : string * pyval =>
              c <- as_config kv.2 ;;
              v' <- match c with
                    | Some sub => as_dict n sub
                    | None => deepcopy n kv.2
                    end ;;
              dict_setitem r kv.1 v') rest hcur = (Ok tt, h')
      /\ h `prefix_of` h'
      /\ h' !! r = Some (ODict final)
      /\ Forall2 (keyed (fun v t => reify (S r) n h' v = Some t)) final (done_t ++ dt_rest).
Proof.
  intros Hr rest. induction rest as [|[k v] rest IHrest];
    intros dt_rest done done_t hcur Hp Hlook Hdone Hrest Hnd Hwf.
  - apply Forall2_nil_inv_l in Hrest as ->. exists hcur, done.
    rewrite app_nil_r. auto.
  - apply Forall2_cons_inv_l in Hrest as ([k' t] & dt' & [Hk Hv] & Hrest & ->).
    simpl in Hk, Hv. subst k'.
    apply Forall_cons in Hwf as [Hwft Hwf]. simpl in Hwft.
    assert (Hfresh : k ∉ done.*1).
    { apply NoDup_app in Hnd as (_ & Hdisj & _). intros Hin.
      apply (Hdisj k Hin). rewrite fmap_cons. apply elem_of_cons. auto. }
    assert (Hrlt : (r < length hcur)%nat) by (eapply lookup_lt_Some; exact Hlook).
    destruct (as_dict_member hcur v t Hp Hv Hwft)
      as (cfg & v' & h2 & Hcfg & Hrun & Hp2 & Hv').
    assert (Hlook2 : h2 !! r = Some (ODict done))
      by (eapply prefix_lookup_Some; eassumption).
    assert (Hrlt2 : (r < length h2)%nat) by (eapply lookup_lt_Some; exact Hlook2).
    destruct (IHrest dt' (done ++ [(k, v')])%list (done_t ++ [(k, t)])%list
                (<[r := ODict (done ++ [(k, v')])]> h2)) as (h' & final & Hloop & Hp' & Hl' & Hf').
    + apply prefix_insert_beyond; [etrans; eassumption|lia].
    + apply list_lookup_insert_eq. exact Hrlt2.
    + apply Forall2_app.
      * eapply keyed_impl; [exact Hdone|]. intros v0 t0 H0.
        apply reify_insert; [lia|]. eapply reify_prefix; [|exact Hp2|exact H0]. lia.
      * constructor; [|constructor]. split; [reflexivity|]. simpl.
        eapply reify_frame; [| |exact Hv']; [lia|].
        intros a o Ha Hl. rewrite list_lookup_insert_ne by lia. exact Hl.
    + exact Hrest.
    + rewrite fmap_app, <- app_assoc. exact Hnd.
    + exact Hwf.
    + exists h', final. split; [|split; [exact Hp'|split; [exact Hl'|]]].
      * cbn [mfor fst snd].
        assert (Hbody :
          (c <- as_config v ;;
           v'0 <- match c with
                  | Some sub => as_dict n sub
                  | None => deepcopy n v
                  end ;;
           dict_setitem r k v'0) hcur
          = (Ok tt, <[r := ODict (done ++ [(k, v')])]> h2)).
        { rewrite (bind_ok _ _ _ _ _ Hcfg), (bind_ok _ _ _ _ _ Hrun).
          apply dict_setitem_new; assumption. }
        rewrite (bind_ok _ _ _ _ _ Hbody). exact Hloop.
      * rewrite <- app_assoc in Hf'. exact Hf'.
Qed.

End AsDictLoop.

Lemma as_dict_exports depth : exports depth.
Proof.
  induction depth as [|n IH]; intros c h d t lo Hc Hread Hwf;
    apply (creify_config _ _ _ _ _ _ Hc) in Hread;
    destruct Hread as (n' & dt & Hn & Hlo & -> & Hdt); [discriminate|].
  injection Hn as <-.
  apply wf_tree_dict in Hwf as [Hnd Hwf].
  assert (Hc0 : (h ++ [ODict []])%list !! c = Some (OConfig d))
    by (eapply prefix_lookup_Some; [exact Hc|apply prefix_alloc]).
  destruct (as_dict_loop n h lo IH (length h) eq_refl d dt [] []
              (h ++ [ODict []])%list) as (h' & final & Hloop & Hp' & Hl' & Hf').
  - apply prefix_alloc.
  - apply lookup_alloc.
  - constructor.
  - exact Hdt.
  - rewrite (keyed_keys _ _ _ Hdt) in Hnd. exact Hnd.
  - exact Hwf.
  - exists h'. split; [|split; [exact Hp'|]].
    + cbn [as_dict]. unfold alloc at 1.
      unfold bind at 1. rewrite (bind_ok _ _ _ _ _ (load_config_ok _ c d Hc0)).
      rewrite (bind_ok _ _ _ _ _ Hloop). reflexivity.
    + apply reify_ref. exists n, (ODict final).
      split; [reflexivity|]. split; [lia|]. split; [exact Hl'|].
      exists dt. split; [|reflexivity].
      eapply keyed_impl; [exact Hf'|]. intros v t.
      apply reify_frame; [lia|auto].
Qed.

(** *** [Config(d)] makes a fresh [Config] with the contents of [d] *)

(** A value that reads as plain data is a dictionary exactly when it reads
    as one. *)
Lemma is_dict_reads lo depth (h : list obj) v t :
  reify lo depth h v = Some t ->
  is_dict v h = (Ok (match t with TDict _ => true | _ => false end), h).
Proof.
  destruct v as [| | | | |a];
    try (destruct depth; intros [= <-]; reflexivity).
  intros Hr. apply reify_ref in Hr. destruct Hr as (d & o & _ & _ & Ha & Hread).
  unfold is_dict. rewrite (bind_ok _ _ _ _ _ (load_ok h a o Ha)).
  destruct o; simpl in Hread; try contradiction;
    destruct Hread as (ts & _ & ->); reflexivity.
Qed.

Lemma config_setitem_new (h : list obj) c k v members :
  h !! c = Some (OConfig members) -> k ∉ members.*1 ->
  config_setitem c k v h = (Ok tt, <[c := OConfig (members ++ [(k, v)])]> h).
Proof.
  intros Hc Hk. unfold config_setitem.
  rewrite (bind_ok _ _ _ _ _ (load_config_ok h c _ Hc)), dict_set_absent by exact Hk.
  reflexivity.
Qed.

Section UpdateLoop.
Variables (n : nat) (h : list obj) (lo : nat).
Hypothesis IH : constructs n.

(** Setting a new attribute: a dictionary becomes a nested [Config], any
    other value is copied. *)
Lemma setattr_new c hcur k v t members :
  h `prefix_of` hcur ->
  hcur !! c = Some (OConfig members) -> k ∉ members.*1 ->
  reify lo n h v = Some t -> wf_tree t = true ->
  exists v' h2,
    setattr_with (fun c v => _update n c v true) (deepcopy n) c k v hcur
    = (Ok tt, <[c := OConfig (members ++ [(k, v')])]> h2)
    /\ hcur `prefix_of` h2
    /\ creify (length hcur) n h2 v' = Some t.
Proof.
  intros Hp Hc Hk Hr Hwf.
  apply (reify_prefix lo lo n h hcur) in Hr; [|lia|exact Hp].
  unfold setattr_with. rewrite (bind_ok _ _ _ _ _ (is_dict_reads lo n hcur v t Hr)).
  assert (Hvalue : exists v' h2,
    (if match t with TDict _ => true | _ => false end
     then c0 <- new_config_with (fun c v => _update n c v true) v ;; ret (VRef c0)
     else deepcopy n v) hcur = (Ok v', h2)
    /\ hcur `prefix_of` h2
    /\ creify (length hcur) n h2 v' = Some t).
  { destruct (deepcopy_copies n v hcur t lo Hr) as (v' & h2 & Hrun & Hp2 & Hread).
    destruct t as [| | | | | | |dt];
      try (exists v', h2; split; [exact Hrun|]; split; [exact Hp2|];
           apply reify_creify; exact Hread).
    destruct (IH v hcur dt lo Hr Hwf) as (h3 & ms & Hnew & Hp3 & _ & Hread3).
    exists (VRef (length hcur)), h3. split; [|auto].
    unfold new_config, update in Hnew. rewrite (bind_ok _ _ _ _ _ Hnew). reflexivity. }
  destruct Hvalue as (v' & h2 & Hrun & Hp2 & Hread).
  exists v', h2. split; [|auto].
  rewrite (bind_ok _ _ _ _ _ Hrun). apply config_setitem_new; [|exact Hk].
  eapply prefix_lookup_Some; eassumption.
Qed.

Lemma update_loop (c : nat) (body : string * pyval -> M (list obj) unit) :
  c = length h ->
  (forall kv hcur members,
     hcur !! c = Some (OConfig members) -> kv.1 ∉ members.*1 ->
     body kv hcur
     = setattr_with (fun c v => _update n c v true) (deepcopy n) c kv.1 kv.2 hcur) ->
  forall rest dt_rest members done_t hcur,
    h `prefix_of` hcur ->
    hcur !! c = Some (OConfig members) ->
    Forall2 (keyed (fun v t => creify (S c) n hcur v = Some t)) members done_t ->
    Forall2 (keyed (fun v t => reify lo n h v = Some t)) rest dt_rest ->
    NoDup (members.*1 ++ rest.*1) ->
    Forall (fun kt => wf_tree kt.2 = true) dt_rest ->
    exists h' final,
      mfor body rest hcur = (Ok tt, h')
      /\ h `prefix_of` h'
      /\ h' !! c = Some (OConfig final)
      /\ Forall2 (keyed (fun v t => creify (S c) n h' v = Some t)) final (done_t ++ dt_rest).
Proof.
  intros Hc Hbody rest. induction rest as [|[k v] rest IHrest];
    intros dt_rest members done_t hcur Hp Hlook Hdone Hrest Hnd Hwf.
  - apply Forall2_nil_inv_l in Hrest as ->. exists hcur, members.
    rewrite app_nil_r. auto.
  - apply Forall2_cons_inv_l in Hrest as ([k' t] & dt' & [Hk Hv] & Hrest & ->).
    simpl in Hk, Hv. subst k'.
    apply Forall_cons in Hwf as [Hwft Hwf]. simpl in Hwft.
    assert (Hfresh : k ∉ members.*1).
    { apply NoDup_app in Hnd as (_ & Hdisj & _). intros Hin.
      apply (Hdisj k Hin). rewrite fmap_cons. apply elem_of_cons. auto. }
    assert (Hclt : (c < length hcur)%nat) by (eapply lookup_lt_Some; exact Hlook).
    destruct (setattr_new c hcur k v t members Hp Hlook Hfresh Hv Hwft)
      as (v' & h2 & Hrun & Hp2 & Hv').
    assert (Hclt2 : (c < length h2)%nat)
      by (apply prefix_length in Hp2; lia).
    destruct (IHrest dt' (members ++ [(k, v')])%list (done_t ++ [(k, t)])%list
                (<[c := OConfig (members ++ [(k, v')])]> h2))
      as (h' & final & Hloop & Hp' & Hl' & Hf').
    + apply prefix_insert_beyond; [etrans; eassumption|lia].
    + apply list_lookup_insert_eq. exact Hclt2.
    + apply Forall2_app.
      * eapply keyed_impl; [exact Hdone|]. intros v0 t0 H0.
        apply creify_insert; [lia|]. eapply creify_prefix; [|exact Hp2|exact H0]. lia.
      * constructor; [|constructor]. split; [reflexivity|]. simpl.
        eapply creify_frame; [| |exact Hv']; [lia|].
        intros a o Ha Hl. rewrite list_lookup_insert_ne by lia. exact Hl.
    + exact Hrest.
    + rewrite fmap_app, <- app_assoc. exact Hnd.
    + exact Hwf.
    + exists h', final. split; [|split; [exact Hp'|split; [exact Hl'|]]].
      * cbn [mfor].
        assert (Hstep : body (k, v) hcur
                        = (Ok tt, <[c := OConfig (members ++ [(k, v')])]> h2)).
        { rewrite (Hbody (k, v) hcur members Hlook Hfresh). exact Hrun. }
        rewrite (bind_ok _ _ _ _ _ Hstep). exact Hloop.
      * rewrite <- app_assoc in Hf'. exact Hf'.
Qed.

End UpdateLoop.

Lemma new_config_constructs depth : constructs depth.
Proof.
  induction depth as [|n IH]; intros d h dt lo Hread Hwf;
    (destruct d as [| | | | |a]; [discriminate Hread..|]);
    apply reify_ref in Hread;
    destruct Hread as (n' & o & Hn & Hlo & Ha & Hobj); [discriminate|].
  injection Hn as <-.
  destruct o as [items|items|items|items]; simpl in Hobj; try contradiction;
    destruct Hobj as (ts & Hts & Ht); try discriminate.
  injection Ht as <-.
  apply wf_tree_dict in Hwf as [Hnd Hwf].
  set (c := length h). set (h0 := (h ++ [OConfig []])%list).
  assert (Ha0 : h0 !! a = Some (ODict items))
    by (eapply prefix_lookup_Some; [exact Ha|apply prefix_alloc]).
  assert (Hfinish : forall h' final,
    h `prefix_of` h' -> h' !! c = Some (OConfig final) ->
    Forall2 (keyed (fun v t => creify (S c) n h' v = Some t)) final dt ->
    creify c (S n) h' (VRef c) = Some (TDict dt)).
  { intros h' final Hp' Hl' Hf'. apply (creify_config _ _ _ _ _ _ Hl').
    exists n, dt. split; [reflexivity|]. split; [lia|]. split; [reflexivity|].
    eapply keyed_impl; [exact Hf'|]. intros v t. apply creify_frame; [lia|auto]. }
  assert (Htruthy : truthy (VRef a) h0 = (Ok (negb (Nat.eqb (length items) 0)), h0)).
  { unfold truthy. rewrite (bind_ok _ _ _ _ _ (load_ok h0 a _ Ha0)). reflexivity. }
  assert (Hupd : exists h' final,
    _update (S n) c (VRef a) true h0 = (Ok tt, h')
    /\ h `prefix_of` h'
    /\ h' !! c = Some (OConfig final)
    /\ Forall2 (keyed (fun v t => creify (S c) n h' v = Some t)) final dt).
  { destruct items as [|item items].
    - apply Forall2_nil_inv_l in Hts as ->. exists h0, [].
      split; [|split; [apply prefix_alloc|split; [apply lookup_alloc|constructor]]].
      cbn [_update]. rewrite (bind_ok _ _ _ _ _ Htruthy). reflexivity.
    - eassert (Hunfold : _update (S n) c (VRef a) true h0
                         = mfor _ (item :: items) h0).
      { cbn [_update]. rewrite (bind_ok _ _ _ _ _ Htruthy).
        cbn [length Nat.eqb negb]. unfold load_dict.
        rewrite (bind_ok _ _ _ _ _ (bind_ok _ _ _ _ _ (load_ok h0 a _ Ha0))).
        reflexivity. }
      rewrite Hunfold.
      match type of Hunfold with
      | _ = mfor ?body _ _ =>
          apply (update_loop n h lo IH c body eq_refl) with
            (members := @nil (string * pyval)) (done_t := @nil (string * tree))
      end.
      + intros kv hcur members Hl Hk. cbn beta zeta.
        rewrite (bind_ok _ _ _ _ _ (load_config_ok hcur c members Hl)).
        rewrite dict_get_absent by exact Hk. reflexivity.
      + apply prefix_alloc.
      + apply lookup_alloc.
      + constructor.
      + exact Hts.
      + rewrite (keyed_keys _ _ _ Hts) in Hnd. exact Hnd.
      + exact Hwf. }
  destruct Hupd as (h' & final & Hrun & Hp' & Hl' & Hf').
  exists h', final. split; [|split; [exact Hp'|split; [exact Hl'|]]].
  - unfold new_config, new_config_with, update.
    unfold alloc at 1. unfold bind at 1. fold c h0.
    rewrite (bind_ok _ _ _ _ _ Hrun). reflexivity.
  - apply (Hfinish h' final); assumption.
Qed.

(** *** The round trip and the isolation *)

(** Reading a [Config] back on any heap that still holds the objects the
    constructor made. *)
Lemma as_dict_after_mutation depth (h h1 h' : list obj) c members dt :
  (length h <= c)%nat ->
  h1 !! c = Some (OConfig members) ->
  creify (length h) depth h1 (VRef c) = Some (TDict dt) ->
  wf_tree (TDict dt) = true ->
  untouched_between (length h) (length h1) h1 h' ->
  exists h2,
    as_dict depth c h' = (Ok (VRef (length h')), h2)
    /\ h' `prefix_of` h2
    /\ (length h1 <= length h')%nat
    /\ reify (length h') depth h2 (VRef (length h')) = Some (TDict dt).
Proof.
  intros Hc Hl Hread Hwf Hsame.
  assert (Hagree : forall a o, (length h <= a)%nat -> h1 !! a = Some o -> h' !! a = Some o).
  { intros a o Ha Ho. rewrite Hsame; [exact Ho|].
    split; [exact Ha|]. eapply lookup_lt_Some; exact Ho. }
  assert (Hlen : (length h1 <= length h')%nat).
  { destruct (decide (length h1 <= length h')%nat) as [|Hgt]; [assumption|exfalso].
    assert (Hlt : (c < length h1)%nat) by (eapply lookup_lt_Some; exact Hl).
    destruct (lookup_lt_is_Some_2 h1 (length h1 - 1)) as [o Ho]; [lia|].
    apply Hagree in Ho; [|lia]. apply lookup_lt_Some in Ho. lia. }
  destruct (as_dict_exports depth c h' members (TDict dt) (length h))
    as (h2 & Hrun & Hp & Hback); auto.
  - eapply creify_frame; [| |exact Hread]; [lia|exact Hagree].
  - exists h2. auto.
Qed.



(** The isolation on a run: after [Config(d)], the assignment
    [d["a"]["b"] = 99] and, on the dictionary [r1] returned by [as_dict],
    the assignment [r1["a"] = 0] change [d] and [r1], and a second
    [as_dict] still returns the original contents. *)
Example mutations_do_not_reach_config :
  ((c <- new_config 2 ab_ref ;;
    dict_setitem 0 "b" (VInt 99) ;;;
    r1 <- as_dict 2 c ;;
    match r1 with
    | VRef a1 => dict_setitem a1 "a" (VInt 0)
    | _ => raise TypeError
    end ;;;
    r2 <- as_dict 2 c ;;
    h <- get_state ;;
    ret (reify 0 2 h ab_ref, reify 0 2 h r1, reify 0 2 h r2)) ab_heap).1
  = Ok (Some (TDict [("a", TDict [("b", TInt 99); ("c", TInt 2)])]),
        Some (TDict [("a", TInt 0)]),
        Some ab_example).
Proof. vm_compute. reflexivity. Qed.

End ConfigIsolation.

(** ** [get_detection_config] *)

Module DetectionConfig.
Import HParams PyDict HParamsFacts ConfigIsolation.

(** *** Reading deeper *)

Lemma reify_deeper lo (h : list obj) : forall depth depth' v t,
  (depth <= depth')%nat ->
  reify lo depth h v = Some t -> reify lo depth' h v = Some t.
Proof.
  induction depth as [|depth IH]; intros depth' v t Hle;
    (destruct v as [| | | | |a];
     [intros <-; apply reify_scalar_any; discriminate..|]); rewrite !reify_ref.
  - intros (d & o & [=] & _).
  - intros (d & o & [= <-] & Ha & Ho & Hread).
    destruct depth' as [|depth']; [lia|].
    exists depth', o. repeat (split; [auto|]).
    eapply reads_object_impl; [exact Hread|]. intros v t'. apply IH. lia.
Qed.

Lemma creify_deeper lo (h : list obj) : forall depth depth' v t,
  (depth <= depth')%nat ->
  creify lo depth h v = Some t -> creify lo depth' h v = Some t.
Proof.
  induction depth as [|depth IH]; intros depth' v t Hle Hc;
    destruct (creify_cases _ _ _ _ _ Hc) as [(a & d & -> & Ha)|Hr];
    try (apply reify_creify; eapply reify_deeper; eassumption).
  - apply (creify_config _ _ _ _ _ _ Ha) in Hc. destruct Hc as (n & dt & [=] & _).
  - apply (creify_config _ _ _ _ _ _ Ha) in Hc.
    destruct Hc as (n & dt & [= <-] & Hlo & -> & Hdt).
    destruct depth' as [|depth']; [lia|].
    apply (creify_config _ _ _ _ _ _ Ha). exists depth', dt.
    repeat (split; [auto|]).
    eapply keyed_impl; [exact Hdt|]. intros v t'. apply IH. lia.
Qed.

(** *** Evaluating a literal *)

Lemma tree_nested_ind (P : tree -> Prop) :
  P TNone -> (forall b, P (TBool b)) -> (forall z, P (TInt z)) ->
  (forall q, P (TFloat q)) -> (forall s, P (TStr s)) ->
  (forall items, Forall P items -> P (TList items)) ->
  (forall items, Forall P items -> P (TTuple items)) ->
  (forall d, Forall (fun kt => P kt.2) d -> P (TDict d)) ->
  forall t, P t.
Proof.
  intros HN HB HI HF HS HL HT HD.
  fix IH 1. intros [| b | z | q | s | items | items | d];
    [exact HN | apply HB | apply HI | apply HF | apply HS | | | ].
  - apply HL. induction items as [|t items IHitems]; constructor; [apply IH|exact IHitems].
  - apply HT. induction items as [|t items IHitems]; constructor; [apply IH|exact IHitems].
  - apply HD. induction d as [|[k t] d IHd]; constructor; [apply IH|exact IHd].
Qed.

Lemma tree_depth_member (t : tree) items :
  t ∈ items -> (tree_depth t <= foldr (fun t acc => Nat.max (tree_depth t) acc) O items)%nat.
Proof.
  induction items as [|t' items IH]; intros Hin; [apply elem_of_nil in Hin; contradiction|].
  simpl. apply elem_of_cons in Hin as [->|Hin]; [lia|]. specialize (IH Hin). lia.
Qed.

Lemma tree_depth_item (kt : string * tree) d :
  kt ∈ d -> (tree_depth kt.2 <= foldr (fun kt acc => Nat.max (tree_depth kt.2) acc) O d)%nat.
Proof.
  induction d as [|kt' d IH]; intros Hin; [apply elem_of_nil in Hin; contradiction|].
  simpl. apply elem_of_cons in Hin as [->|Hin]; [lia|]. specialize (IH Hin). lia.
Qed.

(** The items of a list or tuple literal, evaluated from left to right. *)
Lemma build_items_read (items : list tree) (m : nat) :
  Forall (fun t => forall h : list obj, exists v h',
            build t h = (Ok v, h')
            /\ h `prefix_of` h'
            /\ reify (length h) (tree_depth t) h' v = Some t) items ->
  (forall t, t ∈ items -> (tree_depth t <= m)%nat) ->
  forall h : list obj, exists vs h',
    mmap build items h = (Ok vs, h')
    /\ h `prefix_of` h'
    /\ Forall2 (fun v t => reify (length h) m h' v = Some t) vs items.
Proof.
  intros IH. induction IH as [|t items Ht _ IHitems]; intros Hm h.
  - exists [], h. split; [reflexivity|]. split; [reflexivity|constructor].
  - destruct (Ht h) as (v & h1 & Hrun & Hp1 & Hv).
    destruct (IHitems (fun t' Hin => Hm t' (list_elem_of_further _ _ _ Hin)) h1)
      as (vs & h2 & Hruns & Hp2 & Hvs).
    exists (v :: vs), h2. split; [|split; [etrans; eassumption|]].
    + cbn [mmap]. rewrite (bind_ok _ _ _ _ _ Hrun), (bind_ok _ _ _ _ _ Hruns).
      reflexivity.
    + constructor.
      * eapply (reify_prefix (length h) (length h)); [lia|exact Hp2|].
        eapply reify_deeper; [|exact Hv]. apply Hm. apply list_elem_of_here.
      * eapply Forall2_impl; [exact Hvs|]. intros v' t'.
        apply reify_prefix; [apply prefix_length; exact Hp1|reflexivity].
Qed.

(** A literal evaluates to a value that reads as the literal through the
    objects it makes. *)
Lemma build_reads (t : tree) : forall h : list obj,
  exists v h',
    build t h = (Ok v, h')
    /\ h `prefix_of` h'
    /\ reify (length h) (tree_depth t) h' v = Some t.
Proof.
  induction t as [| b | z | q | s | items IH | items IH | d IH] using tree_nested_ind;
    intros h; try (do 2 eexists; split; [reflexivity|]; split; reflexivity).
  - destruct (build_items_read items _ IH (fun t => tree_depth_member t items) h)
      as (vs & h1 & Hrun & Hp & Hvs).
    exists (VRef (length h1)), (h1 ++ [OList vs])%list.
    split; [cbn [build]; rewrite (bind_ok _ _ _ _ _ Hrun); reflexivity|].
    split; [etrans; [exact Hp|apply prefix_alloc]|].
    cbn [tree_depth]. apply reify_alloc; [apply prefix_length; exact Hp|].
    exists items. split; [exact Hvs|reflexivity].
  - destruct (build_items_read items _ IH (fun t => tree_depth_member t items) h)
      as (vs & h1 & Hrun & Hp & Hvs).
    exists (VRef (length h1)), (h1 ++ [OTuple vs])%list.
    split; [cbn [build]; rewrite (bind_ok _ _ _ _ _ Hrun); reflexivity|].
    split; [etrans; [exact Hp|apply prefix_alloc]|].
    cbn [tree_depth]. apply reify_alloc; [apply prefix_length; exact Hp|].
    exists items. split; [exact Hvs|reflexivity].
  - assert (Hitems : forall h : list obj, exists kvs h',
      mmap (fun kt : string * tree => v <- build kt.2 ;; ret (kt.1, v)) d h = (Ok kvs, h')
      /\ h `prefix_of` h'
      /\ Forall2 (keyed (fun v t => reify (length h)
                     (foldr (fun kt acc => Nat.max (tree_depth kt.2) acc) O d) h' v
                   = Some t)) kvs d).
    { clear h. pose proof (tree_depth_item) as Hdepth.
      specialize (fun kt => Hdepth kt d). revert Hdepth.
      generalize (foldr (fun kt acc => Nat.max (tree_depth kt.2) acc) O d) as m.
      intros m. induction IH as [|[k t] d Ht _ IHd]; intros Hm h.
      - exists [], h. split; [reflexivity|]. split; [reflexivity|constructor].
      - simpl in Ht. destruct (Ht h) as (v & h1 & Hrun & Hp1 & Hv).
        destruct (IHd (fun t' Hin => Hm t' (list_elem_of_further _ _ _ Hin)) h1)
          as (kvs & h2 & Hruns & Hp2 & Hvs).
        exists ((k, v) :: kvs), h2. split; [|split; [etrans; eassumption|]].
        + cbn [mmap fst snd].
          rewrite (bind_ok _ _ _ _ _ (bind_ok _ _ _ _ _ Hrun)).
          unfold ret at 1. rewrite (bind_ok _ _ _ _ _ Hruns). reflexivity.
        + constructor.
          * split; [reflexivity|]. simpl.
            eapply (reify_prefix (length h) (length h)); [lia|exact Hp2|].
            eapply reify_deeper; [|exact Hv].
            apply (Hm (k, t)). apply list_elem_of_here.
          * eapply keyed_impl; [exact Hvs|]. intros v' t'.
            apply reify_prefix; [apply prefix_length; exact Hp1|reflexivity]. }
    destruct (Hitems h) as (kvs & h1 & Hrun & Hp & Hvs).
    exists (VRef (length h1)), (h1 ++ [ODict kvs])%list.
    split; [cbn [build]; rewrite (bind_ok _ _ _ _ _ Hrun); reflexivity|].
    split; [etrans; [exact Hp|apply prefix_alloc]|].
    cbn [tree_depth]. apply reify_alloc; [apply prefix_length; exact Hp|].
    exists d. split; [exact Hvs|reflexivity].
Qed.

(** *** Attribute assignment *)

Lemma config_setitem_run (h : list obj) c k v members :
  h !! c = Some (OConfig members) ->
  config_setitem c k v h = (Ok tt, <[c := OConfig (dict_set k v members)]> h).
Proof.
  intros Hc. unfold config_setitem.
  rewrite (bind_ok _ _ _ _ _ (load_config_ok h c _ Hc)). reflexivity.
Qed.

(** [self.k = v] for a value that reads as [t]: the attribute holds a fresh
    value that reads as [t]. *)
Lemma setattr_sets n (hcur : list obj) c k v t members lo :
  hcur !! c = Some (OConfig members) ->
  reify lo n hcur v = Some t -> wf_tree t = true ->
  exists v' h2,
    setattr n c k v hcur = (Ok tt, <[c := OConfig (dict_set k v' members)]> h2)
    /\ hcur `prefix_of` h2
    /\ creify (length hcur) n h2 v' = Some t.
Proof.
  intros Hc Hr Hwf. unfold setattr, setattr_with.
  rewrite (bind_ok _ _ _ _ _ (is_dict_reads lo n hcur v t Hr)).
  assert (Hvalue : exists v' h2,
    (if match t with TDict _ => true | _ => false end
     then c0 <- new_config_with (update n) v ;; ret (VRef c0)
     else deepcopy n v) hcur = (Ok v', h2)
    /\ hcur `prefix_of` h2
    /\ creify (length hcur) n h2 v' = Some t).
  { destruct (deepcopy_copies n v hcur t lo Hr) as (v' & h2 & Hrun & Hp2 & Hread).
    destruct t as [| | | | | | |dt];
      try (exists v', h2; split; [exact Hrun|]; split; [exact Hp2|];
           apply reify_creify; exact Hread).
    destruct (new_config_constructs n v hcur dt lo Hr Hwf)
      as (h3 & ms & Hnew & Hp3 & _ & Hread3).
    exists (VRef (length hcur)), h3. split; [|auto].
    unfold new_config in Hnew. rewrite (bind_ok _ _ _ _ _ Hnew). reflexivity. }
  destruct Hvalue as (v' & h2 & Hrun & Hp2 & Hread).
  exists v', h2. split; [|auto].
  rewrite (bind_ok _ _ _ _ _ Hrun). apply config_setitem_run.
  eapply prefix_lookup_Some; eassumption.
Qed.

(** *** The assignments of literals to new attributes *)

Lemma literal_ok_spec depth t :
  literal_ok depth t = true -> (tree_depth t <= depth)%nat /\ wf_tree t = true.
Proof.
  unfold literal_ok. rewrite andb_true_iff, Nat.leb_le. tauto.
Qed.

Lemma assign_literals depth (h0 : list obj) c : (length h0 <= c)%nat ->
  forall assignments members done_t (hcur : list obj),
    h0 `prefix_of` hcur ->
    hcur !! c = Some (OConfig members) ->
    Forall2 (keyed (fun v t => creify (S c) depth hcur v = Some t)) members done_t ->
    NoDup (members.*1 ++ assignments.*1) ->
    Forall (fun kt => literal_ok depth kt.2 = true) assignments ->
    exists h' final,
      mfor (fun kt : string * tree => v <- build kt.2 ;; setattr depth c kt.1 v)
        assignments hcur = (Ok tt, h')
      /\ h0 `prefix_of` h'
      /\ h' !! c = Some (OConfig final)
      /\ Forall2 (keyed (fun v t => creify (S c) depth h' v = Some t)) final
           (done_t ++ assignments).
Proof.
  intros Hc assignments. induction assignments as [|[k t] rest IH];
    intros members done_t hcur Hp Hlook Hdone Hnd Hok.
  - exists hcur, members. rewrite app_nil_r. auto.
  - apply Forall_cons in Hok as [Hokt Hok]. simpl in Hokt.
    apply literal_ok_spec in Hokt as [Hdepth Hwf].
    assert (Hfresh : k ∉ members.*1).
    { apply NoDup_app in Hnd as (_ & Hdisj & _). intros Hin.
      apply (Hdisj k Hin). rewrite fmap_cons. apply elem_of_cons. auto. }
    assert (Hclt : (c < length hcur)%nat) by (eapply lookup_lt_Some; exact Hlook).
    destruct (build_reads t hcur) as (v & hb & Hbuild & Hpb & Hv).
    apply (reify_deeper _ _ _ depth) in Hv; [|exact Hdepth].
    assert (Hlookb : hb !! c = Some (OConfig members))
      by (eapply prefix_lookup_Some; eassumption).
    destruct (setattr_sets depth hb c k v t members _ Hlookb Hv Hwf)
      as (v' & h2 & Hrun & Hp2 & Hv').
    rewrite dict_set_absent in Hrun by exact Hfresh.
    assert (Hclt2 : (c < length h2)%nat)
      by (apply prefix_length in Hp2, Hpb; lia).
    destruct (IH (members ++ [(k, v')])%list (done_t ++ [(k, t)])%list
                (<[c := OConfig (members ++ [(k, v')])]> h2))
      as (h' & final & Hloop & Hp' & Hl' & Hf').
    + apply prefix_insert_beyond; [|exact Hc].
      etrans; [exact Hp|]. etrans; [exact Hpb|exact Hp2].
    + apply list_lookup_insert_eq. exact Hclt2.
    + apply Forall2_app.
      * eapply keyed_impl; [exact Hdone|]. intros v0 t0 H0.
        apply creify_insert; [lia|].
        eapply (creify_prefix (S c) (S c)); [lia| |exact H0].
        etrans; [exact Hpb|exact Hp2].
      * constructor; [|constructor]. split; [reflexivity|]. simpl.
        eapply (creify_frame (length hb) (S c)); [| |exact Hv'].
        -- apply prefix_length in Hpb. lia.
        -- intros a o Ha Hl. apply prefix_length in Hpb.
           rewrite list_lookup_insert_ne by lia. exact Hl.
    + rewrite fmap_app, <- app_assoc. exact Hnd.
    + exact Hok.
    + exists h', final. split; [|split; [exact Hp'|split; [exact Hl'|]]].
      * cbn [mfor fst snd].
        assert (Hstep : (v0 <- build t ;; setattr depth c k v0) hcur
                        = (Ok tt, <[c := OConfig (members ++ [(k, v')])]> h2)).
        { rewrite (bind_ok _ _ _ _ _ Hbuild). exact Hrun. }
        rewrite (bind_ok _ _ _ _ _ Hstep). exact Hloop.
      * rewrite <- app_assoc in Hf'. exact Hf'.
Qed.

(** [default_detection_configs] on any heap: a new [Config] whose
    attributes read as the literals assigned. *)
Lemma default_detection_configs_run `{Runtime} depth (h : list obj) :
  (2 <= depth)%nat ->
  exists h' members,
    default_detection_configs depth h = (Ok (length h), h')
    /\ h `prefix_of` h'
    /\ h' !! length h = Some (OConfig members)
    /\ Forall2 (keyed (fun v t => creify (S (length h)) depth h' v = Some t))
         members default_assignments.
Proof.
  intros Hdepth.
  destruct (assign_literals depth h (length h) (le_n _) default_assignments [] []
              (h ++ [OConfig []])%list)
    as (h' & final & Hloop & Hp' & Hl' & Hf').
  - apply prefix_alloc.
  - apply lookup_alloc.
  - constructor.
  - apply (bool_decide_unpack _). vm_compute. exact I.
  - apply Forall_forall. intros kt Hin.
    assert (Hall : forallb (fun kt : string * tree => literal_ok 2 kt.2) default_assignments
                   = true) by (vm_compute; reflexivity).
    rewrite forallb_forall in Hall. apply list_elem_of_In in Hin.
    specialize (Hall kt Hin). apply literal_ok_spec in Hall as [Hd Hwf].
    unfold literal_ok. apply andb_true_iff. split; [apply Nat.leb_le; lia|exact Hwf].
  - exists h', final. split; [|auto].
    destruct depth as [|depth]; [lia|].
    assert (Hnew : new_config (S depth) VNone h
                   = (Ok (length h), (h ++ [OConfig []])%list)) by reflexivity.
    unfold default_detection_configs.
    rewrite (bind_ok _ _ _ _ _ Hnew), (bind_ok _ _ _ _ _ Hloop). reflexivity.
Qed.
(** *** Overriding attributes that exist *)

Lemma keyed_dict_get (P : pyval -> tree -> Prop) members dt k t :
  Forall2 (keyed P) members dt -> dict_get k dt = Some t ->
  exists v, dict_get k members = Some v /\ P v t.
Proof.
  induction 1 as [|[k1 v1] [k2 t2] members dt [Hk Hv] _ IH]; [discriminate|].
  simpl in Hk, Hv. subst k2. simpl.
  destruct (decide (k = k1)); [intros [= <-]; eauto|exact IH].
Qed.

Lemma keyed_dict_set (P : pyval -> tree -> Prop) members dt k v t :
  Forall2 (keyed P) members dt -> P v t ->
  Forall2 (keyed P) (dict_set k v members) (dict_set k t dt).
Proof.
  intros HF Hv. induction HF as [|[k1 v1] [k2 t2] members dt [Hk Hv1] HF IH].
  - repeat constructor. exact Hv.
  - simpl in Hk, Hv1. subst k2. simpl.
    destruct (decide (k = k1)); constructor; try assumption; split; auto.
Qed.

(** A member that does not read as a dictionary is no [Config]. *)
Lemma as_config_not_dict lo depth (h : list obj) v t :
  creify lo depth h v = Some t -> not_dict t = true ->
  as_config v h = (Ok None, h).
Proof.
  intros Hc Ht. destruct (creify_cases _ _ _ _ _ Hc) as [(a & d & -> & Ha)|Hr].
  - apply (creify_config _ _ _ _ _ _ Ha) in Hc.
    destruct Hc as (n & dt & _ & _ & -> & _). discriminate.
  - eapply as_config_plain; exact Hr.
Qed.

Lemma override_loop n (h0 : list obj) c (body : string * pyval -> M (list obj) unit) :
  (length h0 <= c)%nat ->
  (forall kv (hcur : list obj) members cur b,
     hcur !! c = Some (OConfig members) ->
     dict_get kv.1 members = Some cur ->
     as_config cur hcur = (Ok None, hcur) ->
     is_dict kv.2 hcur = (Ok b, hcur) ->
     as_config kv.2 hcur = (Ok None, hcur) ->
     body kv hcur = setattr n c kv.1 kv.2 hcur) ->
  forall rest dt_rest members done_t (hcur : list obj),
    h0 `prefix_of` hcur ->
    hcur !! c = Some (OConfig members) ->
    Forall2 (keyed (fun v t => creify (S c) (S n) hcur v = Some t)) members done_t ->
    Forall2 (keyed (fun v t => reify (S c) n hcur v = Some t)) rest dt_rest ->
    NoDup (rest.*1) ->
    Forall (fun kt => wf_tree kt.2 = true
                      /\ exists t_cur, dict_get kt.1 done_t = Some t_cur
                                       /\ not_dict t_cur = true) dt_rest ->
    exists h' final,
      mfor body rest hcur = (Ok tt, h')
      /\ h0 `prefix_of` h'
      /\ h' !! c = Some (OConfig final)
      /\ Forall2 (keyed (fun v t => creify (S c) (S n) h' v = Some t)) final
           (overridden done_t dt_rest).
Proof.
  intros Hc Hbody rest. induction rest as [|[k v] rest IH];
    intros dt_rest members done_t hcur Hp Hlook Hdone Hrest Hnd Hok.
  - apply Forall2_nil_inv_l in Hrest as ->. exists hcur, members. auto.
  - apply Forall2_cons_inv_l in Hrest as ([k' t] & dt' & [Hk Hv] & Hrest & ->).
    simpl in Hk, Hv. subst k'.
    apply Forall_cons in Hok as [(Hwf & t_cur & Hcur & Hnd_cur) Hok]. simpl in Hwf, Hcur.
    rewrite fmap_cons in Hnd. apply NoDup_cons in Hnd as [Hfresh Hnd]. simpl in Hfresh.
    destruct (keyed_dict_get _ _ _ _ _ Hdone Hcur) as (cur & Hget & Hcur_read).
    assert (Hclt : (c < length hcur)%nat) by (eapply lookup_lt_Some; exact Hlook).
    destruct (setattr_sets n hcur c k v t members _ Hlook Hv Hwf)
      as (v' & h2 & Hrun & Hp2 & Hv').
    assert (Hclt2 : (c < length h2)%nat) by (apply prefix_length in Hp2; lia).
    destruct (IH dt' (dict_set k v' members) (dict_set k t done_t)
                (<[c := OConfig (dict_set k v' members)]> h2))
      as (h' & final & Hloop & Hp' & Hl' & Hf').
    + apply prefix_insert_beyond; [|exact Hc]. etrans; [exact Hp|exact Hp2].
    + apply list_lookup_insert_eq. exact Hclt2.
    + apply keyed_dict_set.
      * eapply keyed_impl; [exact Hdone|]. intros v0 t0 H0.
        apply creify_insert; [lia|].
        eapply (creify_prefix (S c) (S c)); [lia|exact Hp2|exact H0].
      * apply (creify_deeper _ _ n); [lia|].
        eapply (creify_frame (length hcur) (S c)); [| |exact Hv']; [lia|].
        intros a o Ha Hl. rewrite list_lookup_insert_ne by lia. exact Hl.
    + eapply keyed_impl; [exact Hrest|]. intros v0 t0 H0.
      apply reify_insert; [lia|].
      eapply (reify_prefix (S c) (S c)); [lia|exact Hp2|exact H0].
    + exact Hnd.
    + apply Forall_forall. intros kt Hin.
      rewrite Forall_forall in Hok. destruct (Hok kt Hin) as (Hwf' & t' & Ht' & Hnd').
      split; [exact Hwf'|]. exists t'. split; [|exact Hnd'].
      rewrite dict_get_dict_set, decide_False; [exact Ht'|].
      intros Heq. apply Hfresh. rewrite <- (keyed_keys _ _ _ Hrest), <- Heq.
      apply list_elem_of_fmap. exists kt. auto.
    + exists h', final. split; [|split; [exact Hp'|split; [exact Hl'|exact Hf']]].
      cbn [mfor].
      assert (Hstep : body (k, v) hcur
                      = (Ok tt, <[c := OConfig (dict_set k v' members)]> h2)).
      { rewrite (Hbody (k, v) hcur members cur _ Hlook Hget
                   (as_config_not_dict _ _ _ _ _ Hcur_read Hnd_cur)
                   (is_dict_reads _ _ _ _ _ Hv)
                   (as_config_plain _ _ _ _ _ Hv)).
        exact Hrun. }
      rewrite (bind_ok _ _ _ _ _ Hstep). exact Hloop.
Qed.

(** [override] with a dictionary whose keys are attributes that hold no
    nested [Config]: every key named is replaced by a fresh copy of its new
    value, in place. *)
Lemma override_existing `{Runtime} n (h0 : list obj) c (hcur : list obj) p
    kwargs members done_t :
  (length h0 <= c)%nat ->
  h0 `prefix_of` hcur ->
  hcur !! c = Some (OConfig members) ->
  Forall2 (keyed (fun v t => creify (S c) (S n) hcur v = Some t)) members done_t ->
  reify (S c) (S n) hcur p = Some (TDict kwargs) ->
  wf_tree (TDict kwargs) = true ->
  Forall (fun kt => exists t_cur, dict_get kt.1 done_t = Some t_cur
                                  /\ not_dict t_cur = true) kwargs ->
  exists h' final,
    override (S n) c p false hcur = (Ok tt, h')
    /\ h0 `prefix_of` h'
    /\ h' !! c = Some (OConfig final)
    /\ Forall2 (keyed (fun v t => creify (S c) (S n) h' v = Some t)) final
         (overridden done_t kwargs).
Proof.
  intros Hc Hp Hlook Hdone Hread Hwf Hcur.
  pose proof (is_dict_reads _ _ _ _ _ Hread) as Hisdict.
  destruct p as [| | | | |a]; try discriminate Hread.
  apply reify_ref in Hread.
  destruct Hread as (n' & o & [= <-] & Hlo & Ha & Hobj).
  destruct o as [items|items|items|items]; simpl in Hobj; try contradiction;
    destruct Hobj as (ts & Hts & Ht); try discriminate.
  injection Ht as <-.
  apply wf_tree_dict in Hwf as [Hnd Hwf].
  assert (Htruthy : truthy (VRef a) hcur = (Ok (negb (Nat.eqb (length items) 0)), hcur)).
  { unfold truthy. rewrite (bind_ok _ _ _ _ _ (load_ok hcur a _ Ha)). reflexivity. }
  assert (Hupd : exists h' final,
    _update (S n) c (VRef a) false hcur = (Ok tt, h')
    /\ h0 `prefix_of` h'
    /\ h' !! c = Some (OConfig final)
    /\ Forall2 (keyed (fun v t => creify (S c) (S n) h' v = Some t)) final
         (overridden done_t kwargs)).
  { destruct items as [|item items].
    - apply Forall2_nil_inv_l in Hts as ->. exists hcur, members.
      split; [|auto].
      cbn [_update]. rewrite (bind_ok _ _ _ _ _ Htruthy). reflexivity.
    - eassert (Hunfold : _update (S n) c (VRef a) false hcur
                         = mfor _ (item :: items) hcur).
      { cbn [_update]. rewrite (bind_ok _ _ _ _ _ Htruthy).
        cbn [length Nat.eqb negb]. unfold load_dict.
        rewrite (bind_ok _ _ _ _ _ (bind_ok _ _ _ _ _ (load_ok hcur a _ Ha))).
        reflexivity. }
      rewrite Hunfold.
      match type of Hunfold with
      | _ = mfor ?body _ _ =>
          apply (override_loop n h0 c body Hc) with (members := members)
      end; try assumption.
      + intros kv hc ms cur b Hl Hget Hcfg Hdict Hvcfg. cbn beta zeta.
        rewrite (bind_ok _ _ _ _ _ (load_config_ok hc c ms Hl)), Hget.
        rewrite (bind_ok _ _ _ _ _ Hcfg), (bind_ok _ _ _ _ _ Hdict),
          (bind_ok _ _ _ _ _ Hvcfg).
        reflexivity.
      + rewrite <- (keyed_keys _ _ _ Hts). exact Hnd.
      + apply Forall_forall. intros kt Hin.
        rewrite Forall_forall in Hwf, Hcur. split; [apply Hwf|apply Hcur]; exact Hin. }
  destruct Hupd as (h' & final & Hrun & Hrest).
  exists h', final. split; [|exact Hrest].
  unfold override. rewrite (bind_ok _ _ _ _ _ Hisdict). exact Hrun.
Qed.

(** *** Presets *)

(** A member that reads as a scalar is that scalar. *)
Lemma creify_scalar lo depth (h : list obj) v t :
  creify lo depth h v = Some t ->
  (forall l, t <> TList l) -> (forall l, t <> TTuple l) -> (forall d, t <> TDict d) ->
  reify 0 0 [] v = Some t.
Proof.
  intros Hc HL HT HD. destruct (creify_cases _ _ _ _ _ Hc) as [(a & d & -> & Ha)|Hr].
  - apply (creify_config _ _ _ _ _ _ Ha) in Hc.
    destruct Hc as (n & dt & _ & _ & -> & _). congruence.
  - destruct v as [| | | | |a];
      try (rewrite <- Hr; apply reify_scalar_any; discriminate).
    apply reify_ref in Hr. destruct Hr as (n & o & _ & _ & _ & Hobj).
    destruct o; simpl in Hobj; try contradiction;
      destruct Hobj as (ts & _ & ->); congruence.
Qed.

(** Reading an attribute whose contents are a scalar. *)
Lemma getattr_scalar lo depth (h : list obj) c members dt k t v :
  h !! c = Some (OConfig members) ->
  Forall2 (keyed (fun v t => creify lo depth h v = Some t)) members dt ->
  dict_get k dt = Some t ->
  reify 0 0 [] v = Some t ->
  (forall l, t <> TList l) -> (forall l, t <> TTuple l) -> (forall d, t <> TDict d) ->
  getattr c k h = (Ok v, h).
Proof.
  intros Hc Hm Hk Hv HL HT HD.
  destruct (keyed_dict_get _ _ _ _ _ Hm Hk) as (v' & Hget & Hread).
  apply creify_scalar in Hread; try assumption.
  assert (v' = v) as ->.
  { destruct v', v; simpl in *; congruence. }
  unfold getattr. rewrite (bind_ok _ _ _ _ _ (load_config_ok h c _ Hc)), Hget.
  reflexivity.
Qed.

(** [get_efficientdet_config] on any heap, for a preset whose keys are
    attributes of the defaults that hold no dictionary. *)
Lemma get_efficientdet_config_run `{Runtime} depth (h : list obj) model_name kwargs :
  (2 <= depth)%nat ->
  dict_get model_name efficientdet_model_param_dict = Some kwargs ->
  literal_ok depth (TDict kwargs) = true ->
  Forall (fun kt => exists t_cur, dict_get kt.1 default_assignments = Some t_cur
                                  /\ not_dict t_cur = true) kwargs ->
  exists h' final,
    get_efficientdet_config depth model_name h = (Ok (length h), h')
    /\ h `prefix_of` h'
    /\ h' !! length h = Some (OConfig final)
    /\ Forall2 (keyed (fun v t => creify (S (length h)) depth h' v = Some t)) final
         (overridden default_assignments kwargs).
Proof.
  intros Hdepth Hkw Hlit Hcur.
  apply literal_ok_spec in Hlit as [Hd Hwf].
  destruct (default_detection_configs_run depth h Hdepth)
    as (h1 & members & Hdef & Hp1 & Hl1 & Hm1).
  destruct (build_reads (TDict kwargs) h1) as (p & hb & Hbuild & Hpb & Hread).
  assert (Hclt : (length h < length h1)%nat) by (eapply lookup_lt_Some; exact Hl1).
  destruct depth as [|n]; [lia|].
  destruct (override_existing n h (length h) hb p kwargs members default_assignments)
    as (h' & final & Hrun & Hp' & Hl' & Hf'); try assumption.
  - lia.
  - etrans; eassumption.
  - eapply prefix_lookup_Some; eassumption.
  - eapply keyed_impl; [exact Hm1|]. intros v t.
    apply creify_prefix; [lia|exact Hpb].
  - apply (reify_frame (length h1) (S (length h)) hb hb); [lia|auto|].
    apply (reify_deeper _ _ (tree_depth (TDict kwargs))); [exact Hd|exact Hread].
  - exists h', final. split; [|auto].
    unfold get_efficientdet_config.
    rewrite (bind_ok _ _ _ _ _ Hdef), Hkw, (bind_ok _ _ _ _ _ Hbuild),
      (bind_ok _ _ _ _ _ Hrun).
    reflexivity.
Qed.

(** C5: on every heap, [get_detection_config("efficientdet-d6")] returns a
    new config with [fpn_weight_method = "sum"], [fpn_num_filters = 384] and
    [box_class_repeats = 5]; it has the keys of the defaults, every key of
    the preset holds the preset's value and every other key its default.  A
    name that starts with neither "efficientdet" nor "resdet" fails with
    [ValueError], and so does a name with such a prefix that the preset
    table lacks. *)
Theorem detection_config_presets `{Runtime} (depth : nat) (h : list obj) :
  (2 <= depth)%nat ->
  (exists c h' t kwargs,
     get_detection_config depth "efficientdet-d6" h = (Ok c, h')
     /\ h `prefix_of` h'
     /\ creify (length h) (S depth) h' (VRef c) = Some (TDict t)
     /\ getattr c "fpn_weight_method" h' = (Ok (VStr "sum"), h')
     /\ getattr c "fpn_num_filters" h' = (Ok (VInt 384), h')
     /\ getattr c "box_class_repeats" h' = (Ok (VInt 5), h')
     /\ dict_get "efficientdet-d6" efficientdet_model_param_dict = Some kwargs
     /\ t.*1 = default_assignments.*1
     /\ (forall k v, dict_get k kwargs = Some v -> dict_get k t = Some v)
     /\ (forall k, dict_get k kwargs = None ->
                   dict_get k t = dict_get k default_assignments))
  /\ (forall model_name,
        String.prefix "efficientdet" model_name = false ->
        String.prefix "resdet" model_name = false ->
        get_detection_config depth model_name h
        = (Raise (ValueError "model name must start with efficientdet or resdet."), h))
  /\ (forall model_name,
        String.prefix "efficientdet" model_name = true
        \/ String.prefix "resdet" model_name = true ->
        dict_get model_name efficientdet_model_param_dict = None ->
        (get_detection_config depth model_name h).1
        = Raise (ValueError ("Unknown model name: " ++ model_name)))
  /\ get_detection_config depth "not-a-model" h
     = (Raise (ValueError "model name must start with efficientdet or resdet."), h)
  /\ get_detection_config depth "foo-bar" h
     = (Raise (ValueError "model name must start with efficientdet or resdet."), h).
Proof.
  intros Hdepth. split; [|split; [|split; [|split]]].
  - assert (Hkw : exists kwargs,
      dict_get "efficientdet-d6" efficientdet_model_param_dict = Some kwargs)
      by (eexists; reflexivity).
    destruct Hkw as (kwargs & Hkw).
    destruct (get_efficientdet_config_run depth h "efficientdet-d6" kwargs Hdepth Hkw)
      as (h' & final & Hrun & Hp & Hl & Hf).
    { injection Hkw as <-. unfold literal_ok. apply andb_true_iff. split.
      - apply Nat.leb_le. assert (tree_depth (TDict (preset "efficientdet-d6"
          "efficientnet-b6" 1280 384 8 5 [("fpn_weight_method", TStr "sum")])) = 1%nat)
          by reflexivity. lia.
      - vm_compute. reflexivity. }
    { injection Hkw as <-. unfold preset. cbn [app].
      repeat (constructor; [eexists; split; [vm_compute; reflexivity|reflexivity]|]).
      constructor. }
    exists (length h), h', (overridden default_assignments kwargs), kwargs.
    split; [exact Hrun|]. split; [exact Hp|]. split.
    { apply (creify_config _ _ _ _ _ _ Hl).
      exists depth, (overridden default_assignments kwargs).
      split; [reflexivity|]. split; [lia|]. split; [reflexivity|].
      eapply keyed_impl; [exact Hf|]. intros v t. apply creify_frame; [lia|auto]. }
    injection Hkw as <-.
    split; [eapply (getattr_scalar _ _ _ _ _ _ _ (TStr "sum") _ Hl Hf);
            try discriminate; vm_compute; reflexivity|].
    split; [eapply (getattr_scalar _ _ _ _ _ _ _ (TInt 384) _ Hl Hf);
            try discriminate; vm_compute; reflexivity|].
    split; [eapply (getattr_scalar _ _ _ _ _ _ _ (TInt 5) _ Hl Hf);
            try discriminate; vm_compute; reflexivity|].
    split; [reflexivity|]. split; [vm_compute; reflexivity|]. split.
    + intros k v Hk. unfold preset in Hk. cbn [dict_get app] in Hk.
      repeat (destruct (decide _) as [->|_] in Hk;
              [injection Hk as <-; vm_compute; reflexivity|]).
      discriminate.
    + intros k Hk. apply dict_get_overridden. exact Hk.
  - intros model_name He Hr. unfold get_detection_config.
    rewrite He, Hr. reflexivity.
  - intros model_name Hprefix Hnone. unfold get_detection_config.
    replace (String.prefix "efficientdet" model_name
             || String.prefix "resdet" model_name) with true
      by (destruct Hprefix as [-> | ->]; [reflexivity | symmetry; apply orb_true_r]).
    unfold get_efficientdet_config.
    destruct (default_detection_configs_run depth h Hdepth) as (h1 & ms & Hdef & _).
    rewrite (bind_ok _ _ _ _ _ Hdef), Hnone. reflexivity.
  - reflexivity.
  - reflexivity.
Qed.

Lemma detection_config_presets_witness :
  (exists c h',
     @get_detection_config decimal_runtime 2 "efficientdet-d6" ab_heap = (Ok c, h')
     /\ getattr c "fpn_weight_method" h' = (Ok (VStr "sum"), h')
     /\ getattr c "fpn_num_filters" h' = (Ok (VInt 384), h')
     /\ getattr c "box_class_repeats" h' = (Ok (VInt 5), h'))
  /\ (@get_detection_config decimal_runtime 2 "efficientdet-d9" ab_heap).1
     = Raise (ValueError "Unknown model name: efficientdet-d9")
  /\ @get_detection_config decimal_runtime 2 "not-a-model" ab_heap
     = (Raise (ValueError "model name must start with efficientdet or resdet."), ab_heap).
Proof.
  destruct (@detection_config_presets decimal_runtime 2 ab_heap)
    as ((c & h' & t & kwargs & Hrun & _ & _ & Hw & Hf & Hb & _) & _ & Hunknown & Hbad & _);
    [lia|].
  split; [exists c, h'; auto|]. split; [|exact Hbad].
  apply (Hunknown "efficientdet-d9"); [left|]; reflexivity.
Defined.

End DetectionConfig.

(** ** Strings *)

Module StringFacts.

Lemma append_nil_r (s : string) : s ++ "" = s.
Proof. induction s as [|c s IH]; [reflexivity|]. cbv [append]; fold append. rewrite IH. reflexivity. Qed.

Lemma append_assoc (s1 s2 s3 : string) : (s1 ++ s2) ++ s3 = s1 ++ (s2 ++ s3).
Proof.
  induction s1 as [|c s1 IH]; [reflexivity|].
  cbv [append]; fold append. rewrite IH. reflexivity.
Qed.

Lemma append_cons (c : ascii) (s1 s2 : string) : String c s1 ++ s2 = String c (s1 ++ s2).
Proof. reflexivity. Qed.

Lemma append_nil_l (s : string) : "" ++ s = s.
Proof. reflexivity. Qed.

Lemma prefix_empty (s : string) : String.prefix "" s = true.
Proof. destruct s; reflexivity. Qed.

Lemma length_append (s1 s2 : string) :
  String.length (s1 ++ s2) = (String.length s1 + String.length s2)%nat.
Proof.
  induction s1 as [|c s1 IH]; [reflexivity|].
  rewrite append_cons. simpl. rewrite IH. reflexivity.
Qed.

Lemma contains_char_append (c : ascii) (s1 s2 : string) :
  PyStr.contains_char c (s1 ++ s2)
  = PyStr.contains_char c s1 || PyStr.contains_char c s2.
Proof.
  induction s1 as [|a s1 IH]; [reflexivity|].
  rewrite append_cons. cbn [PyStr.contains_char]. rewrite IH. apply orb_assoc.
Qed.

(** Splitting a string that does not hold the separator. *)
Lemma split_from_absent (c : ascii) (s : string) : forall cur,
  PyStr.contains_char c s = false -> PyStr.split_from c cur s = [cur ++ s].
Proof.
  induction s as [|a s IH]; intros cur Hs; cbn [PyStr.split_from].
  - rewrite append_nil_r. reflexivity.
  - cbn [PyStr.contains_char] in Hs. apply orb_false_iff in Hs as [Ha Hs].
    rewrite Ha, IH by exact Hs. rewrite append_assoc. reflexivity.
Qed.

Lemma split_absent (c : ascii) (s : string) :
  PyStr.contains_char c s = false -> PyStr.split c s = [s].
Proof. intros Hs. unfold PyStr.split. rewrite split_from_absent by exact Hs. reflexivity. Qed.

(** Splitting at the first separator. *)
Lemma split_from_first (c : ascii) (s1 s2 : string) : forall cur,
  PyStr.contains_char c s1 = false ->
  PyStr.split_from c cur (s1 ++ String c s2) = (cur ++ s1) :: PyStr.split c s2.
Proof.
  induction s1 as [|a s1 IH]; intros cur Hs; rewrite ?append_cons, ?append_nil_l;
    cbn [PyStr.split_from].
  - rewrite Ascii.eqb_refl, append_nil_r. reflexivity.
  - cbn [PyStr.contains_char] in Hs. apply orb_false_iff in Hs as [Ha Hs].
    rewrite Ha, IH by exact Hs. rewrite append_assoc. reflexivity.
Qed.

Lemma split_first (c : ascii) (s1 s2 : string) :
  PyStr.contains_char c s1 = false ->
  PyStr.split c (s1 ++ String c s2) = s1 :: PyStr.split c s2.
Proof. intros Hs. unfold PyStr.split at 1. rewrite split_from_first by exact Hs. reflexivity. Qed.

(** A split has at least one piece, and the pieces do not hold the
    separator. *)
Lemma split_from_pieces (c : ascii) (s : string) : forall cur,
  PyStr.contains_char c cur = false ->
  exists piece pieces,
    PyStr.split_from c cur s = piece :: pieces
    /\ Forall (fun p => PyStr.contains_char c p = false) (piece :: pieces).
Proof.
  induction s as [|a s IH]; intros cur Hcur; cbn [PyStr.split_from].
  - exists cur, []. split; [reflexivity|]. repeat constructor. exact Hcur.
  - destruct (Ascii.eqb c a) eqn:Ha.
    + destruct (IH EmptyString eq_refl) as (p & ps & -> & Hall).
      exists cur, (p :: ps). split; [reflexivity|]. constructor; assumption.
    + apply IH. rewrite contains_char_append, Hcur. cbn [PyStr.contains_char].
      rewrite Ha. reflexivity.
Qed.

(** Stripping removes characters only. *)
Lemma contains_char_lstrip (c : ascii) (s : string) :
  PyStr.contains_char c s = false -> PyStr.contains_char c (PyStr.lstrip s) = false.
Proof.
  induction s as [|a s IH]; [reflexivity|]. cbn [PyStr.lstrip].
  destruct (PyStr.is_space a); [|exact (fun H => H)].
  cbn [PyStr.contains_char]. intros Hs. apply orb_false_iff in Hs as [_ Hs]. auto.
Qed.

Lemma contains_char_rstrip (c : ascii) (s : string) :
  PyStr.contains_char c s = false -> PyStr.contains_char c (PyStr.rstrip s) = false.
Proof.
  induction s as [|a s IH]; [reflexivity|]. cbn [PyStr.rstrip PyStr.contains_char].
  intros Hs. apply orb_false_iff in Hs as [Ha Hs].
  destruct (PyStr.is_space a && String.eqb (PyStr.rstrip s) EmptyString); [reflexivity|].
  cbn [PyStr.contains_char]. rewrite Ha, IH by exact Hs. reflexivity.
Qed.

Lemma contains_char_strip (c : ascii) (s : string) :
  PyStr.contains_char c s = false -> PyStr.contains_char c (PyStr.strip s) = false.
Proof.
  intros Hs. unfold PyStr.strip. apply contains_char_rstrip, contains_char_lstrip, Hs.
Qed.

Lemma find_char_absent (c : ascii) (s : string) :
  PyStr.contains_char c s = false -> PyStr.find_char c s = None.
Proof.
  induction s as [|a s IH]; [reflexivity|]. cbn [PyStr.contains_char PyStr.find_char].
  intros Hs. apply orb_false_iff in Hs as [Ha Hs].
  rewrite Ha, IH by exact Hs. reflexivity.
Qed.

Lemma substring_prefix (s1 s2 : string) :
  substring 0 (String.length s1) (s1 ++ s2) = s1.
Proof.
  induction s1 as [|a s1 IH]; [destruct s2; reflexivity|].
  rewrite append_cons. cbn [String.length substring]. rewrite IH. reflexivity.
Qed.

Lemma substring_all (s : string) : substring 0 (String.length s) s = s.
Proof. induction s as [|a s IH]; [reflexivity|]. cbn [String.length substring]. rewrite IH. reflexivity. Qed.

Lemma substring_suffix (s1 s2 : string) :
  substring (String.length s1) (String.length s2) (s1 ++ s2) = s2.
Proof.
  induction s1 as [|a s1 IH]; [rewrite append_nil_l; apply substring_all|].
  rewrite append_cons. cbn [String.length substring]. exact IH.
Qed.

(** The first occurrence of a character. *)
Lemma find_char_first (c : ascii) (s1 s2 : string) :
  PyStr.contains_char c s1 = false ->
  PyStr.find_char c (s1 ++ String c s2) = Some (String.length s1).
Proof.
  induction s1 as [|a s1 IH]; intros Hs; rewrite ?append_cons, ?append_nil_l;
    cbn [PyStr.find_char String.length].
  - rewrite Ascii.eqb_refl. reflexivity.
  - cbn [PyStr.contains_char] in Hs. apply orb_false_iff in Hs as [Ha Hs].
    rewrite Ha, IH by exact Hs. reflexivity.
Qed.

Lemma substring_after_char (c : ascii) (s1 s2 : string) :
  substring (String.length s1 + 1)
    (String.length (s1 ++ String c s2) - (String.length s1 + 1))
    (s1 ++ String c s2) = s2.
Proof.
  change (s1 ++ String c s2) with (s1 ++ String c "" ++ s2).
  rewrite <- append_assoc.
  replace (String.length s1 + 1)%nat with (String.length (s1 ++ String c ""))
    by (rewrite length_append; reflexivity).
  rewrite (length_append (s1 ++ String c "")), Nat.add_comm, Nat.add_sub.
  apply substring_suffix.
Qed.

End StringFacts.

(** ** Classmaps with integer indices *)

Module ClassmapTable.
Import Classmap ClassmapFacts.

(** [n] distinct indices within [0, n) are all of them. *)
Lemma indices_cover (zs : list Z) :
  NoDup zs ->
  Forall (fun z => (0 <= z < Z.of_nat (length zs))%Z) zs ->
  forall i, (i < length zs)%nat -> Z.of_nat i ∈ zs.
Proof.
  intros Hnd Hrange i Hi.
  assert (Hnd' : NoDup (Z.to_nat <$> zs)).
  { apply NoDup_fmap_2_strong; [|exact Hnd].
    intros x y Hx Hy Hxy. rewrite Forall_forall in Hrange.
    pose proof (Hrange x Hx). pose proof (Hrange y Hy). lia. }
  assert (Hsub : (Z.to_nat <$> zs) ⊆+ seq 0 (length zs)).
  { apply NoDup_submseteq; [exact Hnd'|]. intros k Hk.
    apply list_elem_of_fmap in Hk as (z & -> & Hz).
    rewrite Forall_forall in Hrange. pose proof (Hrange z Hz).
    apply elem_of_seq. lia. }
  apply submseteq_length_Permutation in Hsub;
    [|rewrite length_seq, length_fmap; lia].
  assert (Hin : i ∈ Z.to_nat <$> zs).
  { rewrite Hsub. apply elem_of_seq. lia. }
  apply list_elem_of_fmap in Hin as (z & -> & Hz).
  rewrite Forall_forall in Hrange. pose proof (Hrange z Hz).
  rewrite Z2Nat.id by lia. exact Hz.
Qed.

(** Indices within [0, n) that are not distinct leave one out. *)
Lemma index_left_out (zs : list Z) :
  ~ NoDup zs ->
  Forall (fun z => (0 <= z < Z.of_nat (length zs))%Z) zs ->
  exists i, (i < length zs)%nat /\ Z.of_nat i ∉ zs.
Proof.
  intros Hdup Hrange.
  destruct (decide (Forall (fun i => Z.of_nat i ∈ zs) (seq 0 (length zs))))
    as [Hall|Hnot].
  - exfalso. apply Hdup.
    assert (Hsub : seq 0 (length zs) ⊆+ (Z.to_nat <$> zs)).
    { apply NoDup_submseteq; [apply NoDup_seq|]. intros i Hi.
      rewrite Forall_forall in Hall. specialize (Hall i Hi).
      apply list_elem_of_fmap. exists (Z.of_nat i). split; [lia|exact Hall]. }
    apply submseteq_length_Permutation in Hsub;
      [|rewrite length_seq, length_fmap; lia].
    apply (NoDup_fmap_1 Z.to_nat). rewrite <- Hsub. apply NoDup_seq.
  - apply not_Forall_Exists in Hnot; [|intros i; apply _].
    apply Exists_exists in Hnot as (i & Hi & Hout).
    apply elem_of_seq in Hi. exists i. split; [lia|exact Hout].
Qed.

(** Loading a classmap whose indices are within [0, n). *)
Lemma load_in_range (items : list (string * Z)) :
  items <> [] ->
  Forall (fun nz => (0 <= nz.2 < Z.of_nat (length items))%Z) items ->
  exists l,
    load_class_names (integer_classmap items) = Ok (Some l)
    /\ length l = length items
    /\ (forall i, (i < length items)%nat -> Z.of_nat i ∉ items.*2 -> l !! i = Some "")
    /\ (NoDup (items.*2) ->
        forall name z, (name, z) ∈ items -> l !! Z.to_nat z = Some name).
Proof.
  intros Hne Hrange. unfold load_class_names.
  destruct (integer_classmap items) as [|kv data] eqn:Hdata.
  { destruct items; [congruence|discriminate]. }
  rewrite <- Hdata. clear kv data Hdata.
  rewrite length_replicate, length_fmap.
  assert (Hlen : length (integer_classmap items) = length items)
    by apply length_fmap.
  rewrite Hlen, checks_of_integers. cbn [rbind].
  replace (forallb id _) with true
    by (symmetry; apply all_checks; eapply Forall_impl; [exact Hrange|]; simpl; lia).
  cbn [negb].
  destruct (assign_names_in_range items (replicate (length items) ""))
    as (l & Hl & Hlenl & Hkeep & Hplace).
  { rewrite length_replicate. exact Hrange. }
  rewrite Hl. cbn [rbind]. exists l. rewrite length_replicate in Hlenl.
  split; [reflexivity|]. split; [exact Hlenl|]. split; [|exact Hplace].
  intros i Hi Hout. rewrite (Hkeep i Hout). apply lookup_replicate_2. exact Hi.
Qed.

(** X1: a classmap of [n] names with pairwise distinct integer indices
    within [0, n) loads as the list of length [n] that holds, at every
    position, the name mapped to that position, and nothing else. *)
Theorem classmap_is_inverse_map (items : list (string * Z)) :
  items <> [] ->
  Forall (fun nz => (0 <= nz.2 < Z.of_nat (length items))%Z) items ->
  NoDup (items.*2) ->
  exists l,
    load_class_names (integer_classmap items) = Ok (Some l)
    /\ length l = length items
    /\ forall i name, l !! i = Some name <-> (name, Z.of_nat i) ∈ items.
Proof.
  intros Hne Hrange Hnd.
  destruct (load_in_range items Hne Hrange) as (l & Hl & Hlen & _ & Hplace).
  exists l. split; [exact Hl|]. split; [exact Hlen|].
  intros i name. split.
  - intros Hi.
    assert (Hlt : (i < length items)%nat)
      by (rewrite <- Hlen; eapply lookup_lt_Some; exact Hi).
    assert (Hin : Z.of_nat i ∈ items.*2).
    { apply indices_cover; [exact Hnd| |rewrite length_fmap; exact Hlt].
      rewrite length_fmap. apply Forall_fmap. exact Hrange. }
    apply list_elem_of_fmap in Hin as ([name' z] & Hz & Hin). simpl in Hz. subst z.
    pose proof (Hplace Hnd name' _ Hin) as Hi'. rewrite Nat2Z.id in Hi'.
    assert (name = name') by congruence. subst name'. exact Hin.
  - intros Hin. pose proof (Hplace Hnd name _ Hin) as Hi.
    rewrite Nat2Z.id in Hi. exact Hi.
Qed.

Lemma classmap_is_inverse_map_witness :
  exists l,
    load_class_names (integer_classmap [("dog", 1%Z); ("cat", 0%Z); ("owl", 2%Z)])
    = Ok (Some l)
    /\ length l = 3%nat
    /\ forall i name,
         l !! i = Some name
         <-> (name, Z.of_nat i) ∈ [("dog", 1%Z); ("cat", 0%Z); ("owl", 2%Z)].
Proof.
  apply (classmap_is_inverse_map [("dog", 1%Z); ("cat", 0%Z); ("owl", 2%Z)]).
  - discriminate.
  - repeat constructor; simpl; lia.
  - apply (bool_decide_unpack _). vm_compute. exact I.
Defined.

(** X2: indices within [0, n) that are not pairwise distinct pass the
    validation: the list is built, a later name overwrites an earlier one,
    and some position keeps the empty name. *)
Theorem classmap_duplicate_index_leaves_blank (items : list (string * Z)) :
  Forall (fun nz => (0 <= nz.2 < Z.of_nat (length items))%Z) items ->
  ~ NoDup (items.*2) ->
  exists l,
    load_class_names (integer_classmap items) = Ok (Some l)
    /\ length l = length items
    /\ "" ∈ l.
Proof.
  intros Hrange Hdup.
  assert (Hne : items <> []) by (intros ->; apply Hdup; constructor).
  destruct (load_in_range items Hne Hrange) as (l & Hl & Hlen & Hblank & _).
  exists l. split; [exact Hl|]. split; [exact Hlen|].
  destruct (index_left_out (items.*2) Hdup) as (i & Hi & Hout).
  { rewrite length_fmap. apply Forall_fmap. exact Hrange. }
  rewrite length_fmap in Hi.
  eapply list_elem_of_lookup_2. apply (Hblank i Hi Hout).
Qed.

Lemma classmap_duplicate_index_leaves_blank_witness :
  exists l,
    load_class_names (integer_classmap [("cat", 0%Z); ("dog", 0%Z)]) = Ok (Some l)
    /\ length l = 2%nat
    /\ "" ∈ l.
Proof.
  apply (classmap_duplicate_index_leaves_blank [("cat", 0%Z); ("dog", 0%Z)]).
  - repeat constructor; simpl; lia.
  - intros Hnd. apply NoDup_cons in Hnd as [Hnotin _]. apply Hnotin. simpl. left.
Defined.

(** Indices that wrap around are assigned as well. *)
Lemma assign_names_wrapping (items : list (string * Z)) : forall class_names,
  Forall (fun nz => (- Z.of_nat (length class_names) <= nz.2
                     < Z.of_nat (length class_names))%Z) items ->
  exists l,
    assign_names class_names (integer_classmap items) = Ok l
    /\ length l = length class_names.
Proof.
  induction items as [|[name z] items IH]; intros cn Hrange; [exists cn; auto|].
  apply Forall_cons in Hrange as [Hz Hrange]. simpl in Hz.
  unfold integer_classmap in *. rewrite fmap_cons.
  cbn [assign_names assign_name fst snd]. unfold list_setitem.
  destruct ((0 <=? z) && (z <? Z.of_nat (length cn)))%Z eqn:Hpos; cbn [rbind].
  - destruct (IH (<[Z.to_nat z := name]> cn)) as (l & Hl & Hlen);
      [rewrite length_insert; exact Hrange|].
    exists l. rewrite length_insert in Hlen. auto.
  - replace ((- Z.of_nat (length cn) <=? z) && (z <? 0))%Z with true
      by (symmetry; apply andb_true_iff; apply andb_false_iff in Hpos; lia).
    cbn [rbind].
    destruct (IH (<[Z.to_nat (Z.of_nat (length cn) + z) := name]> cn))
      as (l & Hl & Hlen); [rewrite length_insert; exact Hrange|].
    exists l. rewrite length_insert in Hlen. auto.
Qed.

(** An index below [-n] stops the assignments. *)
Lemma assign_names_index_error (items : list (string * Z)) : forall class_names,
  Forall (fun nz => (nz.2 < Z.of_nat (length class_names))%Z) items ->
  Exists (fun nz => (nz.2 < - Z.of_nat (length class_names))%Z) items ->
  assign_names class_names (integer_classmap items) = Raise IndexError.
Proof.
  induction items as [|[name z] items IH]; intros cn Hhigh Hlow;
    [apply Exists_nil in Hlow; contradiction|].
  apply Forall_cons in Hhigh as [Hz Hhigh]. simpl in Hz.
  unfold integer_classmap in *. rewrite fmap_cons.
  cbn [assign_names assign_name fst snd]. unfold list_setitem.
  destruct ((0 <=? z) && (z <? Z.of_nat (length cn)))%Z eqn:Hpos; cbn [rbind].
  - apply Exists_cons in Hlow as [Hlow|Hlow]; [simpl in Hlow; lia|].
    apply IH; rewrite length_insert; assumption.
  - destruct ((- Z.of_nat (length cn) <=? z) && (z <? 0))%Z eqn:Hneg; cbn [rbind];
      [|reflexivity].
    apply Exists_cons in Hlow as [Hlow|Hlow]; [simpl in Hlow; lia|].
    apply IH; rewrite length_insert; assumption.
Qed.

(** X3: the three outcomes of loading a classmap of [n] integer indices.
    The invalid-data error is raised exactly when some index is [>= n];
    [IndexError] escapes from the assignment exactly when every index is
    [< n] and some index is [< -n]; the list is built exactly when every
    index lies in [-n, n), negative indices counting from the end. *)
Theorem classmap_integer_outcomes (items : list (string * Z)) :
  items <> [] ->
  let n := Z.of_nat (length items) in
  let r := load_class_names (integer_classmap items) in
  (r = Raise (RuntimeError invalid_data_msg)
   <-> Exists (fun nz => (n <= nz.2)%Z) items)
  /\ (r = Raise IndexError
      <-> Forall (fun nz => (nz.2 < n)%Z) items
          /\ Exists (fun nz => (nz.2 < - n)%Z) items)
  /\ ((exists l, r = Ok (Some l) /\ length l = length items)
      <-> Forall (fun nz => (- n <= nz.2 < n)%Z) items).
Proof.
  intros Hne n r.
  assert (Hrun : Forall (fun nz => (nz.2 < n)%Z) items ->
                 r = rbind (assign_names (replicate (length items) "")
                              (integer_classmap items))
                       (fun cn => Ok (Some cn))).
  { intros Hhigh. subst r. unfold load_class_names.
    destruct (integer_classmap items) as [|kv data] eqn:Hdata.
    { destruct items; [congruence|discriminate]. }
    rewrite <- Hdata. clear kv data Hdata.
    rewrite length_replicate, length_fmap.
    assert (Hlen : length (integer_classmap items) = length items)
      by apply length_fmap.
    rewrite Hlen, checks_of_integers. cbn [rbind].
    replace (forallb id _) with true by (symmetry; apply all_checks; exact Hhigh).
    reflexivity. }
  destruct (Forall_Exists_dec
              (fun nz : string * Z => (nz.2 < n)%Z)
              (fun nz : string * Z => (n <= nz.2)%Z)
              (fun nz => Z_lt_le_dec nz.2 n) items) as [Hhigh|Hbig].
  - (* every index is below n *)
    assert (Hnobig : ~ Exists (fun nz : string * Z => (n <= nz.2)%Z) items).
    { intros Hex. apply Exists_exists in Hex as (nz & Hin & Hge).
      rewrite Forall_forall in Hhigh. specialize (Hhigh nz Hin). simpl in *. lia. }
    destruct (Forall_Exists_dec
                (fun nz : string * Z => (- n <= nz.2)%Z)
                (fun nz : string * Z => (nz.2 < - n)%Z)
                (fun nz => match Z_lt_le_dec nz.2 (- n) with
                           | left Hlt => right Hlt
                           | right Hle => left Hle
                           end) items) as [Hlow|Hfar].
    + (* every index is within [-n, n) *)
      assert (Hboth : Forall (fun nz : string * Z => (- n <= nz.2 < n)%Z) items).
      { apply Forall_forall. intros nz Hin. rewrite Forall_forall in Hhigh, Hlow.
        split; [apply Hlow|apply Hhigh]; exact Hin. }
      destruct (assign_names_wrapping items (replicate (length items) ""))
        as (l & Hl & Hlen); [rewrite length_replicate; exact Hboth|].
      rewrite length_replicate in Hlen.
      assert (Hr : r = Ok (Some l)) by (rewrite (Hrun Hhigh), Hl; reflexivity).
      split; [|split].
      * rewrite Hr. split; [discriminate|intros Hex; contradiction].
      * rewrite Hr. split; [discriminate|]. intros [_ Hex]. exfalso.
        apply Exists_exists in Hex as (nz & Hin & Hlt).
        rewrite Forall_forall in Hlow. specialize (Hlow nz Hin). simpl in *. lia.
      * split; [intros _; exact Hboth|]. intros _. exists l. auto.
    + (* some index is below -n *)
      assert (Hr : r = Raise IndexError).
      { rewrite (Hrun Hhigh), assign_names_index_error; [reflexivity| |];
          rewrite length_replicate; assumption. }
      split; [|split].
      * rewrite Hr. split; [discriminate|intros Hex; contradiction].
      * split; [intros _; auto|intros _; exact Hr].
      * rewrite Hr. split; [intros (l & Hl & _); discriminate|].
        intros Hboth. exfalso. apply Exists_exists in Hfar as (nz & Hin & Hlt).
        rewrite Forall_forall in Hboth. specialize (Hboth nz Hin). simpl in *. lia.
  - (* some index is n or more *)
    assert (Hr : r = Raise (RuntimeError invalid_data_msg))
      by (apply invalid_data_iff_too_large; assumption).
    assert (Hnot : ~ Forall (fun nz : string * Z => (nz.2 < n)%Z) items).
    { intros Hall. apply Exists_exists in Hbig as (nz & Hin & Hge).
      rewrite Forall_forall in Hall. specialize (Hall nz Hin). simpl in *. lia. }
    split; [|split].
    + split; [intros _; exact Hbig|intros _; exact Hr].
    + rewrite Hr. split; [discriminate|]. intros [Hall _]. contradiction.
    + rewrite Hr. split; [intros (l & Hl & _); discriminate|].
      intros Hboth. exfalso. apply Hnot. eapply Forall_impl; [exact Hboth|].
      simpl. intros nz Hnz. lia.
Qed.

Lemma classmap_integer_outcomes_witness :
  load_class_names (integer_classmap [("cat", (-3)%Z); ("dog", 0%Z)]) = Raise IndexError
  <-> Forall (fun nz : string * Z => (nz.2 < 2)%Z) [("cat", (-3)%Z); ("dog", 0%Z)]
      /\ Exists (fun nz : string * Z => (nz.2 < - 2)%Z) [("cat", (-3)%Z); ("dog", 0%Z)].
Proof.
  apply (classmap_integer_outcomes [("cat", (-3)%Z); ("dog", 0%Z)]). discriminate.
Defined.

End ClassmapTable.

(** ** Colour augmentations *)

Module AugmentFacts.
Import Hue Augment.
Local Open Scope Q_scope.

Lemma clip_unit (x : Q) : 0 <= clip x 0 1 <= 1.
Proof.
  unfold clip. destruct (Qlt_le_dec x 0) as [Hx|Hx].
  - destruct (Qlt_le_dec 1 0); lra.
  - destruct (Qlt_le_dec 1 x); lra.
Qed.

(** A value inside the interval is returned as it is. *)
Lemma clip_inside (x : Q) : 0 <= x <= 1 -> clip x 0 1 = x.
Proof.
  intros Hx. unfold clip. destruct (Qlt_le_dec x 0) as [H0|H0]; [lra|].
  destruct (Qlt_le_dec 1 x) as [H1|H1]; [lra|reflexivity].
Qed.

(** Clipping moves a value towards the interval only. *)
Lemma clip_between (x : Q) :
  (x <= clip x 0 1 \/ clip x 0 1 == 1) /\ (clip x 0 1 <= x \/ clip x 0 1 == 0).
Proof.
  unfold clip. destruct (Qlt_le_dec x 0) as [H0|H0].
  - destruct (Qlt_le_dec 1 0); lra.
  - destruct (Qlt_le_dec 1 x); lra.
Qed.

Lemma randu_symmetric (u m : Q) :
  0 <= u < 1 -> 0 <= m -> - m <= randu u (- m) m <= m.
Proof. intros Hu Hm. unfold randu. nra. Qed.

Lemma elementwise_related (P : Q -> Prop) (R : Q -> Q -> Prop) (f : Q -> Q) a :
  (forall x, P x -> R x (f x)) ->
  all_pixels P a -> Forall2 (Forall2 R) a (elementwise f a).
Proof.
  intros Hf Ha. unfold elementwise.
  induction Ha as [|row a Hrow _ IH]; simpl; constructor; [|exact IH].
  induction Hrow as [|x row Hx _ IHrow]; simpl; constructor; auto.
Qed.

Lemma pointwise_related (P : Q -> Prop) (R : Q -> Q -> Prop) (f : Q -> Q) img :
  (forall x, P x -> R x (f x)) ->
  all_entries P img -> entrywise R img (pointwise f img).
Proof.
  intros Hf Himg. unfold pointwise, entrywise.
  induction Himg as [|a img Ha _ IH]; simpl; constructor; [|exact IH].
  eapply elementwise_related; eassumption.
Qed.

Lemma all_entries_true img : all_entries (fun _ => True) img.
Proof.
  unfold all_entries, all_pixels.
  repeat (apply Forall_forall; intros ? _). exact I.
Qed.

Lemma pointwise_pointwise (f g : Q -> Q) img :
  pointwise g (pointwise f img) = pointwise (fun x => g (f x)) img.
Proof.
  unfold pointwise, elementwise. rewrite map_map. apply map_ext. intros a.
  rewrite map_map. apply map_ext. intros row. apply map_map.
Qed.



(** X5: [random_contrast] returns entries within [0, 1]; an entry equal to
    the centre stays there, and no entry moves across the centre. *)
Theorem random_contrast_about_center (u center max_contrast_scale : Q) (img : image) :
  0 <= u < 1 -> 0 <= max_contrast_scale <= 1 -> 0 <= center <= 1 ->
  entrywise (fun x y => 0 <= y <= 1
                        /\ (center <= x -> center <= y)
                        /\ (x <= center -> y <= center)
                        /\ (x == center -> y == center))
    img (random_contrast u img center max_contrast_scale).
Proof.
  intros Hu Hm Hc. unfold random_contrast. rewrite pointwise_pointwise.
  eapply pointwise_related; [|apply all_entries_true]. intros x _. cbv beta.
  pose proof (randu_symmetric u max_contrast_scale Hu (proj1 Hm)) as Hr.
  set (f := 1 + randu u (- max_contrast_scale) max_contrast_scale) in *.
  assert (Hf : 0 <= f) by (unfold f; lra).
  pose proof (clip_unit ((x - center) * f + center)) as Hunit.
  pose proof (clip_between ((x - center) * f + center)) as [Hup Hdown].
  split; [exact Hunit|].
  assert (Hge : center <= x -> center <= (x - center) * f + center) by (intros; nra).
  assert (Hle : x <= center -> (x - center) * f + center <= center) by (intros; nra).
  split; [intros Hx; specialize (Hge Hx); destruct Hup; lra|].
  split; [intros Hx; specialize (Hle Hx); destruct Hdown; lra|].
  intros Hx. assert (Hx1 : center <= x) by lra. assert (Hx2 : x <= center) by lra.
  specialize (Hge Hx1). specialize (Hle Hx2). destruct Hup, Hdown; lra.
Qed.

Lemma random_contrast_about_center_witness :
  entrywise (fun x y => 0 <= y <= 1
                        /\ ((1 # 2) <= x -> (1 # 2) <= y)
                        /\ (x <= (1 # 2) -> y <= (1 # 2))
                        /\ (x == (1 # 2) -> y == (1 # 2)))
    [[[0; 1 # 2]; [1; 9 # 10]]]
    (random_contrast (3 # 4) [[[0; 1 # 2]; [1; 9 # 10]]] (1 # 2) (1 # 10)).
Proof.
  apply (random_contrast_about_center (3 # 4) (1 # 2) (1 # 10)).
  - split; [discriminate|reflexivity].
  - split; discriminate.
  - split; discriminate.
Defined.

(** X6: [random_shift] returns entries within [0, 1], and with a standard
    deviation of 0 (the default of [color_augmentation]) it returns an image
    with entries within [0, 1] unchanged. *)
Theorem random_shift_zero_stddev (g shift_stddev : Q) (x_img : image) :
  all_entries (fun y => 0 <= y <= 1) (random_shift g x_img shift_stddev)
  /\ (shift_stddev == 0 ->
      all_entries (fun x => 0 <= x <= 1) x_img ->
      entrywise Qeq x_img (random_shift g x_img shift_stddev)).
Proof.
  unfold random_shift. split.
  - unfold all_entries, all_pixels, pointwise, elementwise.
    repeat (apply Forall_forall; intros ? Hin;
            apply list_elem_of_fmap in Hin as (? & -> & _)).
    apply clip_unit.
  - intros Hzero Himg. eapply pointwise_related; [|exact Himg].
    intros x Hx. cbv beta in *.
    assert (Hsame : x + g * shift_stddev == x) by (rewrite Hzero; ring).
    pose proof (clip_unit (x + g * shift_stddev)) as Hunit.
    pose proof (clip_between (x + g * shift_stddev)) as [Hup Hdown].
    destruct Hup, Hdown; lra.
Qed.

Lemma random_shift_zero_stddev_witness :
  entrywise Qeq [[[0; 1 # 2]; [1; 9 # 10]]]
    (random_shift (7 # 3) [[[0; 1 # 2]; [1; 9 # 10]]] 0).
Proof.
  apply (random_shift_zero_stddev (7 # 3) 0 [[[0; 1 # 2]; [1; 9 # 10]]]).
  - reflexivity.
  - repeat constructor; discriminate.
Defined.

End AugmentFacts.

(** ** Report labels *)

Module EvaluateFacts.
Import Evaluate.

Lemma insert_by_index_perm x l : insert_by_index x l ≡ₚ x :: l.
Proof.
  induction l as [|y l IH]; simpl; [reflexivity|].
  destruct (x.2 <=? y.2)%Z; [reflexivity|].
  rewrite IH. apply Permutation_swap.
Qed.

Lemma sorted_by_index_perm items : sorted_by_index items ≡ₚ items.
Proof.
  induction items as [|x items IH]; simpl; [reflexivity|].
  rewrite insert_by_index_perm, IH. reflexivity.
Qed.

Lemma insert_by_index_sorted x l :
  StronglySorted Z.le (l.*2) -> StronglySorted Z.le ((insert_by_index x l).*2).
Proof.
  induction l as [|y l IH]; simpl; intros Hs; [repeat constructor|].
  apply StronglySorted_inv in Hs as [Hs Hy].
  destruct (x.2 <=? y.2)%Z eqn:Hxy; simpl.
  - apply Z.leb_le in Hxy. constructor; [constructor; assumption|].
    constructor; [exact Hxy|]. eapply Forall_impl; [exact Hy|]. simpl. lia.
  - apply Z.leb_gt in Hxy. constructor; [apply IH; exact Hs|].
    rewrite insert_by_index_perm. simpl. constructor; [lia|exact Hy].
Qed.

Lemma sorted_by_index_sorted items : StronglySorted Z.le ((sorted_by_index items).*2).
Proof.
  induction items as [|x items IH]; simpl; [constructor|].
  apply insert_by_index_sorted. exact IH.
Qed.

(** Items with equal indices keep their order. *)
Lemma insert_by_index_filter (z : Z) x l :
  filter (fun y => y.2 = z) (insert_by_index x l)
  = filter (fun y => y.2 = z) (x :: l)
  \/ x.2 <> z /\ filter (fun y => y.2 = z) (insert_by_index x l)
                 = filter (fun y => y.2 = z) l.
Proof.
  destruct (decide (x.2 = z)) as [Hx|Hx].
  - left. induction l as [|y l IH]; simpl; [reflexivity|].
    destruct (x.2 <=? y.2)%Z eqn:Hxy; [reflexivity|].
    apply Z.leb_gt in Hxy.
    rewrite filter_cons_False by (simpl; lia).
    rewrite IH. rewrite !filter_cons_True by exact Hx.
    rewrite (filter_cons_False _ y) by (simpl; lia). reflexivity.
  - right. split; [exact Hx|].
    induction l as [|y l IH]; simpl.
    + rewrite filter_cons_False by exact Hx. reflexivity.
    + destruct (x.2 <=? y.2)%Z.
      * rewrite filter_cons_False by exact Hx. reflexivity.
      * rewrite !(filter_cons _ y), IH. reflexivity.
Qed.

Lemma sorted_by_index_stable (z : Z) items :
  filter (fun y => y.2 = z) (sorted_by_index items)
  = filter (fun y => y.2 = z) items.
Proof.
  induction items as [|x items IH]; simpl; [reflexivity|].
  destruct (insert_by_index_filter z x (sorted_by_index items)) as [->|[Hx ->]].
  - rewrite !filter_cons, IH. reflexivity.
  - rewrite filter_cons_False by exact Hx. exact IH.
Qed.

(** X7: for a non-empty [class_indices], the labels given to
    [classification_report] are the class indices in ascending order and
    the target names are the class names in the same order: pairing them
    up gives back the items of [class_indices], and classes with equal
    indices keep their order.  With the indices [0 .. n-1] of a Keras
    directory iterator, the labels are [0, 1, .., n-1] and the name at
    position [i] is the one of class [i].  With no class, the lookup of
    the labels fails. *)
Theorem report_labels_sorted (class_dict : list (string * Z)) :
  (class_dict <> [] ->
   exists names labels,
     target_keys_names class_dict = Ok (names, labels)
     /\ length names = length class_dict
     /\ length labels = length class_dict
     /\ StronglySorted Z.le labels
     /\ zip names labels ≡ₚ class_dict
     /\ (forall z, filter (fun y => y.2 = z) (zip names labels)
                   = filter (fun y => y.2 = z) class_dict)
     /\ (class_dict.*2 ≡ₚ Z.of_nat <$> seq 0 (length class_dict) ->
         labels = Z.of_nat <$> seq 0 (length class_dict)
         /\ forall i name, names !! i = Some name <-> (name, Z.of_nat i) ∈ class_dict))
  /\ target_keys_names [] = Raise IndexError.
Proof.
  split; [|reflexivity]. intros Hne.
  pose proof (sorted_by_index_perm class_dict) as Hperm.
  pose proof (sorted_by_index_sorted class_dict) as Hsorted.
  pose proof (fun z => sorted_by_index_stable z class_dict) as Hstable.
  unfold target_keys_names.
  destruct (sorted_by_index class_dict) as [|p pairs] eqn:Hpairs.
  { apply Permutation_nil_l in Hperm. congruence. }
  set (ps := p :: pairs) in *. clearbody ps. clear p pairs Hpairs.
  assert (Hzip : zip (ps.*1) (ps.*2) = ps) by apply zip_fst_snd.
  exists (ps.*1), (ps.*2). split; [reflexivity|].
  split; [rewrite length_fmap; apply Permutation_length; exact Hperm|].
  split; [rewrite length_fmap; apply Permutation_length; exact Hperm|].
  split; [exact Hsorted|]. rewrite Hzip.
  split; [exact Hperm|]. split; [exact Hstable|].
  intros Hkeras.
  assert (Hlabels : ps.*2 = Z.of_nat <$> seq 0 (length class_dict)).
  { apply (StronglySorted_unique Z.le); [exact Hsorted| |].
    - clear. generalize 0%nat. induction (length class_dict) as [|n IH]; intros k;
        simpl; constructor; [apply IH|].
      apply Forall_forall. intros z Hz.
      apply list_elem_of_fmap in Hz as (i & -> & Hi). apply elem_of_seq in Hi. lia.
    - rewrite <- Hkeras, Hperm. reflexivity. }
  split; [exact Hlabels|].
  assert (Hnd : NoDup (ps.*2)).
  { rewrite Hlabels. apply NoDup_fmap_2; [intros x y; lia|apply NoDup_seq]. }
  intros i name. rewrite <- Hperm. split.
  - intros Hi. apply list_lookup_fmap_Some in Hi as ([name' z] & -> & Hi).
    assert (Hz : ps.*2 !! i = Some z) by (rewrite list_lookup_fmap, Hi; reflexivity).
    rewrite Hlabels, list_lookup_fmap in Hz.
    destruct (seq 0 (length class_dict) !! i) as [k|] eqn:Hk; [|discriminate].
    apply lookup_seq in Hk as [-> _]. injection Hz as <-.
    eapply list_elem_of_lookup_2. exact Hi.
  - intros Hin. apply list_elem_of_lookup_1 in Hin as (j & Hj).
    assert (Hz : ps.*2 !! j = Some (Z.of_nat i))
      by (rewrite list_lookup_fmap, Hj; reflexivity).
    rewrite Hlabels, list_lookup_fmap in Hz.
    destruct (seq 0 (length class_dict) !! j) as [k|] eqn:Hk; [|discriminate].
    apply lookup_seq in Hk as [-> _]. injection Hz as Hz.
    apply Nat2Z.inj in Hz. subst j.
    rewrite list_lookup_fmap, Hj. reflexivity.
Qed.

Lemma report_labels_sorted_witness :
  exists names labels,
    target_keys_names [("dog", 1%Z); ("owl", 2%Z); ("cat", 0%Z)] = Ok (names, labels)
    /\ length names = 3%nat
    /\ length labels = 3%nat
    /\ StronglySorted Z.le labels
    /\ zip names labels ≡ₚ [("dog", 1%Z); ("owl", 2%Z); ("cat", 0%Z)].
Proof.
  destruct (report_labels_sorted [("dog", 1%Z); ("owl", 2%Z); ("cat", 0%Z)])
    as [Hsome _].
  destruct (Hsome ltac:(discriminate)) as (names & labels & H1 & H2 & H3 & H4 & H5 & _).
  exists names, labels. auto.
Defined.

End EvaluateFacts.

(** ** The iteration protocol of [DataSource] *)

Module DataSourceProtocol.
Import DataSource DataSourceFacts.

(** X8: [__next__] on a [DataSource] on which [__iter__]
    never ran raises [AttributeError]; after a complete iteration every
    further [__next__] raises [StopIteration]; neither call changes the
    object. *)
Theorem next_outside_iteration (patterns dirs : list string) (st : store) :
  patterns <> [] ->
  dirs = [] \/ length dirs = length patterns ->
  exists ds st0,
    init patterns dirs st = (Ok ds, st0)
    /\ dunder_next ds st0 = (Raise AttributeError, st0)
    /\ forall budget st1 items,
         to_list budget ds st0 = Some (Ok items, st1) ->
         dunder_next ds st1 = (Raise StopIteration, st1)
         /\ forall budget', drain (S budget') ds st1 = Some (Ok [], st1).
Proof.
  intros Hne Hdirs. exists (length st). eexists.
  split; [apply init_ok; assumption|].
  set (o := {| tfrecord_patterns := patterns;
               image_dirs := effective_dirs patterns dirs; n := None |}).
  assert (Hlook : (st ++ [o])%list !! length st = Some o)
    by (apply list_lookup_middle; reflexivity).
  assert (Hlen : length (image_dirs o) = length (tfrecord_patterns o)).
  { simpl. unfold effective_dirs. destruct Hdirs as [-> | Hd].
    - apply length_replicate.
    - destruct dirs; [destruct patterns; [congruence|discriminate]|exact Hd]. }
  assert (Hfresh : n o = None) by reflexivity.
  clearbody o.
  assert (Hlt : (length st < length (st ++ [o])%list)%nat)
    by (rewrite length_app; simpl; lia).
  split.
  - unfold dunder_next, load, bind. rewrite Hlook, Hfresh. reflexivity.
  - intros budget st1 items Hlist.
    destruct (decide (length (tfrecord_patterns o) < budget)%nat) as [Hb|Hb].
    + rewrite (to_list_eq budget _ _ o Hlook Hlen Hb) in Hlist.
      injection Hlist as _ <-.
      assert (Hstop : dunder_next (length st)
                        (<[length st := set_n (length (tfrecord_patterns o)) o]>
                           (st ++ [o])%list)
                      = (Raise StopIteration,
                         <[length st := set_n (length (tfrecord_patterns o)) o]>
                           (st ++ [o])%list)).
      { apply (dunder_next_stop _ _ (set_n (length (tfrecord_patterns o)) o)
                 (length (tfrecord_patterns o))); [|reflexivity|simpl; lia].
        apply list_lookup_insert_eq. exact Hlt. }
      split; [exact Hstop|]. intros budget'. cbn [drain]. rewrite Hstop. reflexivity.
    + exfalso. unfold to_list in Hlist.
      rewrite (dunder_iter_eq _ _ o Hlook) in Hlist.
      assert (Hnone : forall m b (s : store) k,
                 s !! length st = Some (set_n k o) ->
                 (k + m = length (tfrecord_patterns o))%nat -> (b <= m)%nat ->
                 forall r, drain b (length st) s = Some r -> False).
      { clear Hlist Hb. intros m b. revert m.
        induction b as [|b IH]; intros m s k Hs Hk Hbm r Hr; [discriminate|].
        cbn [drain] in Hr.
        assert (Hkp : (k < length (tfrecord_patterns o))%nat) by lia.
        destruct (lookup_lt_is_Some_2 _ k Hkp) as [p Hp].
        assert (Hkd : (k < length (image_dirs o))%nat) by lia.
        destruct (lookup_lt_is_Some_2 _ k Hkd) as [d Hd].
        rewrite (dunder_next_step s (length st) (set_n k o) k p d Hs eq_refl Hp Hd) in Hr.
        destruct (drain b (length st) _) as [r'|] eqn:Hrest.
        - eapply (IH (m - 1)%nat _ (k + 1)%nat); [| | |exact Hrest]; [|lia|lia].
          apply list_lookup_insert_eq. eapply lookup_lt_Some. exact Hs.
        - discriminate. }
      eapply (Hnone (length (tfrecord_patterns o)) budget _ 0%nat);
        [| | |exact Hlist]; [|lia|lia].
      apply list_lookup_insert_eq. exact Hlt.
Qed.

Lemma next_outside_iteration_witness :
  exists ds st0,
    init ["a-*.tfrecord"; "b-*.tfrecord"] [] [] = (Ok ds, st0)
    /\ dunder_next ds st0 = (Raise AttributeError, st0).
Proof.
  destruct (next_outside_iteration ["a-*.tfrecord"; "b-*.tfrecord"] [] [])
    as (ds & st0 & Hinit & Hnext & _); [discriminate|left; reflexivity|].
  exists ds, st0. auto.
Defined.

(** X9: a [DataSource] can be iterated again and again:
    [list(ds)] yields the same pairs every time, whatever part of an
    earlier iteration was consumed. *)
Theorem datasource_reiterable (st : store) (self : ref) (o : instance) (budget : nat) :
  st !! self = Some o ->
  length (image_dirs o) = length (tfrecord_patterns o) ->
  (length (tfrecord_patterns o) < budget)%nat ->
  exists st1,
    to_list budget self st
    = Some (Ok (zip (tfrecord_patterns o) (image_dirs o)), st1)
    /\ to_list budget self st1
       = Some (Ok (zip (tfrecord_patterns o) (image_dirs o)), st1).
Proof.
  intros Hlook Hlen Hb.
  exists (<[self := set_n (length (tfrecord_patterns o)) o]> st).
  split; [apply to_list_eq; assumption|].
  assert (Hlook' : <[self := set_n (length (tfrecord_patterns o)) o]> st !! self
                   = Some (set_n (length (tfrecord_patterns o)) o)).
  { apply list_lookup_insert_eq. eapply lookup_lt_Some. exact Hlook. }
  rewrite (to_list_eq budget _ _ _ Hlook' Hlen Hb). simpl.
  rewrite list_insert_insert_eq. reflexivity.
Qed.

Lemma datasource_reiterable_witness :
  exists st1,
    to_list 3 0
      [ {| tfrecord_patterns := ["a"; "b"]; image_dirs := ["x"; "y"]; n := Some 1%nat |} ]
    = Some (Ok [("a", "x"); ("b", "y")], st1)
    /\ to_list 3 0 st1 = Some (Ok [("a", "x"); ("b", "y")], st1).
Proof.
  apply (datasource_reiterable
           [ {| tfrecord_patterns := ["a"; "b"]; image_dirs := ["x"; "y"];
                n := Some 1%nat |} ] 0
           {| tfrecord_patterns := ["a"; "b"]; image_dirs := ["x"; "y"];
              n := Some 1%nat |} 3); [reflexivity|reflexivity|simpl; lia].
Defined.

(** X10: two nested loops over the same [DataSource] do not
    enumerate all pairs: the inner loop uses up the shared cursor, so the
    outer loop stops after its first element. *)
Theorem nested_iteration_stops_early (st : store) (self : ref) (o : instance)
    (budget : nat) :
  st !! self = Some o ->
  length (image_dirs o) = length (tfrecord_patterns o) ->
  (0 < length (tfrecord_patterns o) < budget)%nat ->
  exists outer x st1 st2,
    dunder_iter self st = (Ok outer, st1)
    /\ dunder_next outer st1 = (Ok x, st2)
    /\ [x] = take 1 (zip (tfrecord_patterns o) (image_dirs o))
    /\ exists st3,
         to_list budget self st2
         = Some (Ok (zip (tfrecord_patterns o) (image_dirs o)), st3)
         /\ dunder_next outer st3 = (Raise StopIteration, st3).
Proof.
  intros Hlook Hlen [Hpos Hb].
  destruct (tfrecord_patterns o) as [|p ps] eqn:Hps; [simpl in Hpos; lia|].
  destruct (image_dirs o) as [|d ds] eqn:Hds; [discriminate|].
  assert (Hlt : (self < length st)%nat) by (eapply lookup_lt_Some; exact Hlook).
  exists self, (p, d). do 2 eexists.
  split; [apply dunder_iter_eq; exact Hlook|].
  split.
  { apply (dunder_next_step _ _ (set_n 0 o) 0%nat);
      [apply list_lookup_insert_eq; exact Hlt|reflexivity| |];
      simpl; [rewrite Hps|rewrite Hds]; reflexivity. }
  split; [reflexivity|]. rewrite list_insert_insert_eq.
  assert (Hlook2 : <[self := set_n (0 + 1) (set_n 0 o)]> st !! self
                   = Some (set_n (0 + 1) (set_n 0 o)))
    by (apply list_lookup_insert_eq; exact Hlt).
  eexists. split.
  { rewrite (to_list_eq budget _ _ _ Hlook2); simpl; rewrite ?Hps, ?Hds;
      [reflexivity|exact Hlen|exact Hb]. }
  rewrite list_insert_insert_eq.
  match goal with
  | |- dunder_next _ (<[_ := ?o']> _) = _ =>
      apply (dunder_next_stop _ _ o' (length (p :: ps)));
        [apply list_lookup_insert_eq; exact Hlt|reflexivity|]
  end.
  simpl. rewrite Hps. simpl. lia.
Qed.

Lemma nested_iteration_stops_early_witness :
  exists outer x st1 st2,
    dunder_iter 0
      [ {| tfrecord_patterns := ["a"; "b"]; image_dirs := ["x"; "y"]; n := None |} ]
    = (Ok outer, st1)
    /\ dunder_next outer st1 = (Ok x, st2)
    /\ [x] = take 1 (zip ["a"; "b"] ["x"; "y"])
    /\ exists st3,
         to_list 3 0 st2 = Some (Ok (zip ["a"; "b"] ["x"; "y"]), st3)
         /\ dunder_next outer st3 = (Raise StopIteration, st3).
Proof.
  apply (nested_iteration_stops_early
           [ {| tfrecord_patterns := ["a"; "b"]; image_dirs := ["x"; "y"]; n := None |} ]
           0 {| tfrecord_patterns := ["a"; "b"]; image_dirs := ["x"; "y"]; n := None |}
           3); [reflexivity|reflexivity|simpl; lia].
Defined.

End DataSourceProtocol.

(** ** More on the inference helpers *)

Module InferenceMore.
Import Inference InferenceFacts StringFacts.

(** The number of values of an ascending range. *)
Lemma range_up_length budget : forall ndx stop step,
  (1 <= step)%Z ->
  (Z.to_nat (stop - ndx) <= budget)%nat ->
  length (range_up budget ndx stop step)
  = Z.to_nat ((stop - ndx + step - 1) / step).
Proof.
  induction budget as [|budget IH]; intros ndx stop step Hstep Hb; simpl.
  - assert (Hq : ((stop - ndx + step - 1) / step <= 0)%Z)
      by (apply Z.lt_succ_r, Z.div_lt_upper_bound; lia).
    lia.
  - destruct (Z.ltb_spec ndx stop) as [Hlt|Hge]; simpl.
    + rewrite IH by lia.
      replace (stop - ndx + step - 1)%Z with ((stop - (ndx + step) + step - 1) + 1 * step)%Z
        by lia.
      rewrite Z.div_add by lia.
      assert (0 <= (stop - (ndx + step) + step - 1) / step)%Z
        by (apply Z.div_pos; lia).
      lia.
    + assert (Hq : ((stop - ndx + step - 1) / step <= 0)%Z)
        by (apply Z.lt_succ_r, Z.div_lt_upper_bound; lia).
      lia.
Qed.

(** X11: for a batch size of at least 1, [batch_generator]
    yields [ceil(len / batch_size)] batches: [(len + batch_size - 1) //
    batch_size]; none for the empty list. *)
Theorem batch_generator_count (A : Type) (l : list A) (bs : Z) :
  (1 <= bs)%Z ->
  exists batches,
    batch_generator l bs = Ok batches
    /\ Z.of_nat (length batches) = ((Z.of_nat (length l) + bs - 1) / bs)%Z
    /\ (Z.of_nat (length l) <= Z.of_nat (length batches) * bs
        < Z.of_nat (length l) + bs)%Z
    /\ (batches = [] <-> l = []).
Proof.
  intros Hbs. unfold batch_generator, py_range.
  destruct (Z.eqb_spec bs 0) as [?|_]; [lia|].
  destruct (Z.ltb_spec 0 bs) as [_|?]; [|lia].
  cbn [rbind]. eexists. split; [reflexivity|].
  rewrite length_fmap, range_up_length by lia.
  replace (Z.of_nat (length l) - 0 + bs - 1)%Z with (Z.of_nat (length l) + bs - 1)%Z by lia.
  set (n := Z.of_nat (length l)). assert (Hn : (0 <= n)%Z) by lia.
  assert (Hq : (0 <= (n + bs - 1) / bs)%Z) by (apply Z.div_pos; lia).
  pose proof (Z.div_mod (n + bs - 1) bs ltac:(lia)) as Hdm.
  pose proof (Z.mod_pos_bound (n + bs - 1) bs ltac:(lia)) as Hmod.
  split; [lia|]. split; [rewrite Z2Nat.id by lia; nia|].
  split.
  - intros Hnil. apply fmap_nil_inv in Hnil.
    destruct l as [|x l']; [reflexivity|]. exfalso.
    assert (Hlen : length (range_up (Z.to_nat (n - 0)) 0 n bs) = 0%nat)
      by (rewrite Hnil; reflexivity).
    rewrite range_up_length in Hlen by lia.
    replace (n - 0 + bs - 1)%Z with (n + bs - 1)%Z in Hlen by lia.
    assert (0 < n)%Z by (subst n; simpl; lia). nia.
  - intros ->. reflexivity.
Qed.

Lemma batch_generator_count_witness :
  exists batches,
    batch_generator ["a.jpg"; "b.jpg"; "c.png"; "d.png"; "e.png"] 2 = Ok batches
    /\ Z.of_nat (length batches) = ((5 + 2 - 1) / 2)%Z.
Proof.
  destruct (batch_generator_count string ["a.jpg"; "b.jpg"; "c.png"; "d.png"; "e.png"] 2)
    as (batches & Hrun & Hlen & _); [lia|].
  exists batches. auto.
Defined.

(** X12: a batch size of 0 makes [batch_generator] fail
    with the [ValueError] of [range]; a negative batch size fails nowhere
    and yields no batch at all, whatever the list holds. *)
Theorem batch_generator_nonpositive (A : Type) (l : list A) (bs : Z) :
  (bs <= 0)%Z ->
  batch_generator l bs
  = if (bs =? 0)%Z then Raise (ValueError "range() arg 3 must not be zero")
    else Ok [].
Proof.
  intros Hbs. unfold batch_generator, py_range.
  destruct (Z.eqb_spec bs 0) as [?|Hne]; [reflexivity|].
  destruct (Z.ltb_spec 0 bs) as [?|_]; [lia|].
  cbn [rbind]. replace (Z.to_nat (0 - Z.of_nat (length l))) with 0%nat by lia.
  reflexivity.
Qed.

Lemma batch_generator_nonpositive_witness :
  batch_generator ["a.jpg"; "b.jpg"; "c.png"] (-2) = Ok [].
Proof.
  apply (batch_generator_nonpositive string ["a.jpg"; "b.jpg"; "c.png"] (-2)). lia.
Defined.

(** *** Label files *)

(** The text of a file that holds the lines given, each ended by a
    newline. *)
Lemma readlines_from_line (line : string) : forall cur rest,
  PyStr.contains_char PyStr.newline line = false ->
  PyStr.readlines_from cur (line ++ String PyStr.newline rest)
  = (cur ++ line ++ String PyStr.newline EmptyString) :: PyStr.readlines_from EmptyString rest.
Proof.
  induction line as [|c line IH]; intros cur rest Hline;
    unfold String.append; fold String.append; cbn [PyStr.readlines_from].
  - rewrite Ascii.eqb_refl. reflexivity.
  - cbn [PyStr.contains_char] in Hline. apply orb_false_iff in Hline as [Hc Hline].
    rewrite Ascii.eqb_sym, Hc. rewrite IH by exact Hline.
    rewrite append_assoc. reflexivity.
Qed.

Lemma readlines_lines (labels : list string) :
  Forall (fun label => PyStr.contains_char PyStr.newline label = false) labels ->
  PyStr.readlines
    (foldr (fun label text => label ++ String PyStr.newline text) EmptyString labels)
  = (fun label => label ++ String PyStr.newline EmptyString) <$> labels.
Proof.
  unfold PyStr.readlines. induction 1 as [|label labels Hlabel _ IH];
    cbn -[Ascii.eqb PyStr.newline PyStr.readlines_from].
  - reflexivity.
  - rewrite readlines_from_line by exact Hlabel.
    unfold String.append at 1; fold String.append.
    rewrite IH. reflexivity.
Qed.

(** X13: a label file written with one label per line,
    every line ended by a newline, is read back by [get_label_dict] as the
    labels numbered from 1. *)
Theorem get_label_dict_round_trip (labels : list string) :
  Forall (fun label => PyStr.contains_char PyStr.newline label = false) labels ->
  let text :=
    foldr (fun label text => label ++ String PyStr.newline text) EmptyString labels in
  get_label_dict text = imap (fun i label => ((Z.of_nat i + 1)%Z, label)) labels
  /\ forall i label,
       labels !! i = Some label ->
       PyDict.dict_get (Z.of_nat i + 1)%Z (get_label_dict text) = Some label.
Proof.
  intros Hlabels text.
  assert (Heq : get_label_dict text
                = imap (fun i label => ((Z.of_nat i + 1)%Z, label)) labels).
  { unfold get_label_dict, text. rewrite readlines_lines by exact Hlabels.
    rewrite imap_fmap. apply imap_ext. intros i label _. simpl.
    rewrite drop_last_append. reflexivity. }
  split; [exact Heq|].
  intros i label Hi. rewrite Heq.
  pose proof (dict_get_enumerate (fun s => s) labels 0 i) as Hget.
  simpl in Hget. rewrite Hi in Hget. simpl in Hget. exact Hget.
Qed.

Lemma get_label_dict_round_trip_witness :
  get_label_dict ("person" ++ String PyStr.newline ("traffic light" ++ String PyStr.newline ""))
  = [(1%Z, "person"); (2%Z, "traffic light")].
Proof.
  apply (get_label_dict_round_trip ["person"; "traffic light"]).
  repeat constructor.
Defined.

End InferenceMore.

(** ** Attributes of a [Config] *)

Module ConfigAccess.
Import HParams PyDict HParamsFacts ConfigIsolation DetectionConfig.

Lemma mfor_app {S A} (body : A -> M S unit) (l1 l2 : list A) : forall s s',
  mfor body l1 s = (Ok tt, s') -> mfor body (l1 ++ l2) s = mfor body l2 s'.
Proof.
  induction l1 as [|x l1 IH]; intros s s' Hrun; cbn [mfor app] in *.
  - unfold ret in Hrun. injection Hrun as <-. reflexivity.
  - unfold bind in *. destruct (body x s) as [[[]|e] s1]; [|discriminate].
    apply IH. exact Hrun.
Qed.

Lemma dict_get_None {V} (k : string) (d : list (string * V)) :
  dict_get k d = None <-> k ∉ d.*1.
Proof.
  split; [|apply dict_get_absent].
  induction d as [|[k' v] d IH]; simpl; [intros _; apply not_elem_of_nil|].
  destruct (decide (k = k')) as [->|Hne]; [discriminate|].
  intros Hd. apply not_elem_of_cons. auto.
Qed.

Lemma dict_set_keys_present {V} (k : string) (v : V) (d : list (string * V)) :
  k ∈ d.*1 -> (dict_set k v d).*1 = d.*1.
Proof.
  induction d as [|[k' v'] d IH]; simpl; [intros Hin; apply elem_of_nil in Hin; contradiction|].
  destruct (decide (k = k')) as [->|Hne]; simpl; [reflexivity|].
  intros Hin. apply elem_of_cons in Hin as [?|Hin]; [congruence|].
  f_equal. apply IH. exact Hin.
Qed.

Lemma overridden_keys (kwargs : list (string * tree)) : forall dt,
  Forall (fun kt => kt.1 ∈ dt.*1) kwargs -> (overridden dt kwargs).*1 = dt.*1.
Proof.
  unfold overridden.
  induction kwargs as [|[k t] kwargs IH]; intros dt Hall; simpl; [reflexivity|].
  apply Forall_cons in Hall as [Hk Hall]. simpl in Hk.
  rewrite IH; [apply dict_set_keys_present; exact Hk|].
  rewrite dict_set_keys_present by exact Hk. exact Hall.
Qed.

Lemma dict_get_overridden_present (k : string) (t : tree) (kwargs : list (string * tree)) :
  forall dt,
    NoDup (kwargs.*1) -> dict_get k kwargs = Some t ->
    dict_get k (overridden dt kwargs) = Some t.
Proof.
  unfold overridden.
  induction kwargs as [|[k' t'] kwargs IH]; intros dt Hnd Hget; simpl in *; [discriminate|].
  apply NoDup_cons in Hnd as [Hfresh Hnd].
  destruct (decide (k = k')) as [->|Hne].
  - injection Hget as ->.
    rewrite dict_get_overridden by (apply dict_get_None; exact Hfresh).
    rewrite dict_get_dict_set, decide_True by reflexivity. reflexivity.
  - apply IH; assumption.
Qed.

(** A config made by assigning literals to the attributes of a new
    [Config]. *)
Lemma config_of_literals_run depth (h : list obj) assignments :
  (1 <= depth)%nat ->
  NoDup (assignments.*1) ->
  Forall (fun kt => literal_ok depth kt.2 = true) assignments ->
  exists h' members,
    config_of_literals depth assignments h = (Ok (length h), h')
    /\ h `prefix_of` h'
    /\ h' !! length h = Some (OConfig members)
    /\ Forall2 (keyed (fun v t => creify (S (length h)) depth h' v = Some t))
         members assignments.
Proof.
  intros Hdepth Hnd Hlit.
  destruct (assign_literals depth h (length h) (le_n _) assignments [] []
              (h ++ [OConfig []])%list)
    as (h' & final & Hloop & Hp' & Hl' & Hf'); try assumption.
  - apply prefix_alloc.
  - apply lookup_alloc.
  - constructor.
  - exists h', final. split; [|auto].
    destruct depth as [|depth]; [lia|].
    assert (Hnew : new_config (S depth) VNone h
                   = (Ok (length h), (h ++ [OConfig []])%list)) by reflexivity.
    unfold config_of_literals.
    rewrite (bind_ok _ _ _ _ _ Hnew), (bind_ok _ _ _ _ _ Hloop). reflexivity.
Qed.



(** *** Overriding with an unknown key *)

(** [default_detection_configs] is such a sequence of assignments. *)
Lemma default_detection_configs_literals depth :
  default_detection_configs depth = config_of_literals depth default_assignments.
Proof. reflexivity. Qed.

(** [override] with a dictionary: the keys before the first unknown one
    are assigned, then [KeyError] is raised. *)
Lemma override_stops_at_unknown_key `{Runtime} n (h0 : list obj) c (hcur : list obj) p
    pre k t rest members done_t :
  (length h0 <= c)%nat ->
  h0 `prefix_of` hcur ->
  hcur !! c = Some (OConfig members) ->
  Forall2 (keyed (fun v t => creify (S c) (S n) hcur v = Some t)) members done_t ->
  reify (S c) (S n) hcur p = Some (TDict (pre ++ (k, t) :: rest)) ->
  wf_tree (TDict (pre ++ (k, t) :: rest)) = true ->
  Forall (fun kt => exists t_cur, dict_get kt.1 done_t = Some t_cur
                                  /\ not_dict t_cur = true) pre ->
  dict_get k done_t = None ->
  exists h' final,
    override (S n) c p false hcur = (Raise (KeyError (key_error_msg k)), h')
    /\ h0 `prefix_of` h'
    /\ h' !! c = Some (OConfig final)
    /\ Forall2 (keyed (fun v t => creify (S c) (S n) h' v = Some t)) final
         (overridden done_t pre).
Proof.
  intros Hc Hp Hlook Hdone Hread Hwf Hcur Hnew.
  pose proof (is_dict_reads _ _ _ _ _ Hread) as Hisdict.
  destruct p as [| | | | |a]; try discriminate Hread.
  apply reify_ref in Hread.
  destruct Hread as (n' & o & [= <-] & Hlo & Ha & Hobj).
  destruct o as [items|items|items|items]; simpl in Hobj; try contradiction;
    destruct Hobj as (ts & Hts & Ht); try discriminate.
  injection Ht as <-.
  apply wf_tree_dict in Hwf as [Hnd Hwf].
  apply Forall2_app_inv_r in Hts as (items1 & items2 & Hts1 & Hts2 & ->).
  apply Forall2_cons_inv_r in Hts2 as ([k' v] & items3 & [Hk Hv] & Hts3 & ->).
  simpl in Hk, Hv. subst k'.
  assert (Htruthy : truthy (VRef a) hcur = (Ok true, hcur)).
  { unfold truthy. rewrite (bind_ok _ _ _ _ _ (load_ok hcur a _ Ha)).
    rewrite length_app. cbn [length]. rewrite Nat.add_succ_r. reflexivity. }
  eassert (Hunfold : _update (S n) c (VRef a) false hcur
                     = mfor _ (items1 ++ (k, v) :: items3) hcur).
  { cbn [_update]. rewrite (bind_ok _ _ _ _ _ Htruthy).
    cbn [negb]. unfold load_dict.
    rewrite (bind_ok _ _ _ _ _ (bind_ok _ _ _ _ _ (load_ok hcur a _ Ha))).
    reflexivity. }
  rewrite fmap_app, fmap_cons in Hnd. cbn [fst] in Hnd.
  apply NoDup_app in Hnd as (Hnd1 & Hdisj & Hnd2).
  match type of Hunfold with
  | _ = mfor ?body _ _ =>
      assert (Hpre : exists h' final,
        mfor body items1 hcur = (Ok tt, h')
        /\ h0 `prefix_of` h'
        /\ h' !! c = Some (OConfig final)
        /\ Forall2 (keyed (fun v t => creify (S c) (S n) h' v = Some t)) final
             (overridden done_t pre));
      [apply (override_loop n h0 c body Hc) with (members := members);
       try assumption|]
  end.
  - intros kv hc ms cur b Hl Hget Hcfg Hdict Hvcfg. cbn beta zeta.
    rewrite (bind_ok _ _ _ _ _ (load_config_ok hc c ms Hl)), Hget.
    rewrite (bind_ok _ _ _ _ _ Hcfg), (bind_ok _ _ _ _ _ Hdict),
      (bind_ok _ _ _ _ _ Hvcfg).
    reflexivity.
  - rewrite <- (keyed_keys _ _ _ Hts1). exact Hnd1.
  - apply Forall_forall. intros kt Hin.
    rewrite Forall_forall in Hwf, Hcur. split; [|apply Hcur; exact Hin].
    apply Hwf. apply elem_of_app. left. exact Hin.
  - destruct Hpre as (h' & final & Hrun & Hp' & Hl' & Hf').
    exists h', final. split; [|auto].
    unfold override. rewrite (bind_ok _ _ _ _ _ Hisdict), Hunfold.
    rewrite (mfor_app _ _ _ _ _ Hrun). cbn [mfor].
    assert (Hnone : dict_get k final = None).
    { apply dict_get_None. rewrite <- (keyed_keys _ _ _ Hf'). apply dict_get_None.
      unfold overridden. rewrite dict_get_overridden; [exact Hnew|].
      apply dict_get_None. intros Hin. apply (Hdisj k Hin). left. }
    unfold bind at 1. cbn beta zeta.
    rewrite (bind_ok _ _ _ _ _ (load_config_ok h' c final Hl')).
    cbn [fst snd]. rewrite Hnone. reflexivity.
Qed.



End ConfigAccess.

(** ** Arguments that [override] and [update] do not take *)

Module ConfigArguments.
Import HParams PyDict HParamsFacts ConfigIsolation DetectionConfig StringFacts.





End ConfigArguments.

(** ** [parse_from_str] *)

Module ParseFromStr.
Import HParams PyDict HParamsFacts ConfigIsolation DetectionConfig StringFacts.

Lemma reraise_ok {S A} (m : M S A) msg s a s' :
  m s = (Ok a, s') -> reraise_value_error m msg s = (Ok a, s').
Proof. intros Hm. unfold reraise_value_error. rewrite Hm. reflexivity. Qed.

Lemma reraise_value_error_raised {S A} (m : M S A) msg s msg' s' :
  m s = (Raise (ValueError msg'), s') ->
  reraise_value_error m msg s = (Raise (ValueError msg), s').
Proof. intros Hm. unfold reraise_value_error. rewrite Hm. reflexivity. Qed.

(** X18: [parse_from_str] fails with the [ValueError]
    "Invalid config_str: ..." when the first comma-separated piece of the
    string is not empty and does not consist of exactly one key and one
    value around a single "=": the piece has no "=" or more than one.
    The empty string parses to the empty dictionary. *)
Theorem parse_from_str_malformed `{Runtime} (depth : nat) (config_str : string)
    (h : list obj) :
  (forall piece pieces,
     PyStr.split ","%char config_str = piece :: pieces ->
     piece <> "" ->
     length (PyStr.split "="%char piece) <> 2%nat ->
     parse_from_str depth config_str h
     = (Raise (ValueError ("Invalid config_str: " ++ config_str)),
        (h ++ [ODict []])%list))
  /\ (forall piece pieces,
        PyStr.split ","%char config_str = piece :: pieces ->
        piece <> "" ->
        PyStr.contains_char "="%char piece = false ->
        parse_from_str depth config_str h
        = (Raise (ValueError ("Invalid config_str: " ++ config_str)),
           (h ++ [ODict []])%list))
  /\ parse_from_str depth "" h = (Ok (VRef (length h)), (h ++ [ODict []])%list).
Proof.
  assert (Hmain : forall piece pieces,
     PyStr.split ","%char config_str = piece :: pieces ->
     piece <> "" ->
     length (PyStr.split "="%char piece) <> 2%nat ->
     parse_from_str depth config_str h
     = (Raise (ValueError ("Invalid config_str: " ++ config_str)),
        (h ++ [ODict []])%list)).
  { intros piece pieces Hsplit Hpiece Hparts. unfold parse_from_str.
    destruct (String.eqb_spec config_str EmptyString) as [->|_].
    { unfold PyStr.split in Hsplit. cbn in Hsplit. congruence. }
    unfold alloc. unfold bind at 1.
    eapply reraise_value_error_raised. rewrite Hsplit. cbn [mfor].
    unfold bind at 1 2.
    destruct (String.eqb_spec piece EmptyString) as [?|_]; [congruence|].
    destruct (PyStr.split "="%char piece) as [|k [|v [|x parts]]];
      cbn [length] in Hparts; try reflexivity.
    congruence. }
  split; [exact Hmain|]. split; [|reflexivity].
  intros piece pieces Hsplit Hpiece Hnone.
  apply (Hmain piece pieces Hsplit Hpiece).
  rewrite split_absent by exact Hnone. cbn [length]. lia.
Qed.

Lemma parse_from_str_malformed_witness :
  @parse_from_str decimal_runtime 1 "num_classes" []
  = (Raise (ValueError "Invalid config_str: num_classes"), [ODict []]).
Proof.
  apply (proj1 (proj2 (@parse_from_str_malformed decimal_runtime 1 "num_classes" []))
           "num_classes" []); [reflexivity|discriminate|reflexivity].
Defined.

Section Values.
Context `{Runtime}.

(** What [eval_str_fn] makes of the text of a value. *)
Lemma eval_str_fn_reads (val : string) (h : list obj) :
  exists x h',
    eval_str_fn val h = (Ok x, h')
    /\ h `prefix_of` h'
    /\ reify (length h) (tree_depth (eval_str_tree val)) h' x = Some (eval_str_tree val).
Proof.
  unfold eval_str_fn, eval_str_tree. destruct (PyStr.str_in val ["true"; "false"]).
  - exists (VBool (String.eqb val "true")), h. split; [reflexivity|].
    split; reflexivity.
  - destruct (literal_eval val) as [t|].
    + apply build_reads.
    + exists (VStr val), h. split; [reflexivity|]. split; reflexivity.
Qed.

Lemma mmap_eval_reads (vals : list string) (m : nat) :
  (forall val, val ∈ vals -> (tree_depth (eval_str_tree val) <= m)%nat) ->
  forall h : list obj, exists xs h',
    mmap eval_str_fn vals h = (Ok xs, h')
    /\ h `prefix_of` h'
    /\ Forall2 (fun x val => reify (length h) m h' x = Some (eval_str_tree val)) xs vals.
Proof.
  induction vals as [|val vals IH]; intros Hm h.
  - exists [], h. split; [reflexivity|]. split; [reflexivity|constructor].
  - destruct (eval_str_fn_reads val h) as (x & h1 & Hrun & Hp1 & Hx).
    destruct (IH (fun v Hin => Hm v (list_elem_of_further _ _ _ Hin)) h1)
      as (xs & h2 & Hruns & Hp2 & Hxs).
    exists (x :: xs), h2. split; [|split; [etrans; eassumption|]].
    + cbn [mmap]. rewrite (bind_ok _ _ _ _ _ Hrun), (bind_ok _ _ _ _ _ Hruns).
      reflexivity.
    + constructor.
      * eapply (reify_prefix (length h) (length h)); [lia|exact Hp2|].
        eapply reify_deeper; [|exact Hx]. apply Hm. apply list_elem_of_here.
      * eapply Forall2_impl; [exact Hxs|]. intros x' val'.
        apply reify_prefix; [apply prefix_length; exact Hp1|reflexivity].
Qed.

(** [add_kv_recursive] on a key without dot: a new dictionary with the
    one key. *)
Lemma add_kv_flat (depth : nat) (k v : string) (h : list obj) :
  PyStr.contains_char "."%char k = false ->
  exists a x h',
    add_kv_recursive depth k v h = (Ok (VRef a), h')
    /\ h `prefix_of` h'
    /\ (length h <= a)%nat
    /\ h' !! a = Some (ODict [(k, x)])
    /\ reify (length h) (tree_depth (value_tree v)) h' x = Some (value_tree v).
Proof.
  intros Hdot.
  assert (Hunfold : add_kv_recursive depth k v
                    = if PyStr.contains_char "*"%char v then
                        items <- mmap eval_str_fn (PyStr.split "*"%char v) ;;
                        l <- alloc (OList items) ;;
                        d <- alloc (ODict [(k, VRef l)]) ;;
                        ret (VRef d)
                      else
                        x <- eval_str_fn v ;;
                        d <- alloc (ODict [(k, x)]) ;;
                        ret (VRef d)).
  { destruct depth; cbn [add_kv_recursive]; rewrite find_char_absent by exact Hdot;
      reflexivity. }
  rewrite Hunfold. unfold value_tree. clear Hunfold.
  destruct (PyStr.contains_char "*"%char v).
  - set (vals := PyStr.split "*"%char v).
    set (m := foldr (fun t acc => Nat.max (tree_depth t) acc) O (eval_str_tree <$> vals)).
    destruct (mmap_eval_reads vals m) with (h := h) as (xs & h1 & Hrun & Hp1 & Hxs).
    { intros val Hin. apply tree_depth_member. apply list_elem_of_fmap. eauto. }
    exists (S (length h1)), (VRef (length h1)),
      ((h1 ++ [OList xs]) ++ [ODict [(k, VRef (length h1))]])%list.
    split; [|split; [|split; [|split]]].
    + rewrite (bind_ok _ _ _ _ _ Hrun). unfold alloc, bind, ret.
      rewrite length_app. cbn [length]. rewrite Nat.add_1_r. reflexivity.
    + etrans; [exact Hp1|]. etrans; apply prefix_alloc.
    + apply prefix_length in Hp1. lia.
    + replace (S (length h1)) with (length (h1 ++ [OList xs])%list)
        by (rewrite length_app; cbn [length]; lia).
      apply lookup_alloc.
    + cbn [tree_depth]. fold m.
      eapply (reify_prefix (length h) (length h)); [lia|apply prefix_alloc|].
      apply reify_alloc; [apply prefix_length; exact Hp1|].
      exists (eval_str_tree <$> vals). split; [|reflexivity].
      apply Forall2_fmap_r. exact Hxs.
  - destruct (eval_str_fn_reads v h) as (x & h1 & Hrun & Hp1 & Hx).
    exists (length h1), x, (h1 ++ [ODict [(k, x)]])%list.
    split; [|split; [|split; [|split]]].
    + rewrite (bind_ok _ _ _ _ _ Hrun). reflexivity.
    + etrans; [exact Hp1|apply prefix_alloc].
    + apply prefix_length. exact Hp1.
    + apply lookup_alloc.
    + eapply (reify_prefix (length h) (length h)); [lia|apply prefix_alloc|exact Hx].
Qed.

Lemma tree_depth_nested (ks : list string) (t : tree) :
  tree_depth (nested ks t) = (length ks + tree_depth t)%nat.
Proof.
  induction ks as [|k ks IH]; [reflexivity|].
  cbn [nested foldr tree_depth snd length]. fold (nested ks t). rewrite IH. lia.
Qed.

(** [add_kv_recursive] on a dotted key: one dictionary per component. *)
Lemma add_kv_dotted (v : string) (ks : list string) : forall k depth (h : list obj),
  Forall (fun k => PyStr.contains_char "."%char k = false) (k :: ks) ->
  (length ks <= depth)%nat ->
  exists a x h',
    add_kv_recursive depth (dotted k ks) v h = (Ok (VRef a), h')
    /\ h `prefix_of` h'
    /\ (length h <= a)%nat
    /\ h' !! a = Some (ODict [(k, x)])
    /\ reify (length h) (length ks + tree_depth (value_tree v)) h' x
       = Some (nested ks (value_tree v)).
Proof.
  induction ks as [|k' ks IH]; intros k depth h Hkeys Hdepth.
  - apply Forall_cons in Hkeys as [Hk _]. apply add_kv_flat. exact Hk.
  - apply Forall_cons in Hkeys as [Hk Hkeys].
    destruct depth as [|depth]; [cbn in Hdepth; lia|].
    destruct (IH k' depth h Hkeys ltac:(cbn in Hdepth; lia))
      as (a & x & h1 & Hrun & Hp1 & Ha & Hl1 & Hx).
    cbn [dotted].
    change (k ++ "." ++ dotted k' ks) with (k ++ String "."%char (dotted k' ks)).
    exists (length h1), (VRef a), (h1 ++ [ODict [(k, VRef a)]])%list.
    split; [|split; [|split; [|split]]].
    + cbn [add_kv_recursive]. rewrite find_char_first by exact Hk.
      rewrite substring_after_char, substring_prefix.
      rewrite (bind_ok _ _ _ _ _ Hrun). reflexivity.
    + etrans; [exact Hp1|apply prefix_alloc].
    + apply prefix_length. exact Hp1.
    + apply lookup_alloc.
    + cbn [length Nat.add nested foldr]. fold (nested ks (value_tree v)).
      apply reify_ref. exists (length ks + tree_depth (value_tree v))%nat, (ODict [(k', x)]).
      split; [reflexivity|]. split; [exact Ha|].
      split; [apply lookup_app_l_Some; exact Hl1|].
      exists [(k', nested ks (value_tree v))]. split; [|reflexivity].
      constructor; [|constructor]. split; [reflexivity|]. cbn [snd].
      eapply (reify_prefix (length h) (length h)); [lia|apply prefix_alloc|exact Hx].
Qed.

(** [merge_dict_recursive] with a source of one key that the target does
    not have: the target gets the key, with the very value of the source. *)
Lemma merge_new_key (n : nat) (h : list obj) c src items k x :
  h !! c = Some (ODict items) ->
  h !! src = Some (ODict [(k, x)]) ->
  dict_get k items = None ->
  merge_dict_recursive (S n) (VRef c) (VRef src) h
  = (Ok tt, <[c := ODict (items ++ [(k, x)])]> h).
Proof.
  intros Hc Hsrc Hnew. cbn [merge_dict_recursive]. unfold load_dict at 1.
  rewrite (bind_ok _ _ _ _ _ (bind_ok _ _ _ _ _ (load_ok h src _ Hsrc))).
  cbn [mfor fst]. unfold load_dict. unfold bind at 1.
  rewrite (bind_ok _ _ _ _ _ (bind_ok _ _ _ _ _ (load_ok h c _ Hc))).
  rewrite (bind_ok _ _ _ _ _ (bind_ok _ _ _ _ _ (load_ok h src _ Hsrc))).
  cbn [dict_get]. rewrite decide_True by reflexivity. rewrite Hnew.
  unfold dict_setitem.
  rewrite (bind_ok _ _ _ _ _ (load_ok h c _ Hc)).
  rewrite dict_set_absent by (apply ConfigAccess.dict_get_None; exact Hnew).
  reflexivity.
Qed.

(** The loop of [parse_from_str] over pieces "key=value" whose keys are
    new. *)
Lemma parse_loop (n c m : nat) : forall (kvs : list (string * string)) items done_t
    (hcur : list obj),
  hcur !! c = Some (ODict items) ->
  Forall2 (keyed (fun x t => reify (S c) m hcur x = Some t)) items done_t ->
  NoDup (items.*1 ++ ((fun kv => PyStr.strip kv.1) <$> kvs)) ->
  Forall (fun kv => PyStr.contains_char "."%char kv.1 = false
                    /\ PyStr.contains_char "="%char kv.1 = false
                    /\ PyStr.contains_char "="%char kv.2 = false
                    /\ (tree_depth (value_tree kv.2) <= m)%nat) kvs ->
  exists h' final,
    mfor (fun kv_pair =>
            if String.eqb kv_pair EmptyString then ret tt
            else match PyStr.split "="%char kv_pair with
                 | [key_str; value_str] =>
                     let key_str := PyStr.strip key_str in
                     src <- add_kv_recursive (S n) key_str value_str ;;
                     merge_dict_recursive (S n) (VRef c) src
                 | _ => raise (ValueError "wrong number of values to unpack")
                 end)
      ((fun kv => kv.1 ++ "=" ++ kv.2) <$> kvs) hcur = (Ok tt, h')
    /\ h' !! c = Some (ODict final)
    /\ (forall h0 : list obj, h0 `prefix_of` hcur -> (length h0 <= c)%nat ->
                              h0 `prefix_of` h')
    /\ Forall2 (keyed (fun x t => reify (S c) m h' x = Some t)) final
         (done_t ++ ((fun kv => (PyStr.strip kv.1, value_tree kv.2)) <$> kvs)).
Proof.
  induction kvs as [|[k v] kvs IH]; intros items done_t hcur Hc Hitems Hnd Hok.
  - exists hcur, items. rewrite app_nil_r. auto.
  - apply Forall_cons in Hok as [(Hdot & Hkeq & Hveq & Hdepth) Hok]. cbn [fst snd] in *.
    rewrite fmap_cons in Hnd. cbn [fst] in Hnd.
    set (k' := PyStr.strip k) in *.
    assert (Hfresh : k' ∉ items.*1).
    { intros Hin. apply NoDup_app in Hnd as (_ & Hdisj & _).
      apply (Hdisj k' Hin). apply list_elem_of_here. }
    assert (Hclt : (c < length hcur)%nat) by (eapply lookup_lt_Some; exact Hc).
    destruct (add_kv_flat (S n) k' v hcur) as (a & x & h2 & Hadd & Hp2 & Ha & Hl2 & Hx).
    { apply contains_char_strip. exact Hdot. }
    assert (Hc2 : h2 !! c = Some (ODict items)) by (eapply prefix_lookup_Some; eassumption).
    assert (Hclt2 : (c < length h2)%nat) by (eapply lookup_lt_Some; exact Hc2).
    pose proof (merge_new_key n h2 c a items k' x Hc2 Hl2
                  (proj2 (ConfigAccess.dict_get_None k' items) Hfresh)) as Hmerge.
    set (h3 := <[c := ODict (items ++ [(k', x)])]> h2) in *.
    destruct (IH (items ++ [(k', x)])%list (done_t ++ [(k', value_tree v)])%list h3)
      as (h' & final & Hloop & Hl' & Hp' & Hf').
    + apply list_lookup_insert_eq. exact Hclt2.
    + apply Forall2_app.
      * eapply keyed_impl; [exact Hitems|]. intros x0 t0 H0. cbv beta.
        apply reify_insert; [lia|].
        eapply (reify_prefix (S c) (S c)); [lia|exact Hp2|exact H0].
      * constructor; [|constructor]. split; [reflexivity|]. cbn [snd].
        apply reify_insert; [lia|].
        apply (reify_frame (length hcur) (S c) h2 h2); [lia|auto|].
        eapply reify_deeper; [|exact Hx]. exact Hdepth.
    + rewrite fmap_app, <- app_assoc. exact Hnd.
    + exact Hok.
    + exists h', final. split; [|split; [exact Hl'|split]].
      * rewrite fmap_cons. cbn [mfor fst snd].
        assert (Hne : String.eqb (k ++ "=" ++ v) EmptyString = false)
          by (destruct k; reflexivity).
        assert (Hsplit : PyStr.split "="%char (k ++ "=" ++ v) = [k; v]).
        { change (k ++ "=" ++ v) with (k ++ String "="%char v).
          rewrite split_first by exact Hkeq. rewrite split_absent by exact Hveq.
          reflexivity. }
        rewrite Hne, Hsplit. cbv zeta. fold k'.
        unfold bind at 1. rewrite (bind_ok _ _ _ _ _ Hadd), Hmerge. exact Hloop.
      * intros h0 Hp0 Hlen0. apply Hp'; [|exact Hlen0].
        apply prefix_insert_beyond; [|exact Hlen0]. etrans; eassumption.
      * rewrite <- app_assoc in Hf'. exact Hf'.
Qed.

(** The pieces of the text of a list of pairs. *)
Lemma split_assignments_text (kvs : list (string * string)) : forall kv,
  Forall (fun kv => PyStr.contains_char ","%char kv.1 = false
                    /\ PyStr.contains_char ","%char kv.2 = false) (kv :: kvs) ->
  PyStr.split ","%char (assignments_text kv kvs)
  = (fun kv => kv.1 ++ "=" ++ kv.2) <$> (kv :: kvs).
Proof.
  induction kvs as [|kv' kvs IH]; intros kv Hall;
    apply Forall_cons in Hall as [[Hk Hv] Hall]; cbn [assignments_text].
  - rewrite split_absent; [reflexivity|].
    rewrite !contains_char_append, Hk, Hv. reflexivity.
  - replace (kv.1 ++ "=" ++ kv.2 ++ "," ++ assignments_text kv' kvs)
      with ((kv.1 ++ "=" ++ kv.2) ++ String ","%char (assignments_text kv' kvs))
      by (rewrite !append_assoc; reflexivity).
    rewrite split_first by (rewrite !contains_char_append, Hk, Hv; reflexivity).
    rewrite IH by exact Hall. reflexivity.
Qed.

End Values.





End ParseFromStr.

(** ** Every preset of the table *)

Module PresetTable.
Import HParams PyDict HParamsFacts ConfigIsolation DetectionConfig ConfigAccess.

Lemma dict_get_elem_of {V} (k : string) (v : V) (d : list (string * V)) :
  dict_get k d = Some v -> (k, v) ∈ d.
Proof.
  induction d as [|[k' v'] d IH]; simpl; [discriminate|].
  destruct (decide (k = k')) as [->|_].
  - intros [= ->]. apply list_elem_of_here.
  - intros Hd. apply list_elem_of_further. auto.
Qed.

(** What the proof below needs of a preset: its values are plain data,
    its keys are attributes of the defaults that hold no dictionary, its
    name passes the prefix test, it sets "name" to its own name and leaves
    "model_name" alone. *)
Lemma presets_checked (model_name : string) (kwargs : list (string * tree)) :
  (model_name, kwargs) ∈ efficientdet_model_param_dict ->
  literal_ok 1 (TDict kwargs) = true
  /\ Forall (fun kt => exists t_cur, dict_get kt.1 default_assignments = Some t_cur
                                     /\ not_dict t_cur = true) kwargs
  /\ String.prefix "efficientdet" model_name || String.prefix "resdet" model_name = true
  /\ dict_get "name" kwargs = Some (TStr model_name)
  /\ dict_get "model_name" kwargs = None.
Proof.
  intros Hin.
  assert (Hall : forallb (fun nk : string * list (string * tree) =>
    literal_ok 1 (TDict nk.2)
    && forallb (fun kt : string * tree =>
                  match dict_get kt.1 default_assignments with
                  | Some t_cur => not_dict t_cur
                  | None => false
                  end) nk.2
    && (String.prefix "efficientdet" nk.1 || String.prefix "resdet" nk.1)
    && match dict_get "name" nk.2 with
       | Some (TStr s) => String.eqb s nk.1
       | _ => false
       end
    && match dict_get "model_name" nk.2 with
       | None => true
       | Some _ => false
       end) efficientdet_model_param_dict = true) by (vm_compute; reflexivity).
  rewrite forallb_forall in Hall. apply list_elem_of_In in Hin.
  specialize (Hall _ Hin). cbn [fst snd] in Hall.
  apply andb_true_iff in Hall as [Hall Hmodel].
  apply andb_true_iff in Hall as [Hall Hname].
  apply andb_true_iff in Hall as [Hall Hprefix].
  apply andb_true_iff in Hall as [Hlit Hkeys].
  split; [exact Hlit|]. split; [|split; [exact Hprefix|split]].
  - apply Forall_forall. intros kt Hkt.
    rewrite forallb_forall in Hkeys. apply list_elem_of_In in Hkt.
    specialize (Hkeys kt Hkt).
    destruct (dict_get kt.1 default_assignments) as [t_cur|]; [|discriminate].
    exists t_cur. auto.
  - destruct (dict_get "name" kwargs) as [[| | | |s| | |]|]; try discriminate.
    apply String.eqb_eq in Hname. rewrite Hname. reflexivity.
  - destruct (dict_get "model_name" kwargs); [discriminate|reflexivity].
Qed.

(** X21: for every model name of the preset table,
    [get_detection_config] succeeds and returns a new config with exactly
    the attributes of the defaults, in their order: the keys of the preset
    hold the preset's values and all others the defaults.  The attribute
    [name] is the model name asked for, while [model_name] is
    "efficientdet-d0" whatever the preset. *)
Theorem every_preset_loads `{Runtime} (depth : nat) (h : list obj)
    (model_name : string) (kwargs : list (string * tree)) :
  (2 <= depth)%nat ->
  dict_get model_name efficientdet_model_param_dict = Some kwargs ->
  exists c h',
    get_detection_config depth model_name h = (Ok c, h')
    /\ h `prefix_of` h'
    /\ creify (length h) (S depth) h' (VRef c)
       = Some (TDict (overridden default_assignments kwargs))
    /\ keys c h' = (Ok (default_assignments.*1), h')
    /\ getattr c "name" h' = (Ok (VStr model_name), h')
    /\ getattr c "model_name" h' = (Ok (VStr "efficientdet-d0"), h')
    /\ (forall k t, dict_get k kwargs = Some t ->
                    dict_get k (overridden default_assignments kwargs) = Some t)
    /\ (forall k, dict_get k kwargs = None ->
                  dict_get k (overridden default_assignments kwargs)
                  = dict_get k default_assignments).
Proof.
  intros Hdepth Hkw.
  destruct (presets_checked model_name kwargs (dict_get_elem_of _ _ _ Hkw))
    as (Hlit & Hcur & Hprefix & Hname & Hmodel).
  assert (Hlit' : literal_ok depth (TDict kwargs) = true).
  { apply literal_ok_spec in Hlit as [Hd Hwf]. unfold literal_ok.
    apply andb_true_iff. split; [apply Nat.leb_le; lia|exact Hwf]. }
  destruct (get_efficientdet_config_run depth h model_name kwargs Hdepth Hkw Hlit' Hcur)
    as (h' & final & Hrun & Hp & Hl & Hf).
  assert (Hnd : NoDup (kwargs.*1)).
  { apply literal_ok_spec in Hlit as [_ Hwf]. apply wf_tree_dict in Hwf as [Hnd _].
    exact Hnd. }
  assert (Hkeys : (overridden default_assignments kwargs).*1 = default_assignments.*1).
  { apply overridden_keys. eapply Forall_impl; [exact Hcur|].
    intros kt (t_cur & Hget & _). apply dict_get_elem_of in Hget.
    apply list_elem_of_fmap. exists (kt.1, t_cur). auto. }
  exists (length h), h'.
  split; [unfold get_detection_config; rewrite Hprefix; exact Hrun|].
  split; [exact Hp|]. split.
  { apply (creify_config _ _ _ _ _ _ Hl).
    exists depth, (overridden default_assignments kwargs).
    split; [reflexivity|]. split; [lia|]. split; [reflexivity|].
    eapply keyed_impl; [exact Hf|]. intros v t. apply creify_frame; [lia|auto]. }
  split.
  { unfold keys. rewrite (bind_ok _ _ _ _ _ (load_config_ok _ _ _ Hl)).
    unfold ret. rewrite <- (keyed_keys _ _ _ Hf), Hkeys. reflexivity. }
  split.
  { eapply (getattr_scalar _ _ _ _ _ _ _ (TStr model_name) _ Hl Hf);
      try discriminate; [|reflexivity].
    apply dict_get_overridden_present; assumption. }
  split.
  { eapply (getattr_scalar _ _ _ _ _ _ _ (TStr "efficientdet-d0") _ Hl Hf);
      try discriminate; [|reflexivity].
    unfold overridden. rewrite dict_get_overridden by exact Hmodel.
    vm_compute. reflexivity. }
  split.
  - intros k t Hk. apply dict_get_overridden_present; assumption.
  - intros k Hk. apply dict_get_overridden. exact Hk.
Qed.

Lemma every_preset_loads_witness :
  exists c h',
    @get_detection_config decimal_runtime 2 "resdet34" ab_heap = (Ok c, h')
    /\ getattr c "name" h' = (Ok (VStr "resdet34"), h')
    /\ getattr c "model_name" h' = (Ok (VStr "efficientdet-d0"), h').
Proof.
  destruct (@every_preset_loads decimal_runtime 2 ab_heap "resdet34"
              (preset "resdet34" "resnet34" 512 88 4 3 []))
    as (c & h' & Hrun & _ & _ & _ & Hname & Hmodel & _); [lia|reflexivity|].
  exists c, h'. auto.
Defined.

End PresetTable.

(** ** Evaluation schedule and step counts *)

Module ScheduleFacts.
Import EvalCallback Train.
Local Open Scope Z_scope.

(** X22: [on_epoch_end] calls [evaluate] after the epochs
    whose 1-based number is a multiple of [eval_freq] and at least
    [start_eval_epoch].  With [eval_freq >= 1] the first such epoch has the
    number [eval_freq * max(1, ceil(start_eval_epoch / eval_freq))], and no
    call fails; with [eval_freq = 0] the callback raises
    [ZeroDivisionError] at the end of every epoch from [start_eval_epoch]
    on, and at none before. *)
Theorem evaluation_schedule (start_eval_epoch eval_freq epoch : Z) :
  (eval_freq <> 0 ->
   exists b,
     evaluates start_eval_epoch eval_freq epoch = Value b
     /\ (b = true <->
         start_eval_epoch <= epoch + 1 /\ exists k, epoch + 1 = k * eval_freq))
  /\ (eval_freq = 0 ->
      evaluates start_eval_epoch eval_freq epoch
      = if start_eval_epoch <=? epoch + 1 then ZeroDivisionError else Value false)
  /\ (1 <= eval_freq ->
      let first := eval_freq * Z.max 1 ((start_eval_epoch + eval_freq - 1) / eval_freq) in
      evaluates start_eval_epoch eval_freq (first - 1) = Value true
      /\ (0 <= epoch < first - 1 ->
          evaluates start_eval_epoch eval_freq epoch = Value false)).
Proof.
  unfold evaluates, pymod. split; [|split].
  - intros Hfreq. destruct (Z.eqb_spec eval_freq 0) as [?|_]; [contradiction|].
    destruct (Z.leb_spec start_eval_epoch (epoch + 1)) as [Hstart|Hstart]; cbn [arith_bind].
    + eexists. split; [reflexivity|]. rewrite Z.eqb_eq. split.
      * intros Hmod. split; [exact Hstart|].
        exists ((epoch + 1) / eval_freq).
        pose proof (Z.div_mod (epoch + 1) eval_freq Hfreq). lia.
      * intros [_ [k Hk]]. rewrite Hk. apply Z.mod_mul. exact Hfreq.
    + exists false. split; [reflexivity|]. split; [discriminate|]. lia.
  - intros ->. destruct (start_eval_epoch <=? epoch + 1); reflexivity.
  - intros Hfreq. cbv zeta.
    destruct (Z.eqb_spec eval_freq 0) as [?|_]; [lia|].
    set (q := (start_eval_epoch + eval_freq - 1) / eval_freq) in *.
    set (first := eval_freq * Z.max 1 q) in *.
    assert (Hq : start_eval_epoch <= eval_freq * q < start_eval_epoch + eval_freq).
    { pose proof (Z.div_mod (start_eval_epoch + eval_freq - 1) eval_freq ltac:(lia)).
      pose proof (Z.mod_pos_bound (start_eval_epoch + eval_freq - 1) eval_freq ltac:(lia)).
      fold q in H. lia. }
    assert (Hfirst : start_eval_epoch <= first /\ eval_freq <= first
                     /\ first = eval_freq * Z.max 1 q) by (unfold first; nia).
    split.
    + replace (first - 1 + 1) with first by lia.
      destruct (Z.leb_spec start_eval_epoch first) as [_|?]; [|lia].
      cbn [arith_bind]. unfold first. rewrite Z.mul_comm, Z.mod_mul by lia. reflexivity.
    + intros Hepoch.
      destruct (Z.leb_spec start_eval_epoch (epoch + 1)) as [Hstart|_]; [|reflexivity].
      cbn [arith_bind]. f_equal. apply Z.eqb_neq. intros Hmod.
      pose proof (Z.div_mod (epoch + 1) eval_freq ltac:(lia)) as Hdm.
      rewrite Hmod, Z.add_0_r in Hdm.
      set (k := (epoch + 1) / eval_freq) in *.
      assert (Hk : k < Z.max 1 q) by nia.
      assert (1 <= k) by nia.
      assert (k < q) by lia. nia.
Qed.

Lemma evaluation_schedule_witness :
  evaluates 3 5 4 = Value true
  /\ (0 <= 2 < 5 * Z.max 1 ((3 + 5 - 1) / 5) - 1 -> evaluates 3 5 2 = Value false).
Proof.
  destruct (evaluation_schedule 3 5 2) as (_ & _ & Hfirst).
  destruct (Hfirst ltac:(lia)) as [Hat Hbefore]. split; [exact Hat|exact Hbefore].
Defined.

(** X23: with a positive batch size and world size,
    [steps_per_epoch] is the least number of global batches that cover
    [num_examples_per_epoch]; a batch size or world size of 0 raises
    [ZeroDivisionError]. *)
Theorem steps_per_epoch_covers (num_examples_per_epoch batch_size world_size : Z) :
  (1 <= batch_size -> 1 <= world_size -> 0 <= num_examples_per_epoch ->
   exists steps,
     steps_per_epoch num_examples_per_epoch batch_size world_size = Value steps
     /\ (steps - 1) * (batch_size * world_size) < num_examples_per_epoch
        <= steps * (batch_size * world_size)
     /\ (steps = 0 <-> num_examples_per_epoch = 0))
  /\ (batch_size = 0 \/ world_size = 0 ->
      steps_per_epoch num_examples_per_epoch batch_size world_size = ZeroDivisionError).
Proof.
  unfold steps_per_epoch, floordiv. split.
  - intros Hb Hw Hn. set (g := batch_size * world_size).
    assert (Hg : 1 <= g) by (unfold g; nia).
    destruct (Z.eqb_spec g 0) as [?|_]; [lia|].
    eexists. split; [reflexivity|].
    pose proof (Z.div_mod (num_examples_per_epoch + g - 1) g ltac:(lia)) as Hdm.
    pose proof (Z.mod_pos_bound (num_examples_per_epoch + g - 1) g ltac:(lia)) as Hmod.
    split; [nia|]. split; intros Hz.
    + rewrite Hz in Hdm. lia.
    + subst num_examples_per_epoch. apply Z.div_small. lia.
  - intros Hzero.
    replace (batch_size * world_size) with 0 by (destruct Hzero; subst; lia).
    reflexivity.
Qed.

Lemma steps_per_epoch_covers_witness :
  exists steps,
    steps_per_epoch 128 4 8 = Value steps
    /\ (steps - 1) * (4 * 8) < 128 <= steps * (4 * 8)
    /\ (steps = 0 <-> 128 = 0).
Proof.
  destruct (steps_per_epoch_covers 128 4 8) as [Hsteps _].
  apply Hsteps; lia.
Defined.

(** X24: [run_experiment] rounds the number of evaluation
    samples up to whole batches per worker and then divides by the batch
    size once more for [validation_steps]: the result is
    [ceil(ceil(num_samples / world_size) / batch_size) // batch_size], which
    is 0 exactly when [num_samples <= world_size * batch_size * (batch_size - 1)]. *)
Theorem validation_steps_divides_twice (num_samples world_size batch_size : Z) :
  1 <= world_size -> 1 <= batch_size -> 0 <= num_samples ->
  exists per_worker batches steps,
    eval_num_samples num_samples world_size batch_size = Value batches
    /\ validation_steps num_samples world_size batch_size = Value steps
    /\ (per_worker - 1) * world_size < num_samples <= per_worker * world_size
    /\ (batches - 1) * batch_size < per_worker <= batches * batch_size
    /\ steps * batch_size <= batches < (steps + 1) * batch_size
    /\ (steps = 0 <-> num_samples <= world_size * batch_size * (batch_size - 1)).
Proof.
  intros Hw Hb Hn. unfold validation_steps, eval_num_samples, floordiv.
  destruct (Z.eqb_spec world_size 0) as [?|_]; [lia|].
  destruct (Z.eqb_spec batch_size 0) as [?|_]; [lia|].
  cbn [arith_bind].
  destruct (Z.eqb_spec batch_size 0) as [?|_]; [lia|].
  set (p := (num_samples + world_size - 1) / world_size).
  set (b := (p + batch_size - 1) / batch_size).
  exists p, b, (b / batch_size). split; [reflexivity|]. split; [reflexivity|].
  pose proof (Z.div_mod (num_samples + world_size - 1) world_size ltac:(lia)) as Hp.
  pose proof (Z.mod_pos_bound (num_samples + world_size - 1) world_size ltac:(lia)).
  fold p in Hp.
  pose proof (Z.div_mod (p + batch_size - 1) batch_size ltac:(lia)) as Hbd.
  pose proof (Z.mod_pos_bound (p + batch_size - 1) batch_size ltac:(lia)).
  fold b in Hbd.
  pose proof (Z.div_mod b batch_size ltac:(lia)) as Hs.
  pose proof (Z.mod_pos_bound b batch_size ltac:(lia)).
  assert (Hp1 : (p - 1) * world_size < num_samples <= p * world_size) by nia.
  assert (Hb1 : (b - 1) * batch_size < p <= b * batch_size) by nia.
  assert (Hs1 : b / batch_size * batch_size <= b < (b / batch_size + 1) * batch_size) by nia.
  split; [exact Hp1|]. split; [exact Hb1|]. split; [exact Hs1|].
  assert (0 <= p) by nia. assert (0 <= b) by nia.
  assert (0 <= b / batch_size) by (apply Z.div_pos; lia).
  split.
  - intros Hz. rewrite Hz in Hs1.
    assert (b <= batch_size - 1) by lia.
    assert (p <= batch_size * (batch_size - 1)) by nia. nia.
  - intros Hsmall.
    assert (Hpb : p <= batch_size * (batch_size - 1)).
    { destruct (Z.le_gt_cases p (batch_size * (batch_size - 1))) as [?|Hgt]; [assumption|].
      exfalso. assert (batch_size * (batch_size - 1) + 1 <= p) by lia. nia. }
    assert (Hbb : b <= batch_size - 1).
    { destruct (Z.le_gt_cases b (batch_size - 1)) as [?|Hgt]; [assumption|].
      exfalso. assert (batch_size <= b) by lia. nia. }
    apply Z.div_small. lia.
Qed.

Lemma validation_steps_divides_twice_witness :
  exists per_worker batches steps,
    eval_num_samples 50 1 8 = Value batches
    /\ validation_steps 50 1 8 = Value steps
    /\ (per_worker - 1) * 1 < 50 <= per_worker * 1
    /\ (batches - 1) * 8 < per_worker <= batches * 8
    /\ steps * 8 <= batches < (steps + 1) * 8
    /\ (steps = 0 <-> 50 <= 1 * 8 * (8 - 1)).
Proof. apply (validation_steps_divides_twice 50 1 8); lia. Defined.

End ScheduleFacts.

(** ** Paths of the packaging helpers *)

Module PackagingFacts.
Import Packaging StringFacts.

Lemma rfind_from_absent (c : ascii) (s : string) : forall pos found,
  PyStr.contains_char c s = false -> PyStr.rfind_from c s pos found = found.
Proof.
  induction s as [|a s IH]; intros pos found Hs; [reflexivity|].
  cbn [PyStr.contains_char] in Hs. apply orb_false_iff in Hs as [Ha Hs].
  cbn [PyStr.rfind_from]. rewrite Ha. apply IH. exact Hs.
Qed.

Lemma rfind_from_append (c : ascii) (s1 s2 : string) : forall pos found,
  PyStr.rfind_from c (s1 ++ s2) pos found
  = PyStr.rfind_from c s2 (pos + Z.of_nat (String.length s1))
      (PyStr.rfind_from c s1 pos found).
Proof.
  induction s1 as [|a s1 IH]; intros pos found.
  - rewrite append_nil_l. cbn [String.length PyStr.rfind_from]. f_equal. lia.
  - rewrite append_cons. cbn [PyStr.rfind_from String.length]. rewrite IH.
    f_equal. lia.
Qed.

(** The last slash of [d/c]. *)
Lemma rfind_last_slash (d c : string) :
  PyStr.contains_char "/"%char c = false ->
  PyStr.rfind "/"%char (d ++ String "/"%char c) = Z.of_nat (String.length d).
Proof.
  intros Hc. unfold PyStr.rfind. rewrite rfind_from_append.
  cbn [PyStr.rfind_from]. rewrite Ascii.eqb_refl.
  rewrite rfind_from_absent by exact Hc. lia.
Qed.

Lemma all_slashes_append (s1 s2 : string) :
  all_slashes (s1 ++ s2) = all_slashes s1 && all_slashes s2.
Proof.
  induction s1 as [|a s1 IH]; [reflexivity|].
  rewrite append_cons. cbn [all_slashes]. rewrite IH. apply andb_assoc.
Qed.

Lemma rstrip_slashes_slash (d : string) :
  rstrip_slashes (d ++ "/") = rstrip_slashes d.
Proof.
  induction d as [|a d IH]; [reflexivity|].
  rewrite append_cons. cbn [rstrip_slashes]. rewrite IH. reflexivity.
Qed.

Lemma all_slashes_ends (d : string) :
  d <> "" -> all_slashes d = true ->
  PyStr.rfind "/"%char d = (Z.of_nat (String.length d) - 1)%Z.
Proof.
  intros Hne Hall. unfold PyStr.rfind.
  assert (Hgen : forall pos found, d <> "" ->
            PyStr.rfind_from "/"%char d pos found
            = (pos + Z.of_nat (String.length d) - 1)%Z).
  { clear Hne. induction d as [|a d IH]; intros pos found Hd; [congruence|].
    cbn [all_slashes] in Hall. apply andb_true_iff in Hall as [Ha Hall].
    cbn [PyStr.rfind_from String.length]. rewrite Ascii.eqb_sym, Ha.
    destruct d as [|b d]; [cbn; lia|].
    rewrite IH by (exact Hall || discriminate). cbn [String.length]. lia. }
  rewrite Hgen by exact Hne. lia.
Qed.

Lemma rstrip_fixed_ends (d : string) :
  d <> "" -> rstrip_slashes d = d ->
  PyStr.rfind "/"%char d <> (Z.of_nat (String.length d) - 1)%Z
  /\ all_slashes d = false.
Proof.
  intros Hne Hfix.
  assert (Hlast : exists s a, d = s ++ String a "" /\ Ascii.eqb a "/"%char = false).
  { revert Hne Hfix. induction d as [|a d IH]; intros Hne Hfix; [congruence|].
    cbn [rstrip_slashes] in Hfix.
    destruct (Ascii.eqb a "/"%char && String.eqb (rstrip_slashes d) "") eqn:Hcase;
      [discriminate|].
    injection Hfix as Hfix. destruct d as [|b d].
    - exists "", a. split; [reflexivity|]. cbn in Hcase.
      rewrite andb_true_r in Hcase. exact Hcase.
    - assert (Hb : String b d <> "") by discriminate.
      destruct (IH Hb Hfix) as (s & z & -> & Hz).
      exists (String a s), z. split; [reflexivity|exact Hz]. }
  destruct Hlast as (s & a & -> & Ha). split.
  - unfold PyStr.rfind. rewrite rfind_from_append. cbn [PyStr.rfind_from].
    rewrite Ascii.eqb_sym, Ha, length_append. cbn [String.length].
    assert (Hbound : forall s pos found,
              (found < pos)%Z ->
              (PyStr.rfind_from "/"%char s pos found < pos + Z.of_nat (String.length s))%Z).
    { clear. induction s as [|b s IH]; intros pos found Hf; cbn [PyStr.rfind_from String.length];
        [lia|].
      destruct (Ascii.eqb "/"%char b).
      - specialize (IH (pos + 1)%Z pos ltac:(lia)). lia.
      - specialize (IH (pos + 1)%Z found ltac:(lia)). lia. }
    specialize (Hbound s 0%Z (-1)%Z ltac:(lia)). lia.
  - rewrite all_slashes_append. cbn [all_slashes]. rewrite Ha, andb_false_r. reflexivity.
Qed.

(** [os.path.split] undoes [os.path.join] with a name. *)
Lemma split_join (d c : string) :
  normal d -> is_name c -> split (OsPath.join d c) = (d, c).
Proof.
  intros Hd [Hc Hslash]. unfold OsPath.join.
  assert (Hpre : String.prefix "/" c = false).
  { destruct c as [|a c]; [congruence|]. cbn [PyStr.contains_char] in Hslash.
    apply orb_false_iff in Hslash as [Ha _]. cbn [String.prefix].
    destruct (ascii_dec "/"%char a) as [<-|_]; [|reflexivity].
    rewrite Ascii.eqb_refl in Ha. discriminate. }
  rewrite Hpre.
  destruct (String.eqb_spec d EmptyString) as [->|Hne]; cbn [orb].
  - rewrite append_nil_l. unfold split.
    unfold PyStr.rfind. rewrite rfind_from_absent by exact Hslash.
    cbn [Z.add Z.to_nat Pos.add]. change (Z.to_nat (-1 + 1)) with 0%nat.
    cbn [substring]. destruct c; [congruence|]. cbn [substring String.eqb negb andb].
    rewrite Nat.sub_0_r. f_equal. apply (substring_all (String _ _)).
  - destruct Hd as [Hall|Hfix].
    + rewrite (all_slashes_ends d Hne Hall), Z.eqb_refl.
      assert (Hsplit : exists d', d = d' ++ "/").
      { clear -Hne Hall. induction d as [|a d IH]; [congruence|].
        cbn [all_slashes] in Hall. apply andb_true_iff in Hall as [Ha Hall].
        apply Ascii.eqb_eq in Ha. subst a. destruct d as [|b d].
        - exists "". reflexivity.
        - assert (Hb : String b d <> "") by discriminate.
          destruct (IH Hall Hb) as [d' ->]. exists (String "/" d').
          reflexivity. }
      destruct Hsplit as [d' Hd']. unfold split.
      assert (Hr : PyStr.rfind "/"%char (d ++ c) = (Z.of_nat (String.length d) - 1)%Z).
      { rewrite Hd', append_assoc. change ("/" ++ c) with (String "/"%char c).
        rewrite rfind_last_slash by exact Hslash.
        rewrite length_append. cbn [String.length]. lia. }
      rewrite Hr.
      replace (Z.to_nat (Z.of_nat (String.length d) - 1 + 1)%Z) with (String.length d) by lia.
      rewrite substring_prefix.
      destruct (String.eqb_spec d EmptyString) as [?|_]; [congruence|].
      rewrite Hall. cbn [negb andb]. f_equal.
      rewrite length_append, Nat.add_comm, Nat.add_sub. apply substring_suffix.
    + destruct (rstrip_fixed_ends d Hne Hfix) as [Hlast Hnot].
      destruct (Z.eqb_spec (PyStr.rfind "/"%char d) (Z.of_nat (String.length d) - 1)%Z)
        as [?|_]; [contradiction|].
      unfold split. change (d ++ "/" ++ c) with (d ++ String "/"%char c).
      rewrite rfind_last_slash by exact Hslash.
      replace (Z.to_nat (Z.of_nat (String.length d) + 1)%Z)
        with (String.length (d ++ "/")) by (rewrite length_append; cbn; lia).
      change (d ++ String "/"%char c) with (d ++ "/" ++ c).
      rewrite <- append_assoc, substring_prefix.
      assert (Hne' : String.eqb (d ++ "/") "" = false) by (destruct d; reflexivity).
      rewrite Hne', all_slashes_append, Hnot. cbn [negb andb].
      rewrite rstrip_slashes_slash, Hfix. f_equal.
      rewrite (length_append (d ++ "/")), Nat.add_comm, Nat.add_sub.
      apply substring_suffix.
Qed.

(** Paths that end with a name. *)
Lemma rstrip_slashes_name (x c : string) :
  is_name c -> rstrip_slashes (x ++ c) = x ++ c.
Proof.
  intros [Hc Hslash]. induction x as [|a x IH].
  - rewrite append_nil_l. clear Hc. induction c as [|b c IH]; [reflexivity|].
    cbn [PyStr.contains_char] in Hslash. apply orb_false_iff in Hslash as [Hb Hslash].
    cbn [rstrip_slashes]. rewrite Ascii.eqb_sym, Hb, IH by exact Hslash. reflexivity.
  - rewrite append_cons. cbn [rstrip_slashes]. rewrite IH.
    assert (Hne : String.eqb (x ++ c) "" = false).
    { destruct x; [|reflexivity]. destruct c; [congruence|reflexivity]. }
    rewrite Hne, andb_false_r. reflexivity.
Qed.

Lemma name_suffix_normal (x c : string) : is_name c -> normal (x ++ c).
Proof. intros Hc. right. apply rstrip_slashes_name. exact Hc. Qed.

Lemma not_prefix_slash (c : string) : is_name c -> String.prefix "/" c = false.
Proof.
  intros [Hc Hslash]. destruct c as [|a c]; [congruence|].
  cbn [PyStr.contains_char] in Hslash. apply orb_false_iff in Hslash as [Ha _].
  cbn [String.prefix]. destruct (ascii_dec "/"%char a) as [<-|_]; [|reflexivity].
  rewrite Ascii.eqb_refl in Ha. discriminate.
Qed.

Lemma join_after_name (x c1 c : string) :
  is_name c1 -> is_name c -> OsPath.join (x ++ c1) c = (x ++ c1) ++ "/" ++ c.
Proof.
  intros Hc1 Hc. unfold OsPath.join. rewrite (not_prefix_slash c Hc).
  assert (Hne : x ++ c1 <> "").
  { destruct Hc1 as [Hc1 _]. destruct x; [|discriminate]. exact Hc1. }
  destruct (String.eqb_spec (x ++ c1) EmptyString) as [?|_]; [contradiction|].
  destruct (rstrip_fixed_ends (x ++ c1) Hne (rstrip_slashes_name x c1 Hc1)) as [Hlast _].
  destruct (Z.eqb_spec (PyStr.rfind "/"%char (x ++ c1))
              (Z.of_nat (String.length (x ++ c1)) - 1)%Z) as [?|_]; [contradiction|].
  reflexivity.
Qed.

Lemma join_name_suffix (d c : string) :
  is_name c -> exists x, OsPath.join d c = x ++ c.
Proof.
  intros Hc. unfold OsPath.join. rewrite (not_prefix_slash c Hc).
  destruct (_ || _).
  - exists d. reflexivity.
  - exists (d ++ "/"). rewrite append_assoc. reflexivity.
Qed.

Lemma join_all_snoc (d : string) (names : list string) (c : string) :
  join_all d (names ++ [c]) = OsPath.join (join_all d names) c.
Proof. unfold join_all. rewrite foldl_snoc. reflexivity. Qed.

Lemma join_all_normal (d : string) (names : list string) :
  normal d -> Forall is_name names -> normal (join_all d names).
Proof.
  intros Hd Hnames. destruct names as [|c names _] using rev_ind; [exact Hd|].
  apply Forall_app in Hnames as [_ Hc]. apply List.Forall_inv in Hc.
  rewrite join_all_snoc. destruct (join_name_suffix (join_all d names) c Hc) as [x ->].
  apply name_suffix_normal. exact Hc.
Qed.

Lemma up_directory_succ (p : string) (n : nat) :
  up_directory p (Z.of_nat (S n)) = up_directory (split p).1 (Z.of_nat n).
Proof.
  unfold up_directory. rewrite !Nat2Z.id.
  apply (Nat.iter_succ_r n (fun dir_up => (split dir_up).1)).
Qed.

(** X25: [up_directory] undoes [os.path.join]: going up as
    many directories as names were joined to a directory gives that
    directory back, and going up 0 or a negative number of directories
    leaves the path as it is.  Going up [m + n] directories is going up
    [m] and then [n]. *)
Theorem up_directory_undoes_join (d : string) (names : list string) :
  normal d ->
  Forall is_name names ->
  up_directory (join_all d names) (Z.of_nat (length names)) = d
  /\ (forall p n, (n <= 0)%Z -> up_directory p n = p)
  /\ (forall p m n, (0 <= m)%Z -> (0 <= n)%Z ->
        up_directory p (m + n) = up_directory (up_directory p m) n).
Proof.
  intros Hd Hnames. split; [|split].
  - induction names as [|c names IH] using rev_ind; [reflexivity|].
    apply Forall_app in Hnames as [Hnames Hc]. apply List.Forall_inv in Hc.
    rewrite length_app, Nat.add_1_r, up_directory_succ, join_all_snoc.
    rewrite split_join; [|apply join_all_normal; assumption|exact Hc].
    apply IH. exact Hnames.
  - intros p n Hn. unfold up_directory.
    replace (Z.to_nat n) with 0%nat by lia. reflexivity.
  - intros p m n Hm Hn. unfold up_directory.
    rewrite Z2Nat.inj_add by lia. rewrite Nat.add_comm. apply Nat.iter_add.
Qed.

Lemma up_directory_undoes_join_witness :
  up_directory (join_all "/workspace/tao" ["release"; "python"; "utils"]) 3
  = "/workspace/tao".
Proof.
  apply (up_directory_undoes_join "/workspace/tao" ["release"; "python"; "utils"]).
  - right. reflexivity.
  - repeat constructor; discriminate.
Defined.

(** *** [remove_prefix] *)

Lemma substring_split (s : string) : forall k,
  (k <= String.length s)%nat ->
  s = substring 0 k s ++ substring k (String.length s - k) s.
Proof.
  induction s as [|a s IH]; intros k Hk.
  - destruct k; [reflexivity|cbn in Hk; lia].
  - destruct k as [|k].
    + rewrite Nat.sub_0_r, (substring_all (String a s)). reflexivity.
    + cbn [substring String.length Nat.sub]. rewrite append_cons. f_equal.
      apply IH. cbn in Hk. lia.
Qed.

Lemma endswith_suffix (s suffix : string) :
  PyStr.endswith s suffix = true -> exists x, s = x ++ suffix.
Proof.
  unfold PyStr.endswith. intros Hends. apply andb_true_iff in Hends as [Hlen Heq].
  apply Nat.leb_le in Hlen. apply String.eqb_eq in Heq.
  exists (substring 0 (String.length s - String.length suffix) s).
  pose proof (substring_split s (String.length s - String.length suffix) ltac:(lia))
    as Hsplit.
  replace (String.length s - (String.length s - String.length suffix))%nat
    with (String.length suffix) in Hsplit by lia.
  rewrite Heq in Hsplit. exact Hsplit.
Qed.

Lemma substring_after (s1 s2 : string) :
  substring (String.length s1 + 1)
    (String.length (s1 ++ String "/"%char s2) - (String.length s1 + 1))
    (s1 ++ String "/"%char s2) = s2.
Proof.
  change (s1 ++ String "/"%char s2) with (s1 ++ "/" ++ s2).
  rewrite <- append_assoc.
  replace (String.length s1 + 1)%nat with (String.length (s1 ++ "/"))
    by (rewrite length_append; reflexivity).
  rewrite (length_append (s1 ++ "/")), Nat.add_comm, Nat.add_sub.
  apply substring_suffix.
Qed.

(** A slice from a position to the end is a suffix. *)
Lemma substring_is_suffix (s : string) : forall k,
  exists x, s = x ++ substring k (String.length s - k) s.
Proof.
  induction s as [|a s IH]; intros k.
  - exists "". destruct k; reflexivity.
  - destruct k as [|k].
    + exists "". rewrite Nat.sub_0_r, substring_all. reflexivity.
    + destruct (IH k) as [x Hx]. exists (String a x).
      cbn [String.length Nat.sub substring]. rewrite append_cons, <- Hx. reflexivity.
Qed.

(** The path below a directory, its names joined. *)
Lemma join_all_below (d c : string) (names : list string) :
  (exists x c0, d = x ++ c0 /\ is_name c0) ->
  Forall is_name (c :: names) ->
  join_all d (c :: names) = d ++ String "/"%char (join_all c names).
Proof.
  intros (x & c0 & -> & Hc0) Hnames.
  induction names as [|c' names IH] using rev_ind.
  - apply List.Forall_inv in Hnames. cbn [join_all foldl].
    rewrite (join_after_name x c0 c Hc0 Hnames). reflexivity.
  - rewrite app_comm_cons in Hnames. apply Forall_app in Hnames as [Hnames Hc'].
    apply List.Forall_inv in Hc'.
    rewrite app_comm_cons, !join_all_snoc, IH by exact Hnames.
    assert (Hrel : exists y c1, join_all c names = y ++ c1 /\ is_name c1).
    { destruct names as [|c2 names _] using rev_ind.
      - exists "", c. split; [reflexivity|]. apply Forall_cons in Hnames as [Hc _]. exact Hc.
      - rewrite join_all_snoc. apply Forall_cons in Hnames as [_ Hnames].
        apply Forall_app in Hnames as [_ Hc2]. apply List.Forall_inv in Hc2.
        destruct (join_name_suffix (join_all c names) c2 Hc2) as [y ->].
        exists y, c2. auto. }
    destruct Hrel as (y & c1 & Hy & Hc1). rewrite Hy.
    rewrite (join_after_name y c1 c' Hc1 Hc').
    change ((x ++ c0) ++ String "/"%char (y ++ c1))
      with ((x ++ c0) ++ "/" ++ (y ++ c1)).
    rewrite <- !append_assoc.
    rewrite (join_after_name (((x ++ c0) ++ "/") ++ y) c1 c' Hc1 Hc').
    rewrite !append_assoc. reflexivity.
Qed.

(** X26: for a path at most 8 levels below a directory whose
    path ends with "ai_infra", with no such directory in between,
    [remove_prefix] returns the path relative to that directory; whatever
    the path, the result is a suffix of it. *)
Theorem remove_prefix_relative (d c : string) (names : list string) :
  PyStr.endswith d "ai_infra" = true ->
  Forall is_name (c :: names) ->
  (length (c :: names) <= 8)%nat ->
  (forall i, (0 < i < length (c :: names))%nat ->
             PyStr.endswith (join_all d (take i (c :: names))) "ai_infra" = false) ->
  remove_prefix (join_all d (c :: names)) = join_all c names
  /\ join_all d (c :: names) = d ++ "/" ++ join_all c names
  /\ forall p, exists x, p = x ++ remove_prefix p.
Proof.
  intros Hends Hnames Hlen Hbetween.
  destruct (endswith_suffix d "ai_infra" Hends) as [x Hd].
  assert (Hroot : exists x c0, d = x ++ c0 /\ is_name c0).
  { exists x, "ai_infra". split; [exact Hd|]. split; [discriminate|reflexivity]. }
  assert (Hnormal : normal d).
  { destruct Hroot as (x0 & c0 & -> & Hc0). apply name_suffix_normal. exact Hc0. }
  pose proof (join_all_below d c names Hroot Hnames) as Hpath.
  split; [|split; [exact Hpath|]].
  - set (all := c :: names) in *. set (p := join_all d all) in *.
    assert (Hloop : forall j m,
              (1 <= j <= length all)%nat -> (j <= m)%nat ->
              remove_prefix_loop m p (join_all d (take j all))
              = substring (String.length d + 1)
                  (String.length p - (String.length d + 1)) p).
    { induction j as [|j IH]; intros m Hj Hm; [lia|].
      destruct m as [|m]; [lia|]. cbn [remove_prefix_loop].
      assert (Hjlt : (j < length all)%nat) by lia.
      destruct (lookup_lt_is_Some_2 all j Hjlt) as [cj Hcj].
      rewrite (take_S_r all j cj Hcj), join_all_snoc.
      rewrite split_join; cycle 1.
      { apply join_all_normal; [exact Hnormal|].
        apply Forall_take. exact Hnames. }
      { rewrite Forall_forall in Hnames. apply Hnames.
        eapply list_elem_of_lookup_2. exact Hcj. }
      cbn [fst]. destruct j as [|j].
      - replace (join_all d (take 0 all)) with d by reflexivity.
        rewrite Hends. reflexivity.
      - rewrite Hbetween by lia. apply IH; lia. }
    unfold remove_prefix. fold p.
    replace p with (join_all d (take (length all) all)) at 2
      by (rewrite firstn_all; reflexivity).
    rewrite Hloop by (unfold all in *; cbn [length] in *; lia).
    subst p all. rewrite Hpath. apply substring_after.
  - intros p. unfold remove_prefix. generalize p at 3. generalize 8%nat.
    induction n as [|n IH]; intros q; cbn [remove_prefix_loop].
    + exists "". reflexivity.
    + destruct (PyStr.endswith (split q).1 "ai_infra"); [|apply IH].
      apply substring_is_suffix.
Qed.

Lemma remove_prefix_relative_witness :
  remove_prefix (join_all "/workspace/ai_infra" ["release"; "python"])
  = join_all "release" ["python"]
  /\ join_all "/workspace/ai_infra" ["release"; "python"]
     = "/workspace/ai_infra" ++ "/" ++ join_all "release" ["python"].
Proof.
  destruct (remove_prefix_relative "/workspace/ai_infra" "release" ["python"])
    as (Hrel & Hpath & _).
  - reflexivity.
  - repeat constructor; discriminate.
  - simpl. lia.
  - intros i Hi. simpl in Hi. assert (i = 1%nat) as -> by lia. reflexivity.
  - split; assumption.
Defined.

End PackagingFacts.

(** ** Checkpoint file names *)

Module EffCheckpointFacts.
Import EffCheckpoint StringFacts.
Local Open Scope Z_scope.

Lemma digit_of_digit_char (d : Z) :
  0 <= d <= 9 -> PyStr.digit_of (digit_char d) = Some d.
Proof.
  intros Hd.
  assert (Hcases : d = 0 \/ d = 1 \/ d = 2 \/ d = 3 \/ d = 4 \/ d = 5 \/ d = 6
                   \/ d = 7 \/ d = 8 \/ d = 9) by lia.
  repeat (destruct Hcases as [->|Hcases]; [reflexivity|]). subst d. reflexivity.
Qed.

Lemma parse_digits_append (s1 s2 : string) : forall acc,
  PyStr.parse_digits acc (s1 ++ s2)
  = match PyStr.parse_digits acc s1 with
    | Some acc' => PyStr.parse_digits acc' s2
    | None => None
    end.
Proof.
  induction s1 as [|c s1 IH]; intros acc; [reflexivity|].
  rewrite append_cons. cbn [PyStr.parse_digits].
  destruct (PyStr.digit_of c); [apply IH|reflexivity].
Qed.

(** The digits of [n] in front of [rest] read as [n]. *)
Lemma decimal_from_digits (fuel : nat) : forall n rest,
  0 <= n -> (Z.to_nat n < fuel)%nat ->
  exists ds,
    decimal_from fuel n rest = ds ++ rest
    /\ (1 <= String.length ds)%nat
    /\ forall acc, PyStr.parse_digits acc (ds ++ rest)
                   = PyStr.parse_digits (acc * 10 ^ Z.of_nat (String.length ds) + n) rest.
Proof.
  induction fuel as [|fuel IH]; intros n rest Hn Hfuel; [lia|].
  cbn [decimal_from].
  pose proof (Z.div_mod n 10 ltac:(lia)) as Hdm.
  pose proof (Z.mod_pos_bound n 10 ltac:(lia)) as Hmod.
  destruct (Z.eqb_spec (n / 10) 0) as [Hq|Hq].
  - exists (String (digit_char (n mod 10)) ""). split; [reflexivity|].
    split; [cbn; lia|]. intros acc. rewrite append_cons, append_nil_l.
    cbn [PyStr.parse_digits]. rewrite digit_of_digit_char by lia.
    f_equal. cbn [String.length]. change (10 ^ Z.of_nat 1) with 10. lia.
  - assert (Hpos : 0 < n / 10) by (pose proof (Z.div_pos n 10 Hn ltac:(lia)); lia).
    destruct (IH (n / 10) (String (digit_char (n mod 10)) rest)) as (ds & Heq & Hlen & Hparse);
      [lia|lia|].
    exists (ds ++ String (digit_char (n mod 10)) ""). split; [|split].
    + rewrite Heq, append_assoc. reflexivity.
    + rewrite length_append. cbn [String.length]. lia.
    + intros acc. rewrite append_assoc, append_cons, append_nil_l, Hparse.
      cbn [PyStr.parse_digits]. rewrite digit_of_digit_char by lia. f_equal.
      rewrite length_append. cbn [String.length].
      rewrite Nat2Z.inj_add. change (Z.of_nat 1) with 1.
      rewrite Z.pow_add_r by lia. change (10 ^ 1) with 10. lia.
Qed.

Lemma parse_decimal (n : Z) :
  0 <= n -> PyStr.parse_digits 0 (decimal n) = Some n /\ (1 <= String.length (decimal n))%nat.
Proof.
  intros Hn. unfold decimal.
  destruct (decimal_from_digits (S (Z.to_nat n)) n "" Hn ltac:(lia)) as (ds & -> & Hlen & Hparse).
  split.
  - rewrite Hparse. cbn [PyStr.parse_digits]. f_equal; lia.
  - rewrite append_nil_r. exact Hlen.
Qed.

Lemma parse_zeros (k : nat) (s : string) :
  PyStr.parse_digits 0 (zeros k ++ s) = PyStr.parse_digits 0 s.
Proof.
  induction k as [|k IH]; [reflexivity|].
  cbn [zeros]. rewrite append_cons. cbn [PyStr.parse_digits].
  change (PyStr.digit_of "0"%char) with (Some 0). cbn iota. exact IH.
Qed.

Lemma length_zeros (k : nat) : String.length (zeros k) = k.
Proof. induction k as [|k IH]; [reflexivity|]. cbn [zeros String.length]. rewrite IH. reflexivity. Qed.

(** The formatted number reads back as the number. *)
Lemma parse_format_03d (z : Z) :
  0 <= z ->
  PyStr.parse_digits 0 (format_03d z) = Some z
  /\ (3 <= String.length (format_03d z))%nat.
Proof.
  intros Hz. unfold format_03d, zfill.
  destruct (Z.ltb_spec z 0) as [?|_]; [lia|].
  destruct (parse_decimal z Hz) as [Hparse Hlen].
  split; [rewrite parse_zeros; exact Hparse|].
  rewrite length_append, length_zeros. lia.
Qed.

Lemma append_inj_r (t : string) : forall s1 s2, s1 ++ t = s2 ++ t -> s1 = s2.
Proof.
  assert (Hlen : forall s1 s2, s1 ++ t = s2 ++ t -> String.length s1 = String.length s2).
  { intros s1 s2 Heq. apply (f_equal String.length) in Heq.
    rewrite !length_append in Heq. lia. }
  induction s1 as [|a s1 IH]; intros s2 Heq.
  - apply Hlen in Heq. destruct s2; [reflexivity|discriminate].
  - pose proof (Hlen _ _ Heq) as Hl. destruct s2 as [|b s2]; [discriminate|].
    rewrite !append_cons in Heq. injection Heq as -> Heq. f_equal. apply IH. exact Heq.
Qed.

Lemma join_inj (dir f1 f2 : string) :
  String.prefix "/" f1 = String.prefix "/" f2 ->
  OsPath.join dir f1 = OsPath.join dir f2 -> f1 = f2.
Proof.
  unfold OsPath.join. intros <-. destruct (String.prefix "/" f1); [exact (fun H => H)|].
  destruct (_ || _); intros Heq.
  - apply String.app_inj in Heq. exact Heq.
  - apply String.app_inj, String.app_inj in Heq. exact Heq.
Qed.

(** X27: [on_epoch_end] names the encrypted checkpoint of a
    0-based epoch [name_NNN.eff] with [NNN] the 1-based epoch number in at
    least three digits, which reads back as that number; so different
    epochs get different paths.  With [graph_only] the path is the same
    for every epoch. *)
Theorem eff_names_distinct (eff_dir model_name : string) :
  (forall epoch,
     0 <= epoch ->
     PyStr.parse_digits 0 (format_03d (epoch + 1)) = Some (epoch + 1)
     /\ (3 <= String.length (format_03d (epoch + 1)))%nat
     /\ eff_filename model_name false epoch
        = model_name ++ "_" ++ format_03d (epoch + 1) ++ ".eff"
     /\ ckpt_name epoch = "ckpt-" ++ format_03d (epoch + 1))
  /\ (forall epoch1 epoch2,
        0 <= epoch1 -> 0 <= epoch2 ->
        eff_model_path eff_dir model_name false epoch1
        = eff_model_path eff_dir model_name false epoch2 ->
        epoch1 = epoch2)
  /\ (forall epoch1 epoch2,
        eff_model_path eff_dir model_name true epoch1
        = eff_model_path eff_dir model_name true epoch2)
  /\ format_03d 7 = "007" /\ format_03d 42 = "042" /\ format_03d 1234 = "1234".
Proof.
  split; [|split; [|split]].
  - intros epoch Hepoch. destruct (parse_format_03d (epoch + 1) ltac:(lia)) as [Hp Hl].
    repeat split; assumption.
  - intros e1 e2 H1 H2 Hpath. unfold eff_model_path, eff_filename in Hpath.
    apply join_inj in Hpath.
    + apply String.app_inj in Hpath. apply (String.app_inj "_") in Hpath.
      apply append_inj_r in Hpath.
      destruct (parse_format_03d (e1 + 1) ltac:(lia)) as [Hp1 _].
      destruct (parse_format_03d (e2 + 1) ltac:(lia)) as [Hp2 _].
      rewrite Hpath, Hp2 in Hp1. injection Hp1 as Hp1. lia.
    + destruct model_name as [|a model_name]; [reflexivity|].
      rewrite !append_cons. cbn [String.prefix].
      destruct (ascii_dec _ _); [|reflexivity].
      rewrite !prefix_empty. reflexivity.
  - reflexivity.
  - repeat split; reflexivity.
Qed.

Lemma eff_names_distinct_witness :
  PyStr.parse_digits 0 (format_03d (4 + 1)) = Some (4 + 1)
  /\ eff_filename "efficientdet-d0" false 4 = "efficientdet-d0_005.eff".
Proof.
  destruct (eff_names_distinct "/results/weights" "efficientdet-d0") as [Hname _].
  destruct (Hname 4 ltac:(lia)) as (Hparse & _ & Hfile & _).
  split; [exact Hparse|exact Hfile].
Defined.

End EffCheckpointFacts.

(** ** The architectures [get_model] can build *)

Module ModelBuilderFacts.
Import ModelBuilder PyDict.

Section Dispatch.
Context {V : Type} (activation_type : V -> option V).

(** Keyword arguments that hold all that [get_model] reads. *)
Variable kwargs : list (string * V).
Hypothesis Hresnet :
  Forall (fun k => is_Some (dict_get k kwargs))
    ["nlayers"; "use_batch_norm"; "use_pooling"; "freeze_bn"; "use_bias";
     "all_projections"].
Hypothesis Hefficientnet :
  exists activation a,
    dict_get "activation" kwargs = Some activation
    /\ activation_type activation = Some a.

Lemma copy_kwargs_present (ks : list string) : forall kwa,
  Forall (fun k => is_Some (dict_get k kwargs)) ks ->
  exists kwa', copy_kwargs kwargs ks kwa = Ok kwa'.
Proof.
  induction ks as [|k ks IH]; intros kwa Hks; [exists kwa; reflexivity|].
  apply Forall_cons in Hks as [[v Hk] Hks]. cbn [copy_kwargs]. unfold kwarg.
  rewrite Hk. cbn [rbind]. apply IH. exact Hks.
Qed.

Lemma model_choose_keys : model_choose.*1 = SUPPORTED_ARCHS.
Proof. reflexivity. Qed.

Lemma dict_get_model_choose (arch : string) :
  is_Some (dict_get arch model_choose) <-> arch ∈ SUPPORTED_ARCHS.
Proof.
  rewrite <- model_choose_keys. generalize model_choose. intros d.
  induction d as [|[k v] d IH]; simpl.
  - split; [intros [x Hx]; discriminate|intros Hin; apply elem_of_nil in Hin; contradiction].
  - destruct (decide (arch = k)) as [->|Hne].
    + split; [intros _; apply list_elem_of_here|intros _; eexists; reflexivity].
    + rewrite IH. split; [apply list_elem_of_further|].
      intros Hin. apply elem_of_cons in Hin as [?|Hin]; [contradiction|exact Hin].
Qed.

Lemma model_choose_wrapper (arch wrapper : string) :
  dict_get arch model_choose = Some wrapper -> wrapper = "get_" ++ arch.
Proof.
  unfold model_choose. cbn [dict_get].
  repeat (destruct (decide _) as [->|_]; [intros [= <-]; reflexivity|]).
  discriminate.
Qed.

(** The keyword arguments are read for every supported architecture. *)
Lemma supported_passes_test (arch : string) :
  arch ∈ SUPPORTED_ARCHS ->
  String.eqb arch "resnet" = true \/ str_contains "efficientnet_b" arch = true.
Proof.
  unfold SUPPORTED_ARCHS. intros Hin.
  repeat (apply elem_of_cons in Hin as [->|Hin]; [(left; reflexivity) || (right; reflexivity)|]).
  apply elem_of_nil in Hin. contradiction.
Qed.

(** X28: given keyword arguments that hold everything it reads,
    [get_model] reaches a wrapper exactly for the architectures listed in
    [SUPPORTED_ARCHS], and the wrapper is [get_<arch>].  Any other
    architecture whose name contains "efficientnet_b" passes the test of
    the name and fails with [KeyError] at the lookup of the wrapper; every
    remaining name fails with the [ValueError] "Unsupported architecture". *)
Theorem get_model_supported (arch : string) :
  ((exists r, get_model activation_type arch kwargs = Ok r)
   <-> arch ∈ SUPPORTED_ARCHS)
  /\ (forall wrapper kwa,
        get_model activation_type arch kwargs = Ok (wrapper, kwa) ->
        wrapper = "get_" ++ arch)
  /\ (arch ∉ SUPPORTED_ARCHS ->
      str_contains "efficientnet_b" arch = true ->
      get_model activation_type arch kwargs = Raise (KeyError arch))
  /\ (arch ∉ SUPPORTED_ARCHS ->
      str_contains "efficientnet_b" arch = false ->
      get_model activation_type arch kwargs
      = Raise (ValueError ("Unsupported architecture: " ++ arch))).
Proof.
  assert (Hkwa : String.eqb arch "resnet" = true
                 \/ str_contains "efficientnet_b" arch = true ->
                 exists kwa,
                   get_model activation_type arch kwargs
                   = match dict_get arch model_choose with
                     | Some wrapper => Ok (wrapper, kwa)
                     | None => Raise (KeyError arch)
                     end).
  { intros Htest. unfold get_model.
    destruct (String.eqb arch "resnet") eqn:Hres.
    - destruct (copy_kwargs_present _ [] Hresnet) as [kwa ->]. exists kwa. reflexivity.
    - destruct Htest as [?|Heff]; [discriminate|]. rewrite Heff.
      destruct (copy_kwargs_present ["use_bias"; "freeze_bn"] []) as [kwa ->].
      { apply Forall_cons in Hresnet as [_ Hresnet].
        apply Forall_cons in Hresnet as [_ Hresnet].
        apply Forall_cons in Hresnet as [_ Hresnet].
        apply Forall_cons in Hresnet as [Hfreeze Hresnet].
        apply Forall_cons in Hresnet as [Hbias _].
        repeat constructor; assumption. }
      destruct Hefficientnet as (activation & a & Hact & Ha).
      cbn [rbind]. unfold kwarg. rewrite Hact. cbn [rbind]. rewrite Ha.
      eexists. reflexivity. }
  assert (Hnot : arch ∉ SUPPORTED_ARCHS -> dict_get arch model_choose = None).
  { intros Hout. destruct (dict_get arch model_choose) eqn:Hget; [|reflexivity].
    exfalso. apply Hout. apply dict_get_model_choose. eexists. exact Hget. }
  assert (Hres : arch ∉ SUPPORTED_ARCHS -> String.eqb arch "resnet" = false).
  { intros Hout. destruct (String.eqb_spec arch "resnet") as [Heq|_]; [|reflexivity].
    exfalso. apply Hout. rewrite Heq. apply list_elem_of_here. }
  split; [|split; [|split]].
  - split.
    + intros [r Hr].
      destruct (decide (arch ∈ SUPPORTED_ARCHS)) as [Hin|Hout]; [exact Hin|]. exfalso.
      destruct (str_contains "efficientnet_b" arch) eqn:Heff.
      * destruct (Hkwa (or_intror eq_refl)) as [kwa Hrun].
        rewrite Hrun, (Hnot Hout) in Hr. discriminate.
      * unfold get_model in Hr. rewrite (Hres Hout), Heff in Hr. discriminate.
    + intros Hin. destruct (Hkwa (supported_passes_test arch Hin)) as [kwa ->].
      apply dict_get_model_choose in Hin as [wrapper ->]. eexists. reflexivity.
  - intros wrapper kwa Hrun.
    assert (Hin : arch ∈ SUPPORTED_ARCHS).
    { destruct (decide (arch ∈ SUPPORTED_ARCHS)) as [Hin|Hout]; [exact Hin|]. exfalso.
      destruct (str_contains "efficientnet_b" arch) eqn:Heff.
      - destruct (Hkwa (or_intror eq_refl)) as [kwa' Hrun'].
        rewrite Hrun', (Hnot Hout) in Hrun. discriminate.
      - unfold get_model in Hrun. rewrite (Hres Hout), Heff in Hrun. discriminate. }
    destruct (Hkwa (supported_passes_test arch Hin)) as [kwa' Hrun'].
    rewrite Hrun' in Hrun.
    destruct (dict_get arch model_choose) as [w|] eqn:Hget; [|discriminate].
    injection Hrun as <- _. apply model_choose_wrapper. exact Hget.
  - intros Hout Heff. destruct (Hkwa (or_intror Heff)) as [kwa ->].
    rewrite (Hnot Hout). reflexivity.
  - intros Hout Heff. unfold get_model. rewrite (Hres Hout), Heff. reflexivity.
Qed.

End Dispatch.

Lemma get_model_supported_witness :
  get_model (fun v : string => Some v) "efficientnet_b8"
    [("nlayers", "18"); ("use_batch_norm", "True"); ("use_pooling", "False");
     ("freeze_bn", "False"); ("use_bias", "False"); ("all_projections", "True");
     ("activation", "relu")]
  = Raise (KeyError "efficientnet_b8").
Proof.
  destruct (get_model_supported (fun v : string => Some v)
              [("nlayers", "18"); ("use_batch_norm", "True"); ("use_pooling", "False");
               ("freeze_bn", "False"); ("use_bias", "False"); ("all_projections", "True");
               ("activation", "relu")]
              ltac:(repeat constructor; eexists; reflexivity)
              ltac:(exists "relu", "relu"; split; reflexivity)
              "efficientnet_b8") as (_ & _ & Hkey & _).
  apply Hkey; [|reflexivity].
  apply (bool_decide_unpack _). vm_compute. exact I.
Defined.

End ModelBuilderFacts.
